(** * WEB-Bible-Parser: the verse extractor and the chapter loop of [main.py]

    A shallow embedding of [extract_verses_from_html] and of the chapter loop
    of [process_and_save_books], with the properties of the specification
    stated and settled against it.

    Modelling choices, all visible in the definitions below:
    - a Python [str] is the list of its code points ([pystr]); [strip],
      [split] and [int] follow CPython (whitespace and decimal digits of
      Unicode 14, the digit limit of [int] of CPython 3.11);
    - the tree that [BeautifulSoup(html, 'html.parser')] builds is a value of
      type [node]: tags (name, attribute dictionary in insertion order with
      distinct keys, contents) and strings (plain or comment; the other
      string classes of bs4 are not represented).  The HTML parser itself is
      a library and is taken as a function [pystr -> option node], [None]
      standing for an exception raised while parsing;
    - an element of the tree is a subtree together with its position
      ([path]) and its chain of [parents]; [next_element] is the successor in
      document order, over the whole document;
    - [decompose] changes the tree that every later line reads: the tree is
      rebuilt once ([working_tree]) and everything after line 34 is computed
      on it;
    - [Tag.__eq__] of bs4 is structural (name, attributes, contents), and so
      is every [==] of the source between elements: [node_eqb].  It calls
      itself on the contents, and raises [RecursionError] on two subtrees
      that are equal down to a great depth; which comparisons raise, and
      which [str(tag)], is the parameter [raises] of the extractor, the
      lines of the [try] are written in a monad of results ([Raised],
      [Returned]), and the [except] of line 90 turns [Raised] into [None].
      The same lines with nothing raised are the pure [walk], [process] and
      [markers];
    - [str(tag)] is the markup of the tag as bs4 (4.8 and later) writes it
      with its default formatter: [decode];
    - [verses_dict] is a [gmap Z pystr];
    - the files are what the chapter loop can observe of them: the outcome
      of reading, of [os.makedirs] (done, [OSError], or another exception)
      and of writing, as functions of the path;
    - the two messages about a book that are printed on the standard output
      inside the [try] of line 117 can raise, as [print] does for a name
      that the encoding of the output cannot write: [stdout]. *)

From Stdlib Require Import ZArith NArith List Bool Lia String Ascii.
From Stdlib Require Import Numbers.DecimalString Numbers.DecimalN.
From stdpp Require Import base option list gmap.

Open Scope N_scope.

(** ** Python strings *)

Module Py.

Definition pystr : Type := list N.

(** An ASCII literal as a Python string. *)
Definition u (s : string) : pystr :=
  List.map N_of_ascii (list_ascii_of_string s).

Definition str_eqb (a b : pystr) : bool := bool_decide (a = b).

(** [str.isspace] of one character ([Py_UNICODE_ISSPACE], Unicode 14). *)
Definition isspace (c : N) : bool :=
  ((9 <=? c) && (c <=? 13)) || ((28 <=? c) && (c <=? 32))
  || (c =? 133) || (c =? 160) || (c =? 5760)
  || ((8192 <=? c) && (c <=? 8202))
  || (c =? 8232) || (c =? 8233) || (c =? 8239) || (c =? 8287) || (c =? 12288).

Fixpoint lstrip (s : pystr) : pystr :=
  match s with
  | c :: s' => if isspace c then lstrip s' else s
  | [] => []
  end.

Definition rstrip (s : pystr) : pystr := rev (lstrip (rev s)).

(** [s.strip()] *)
Definition strip (s : pystr) : pystr := rstrip (lstrip s).

(** [s.replace(old, new)] for one-character [old] and [new]. *)
Definition replace_char (old new : N) (s : pystr) : pystr :=
  List.map (fun c => if c =? old then new else c) s.

Definition push_word (w : pystr) (ws : list pystr) : list pystr :=
  match w with [] => ws | _ => w :: ws end.

(** [split_from s] is the word that starts at the head of [s] (empty when
    [s] starts with whitespace) and the words after it. *)
Fixpoint split_from (s : pystr) : pystr * list pystr :=
  match s with
  | [] => ([], [])
  | c :: s' =>
      let '(w, ws) := split_from s' in
      if isspace c then ([], push_word w ws) else (c :: w, ws)
  end.

(** [s.split()]: the maximal runs of non-whitespace characters. *)
Definition split (s : pystr) : list pystr :=
  let '(w, ws) := split_from s in push_word w ws.

(** [sep.join(ws)] *)
Fixpoint join (sep : pystr) (ws : list pystr) : pystr :=
  match ws with
  | [] => []
  | [w] => w
  | w :: ws' => w ++ sep ++ join sep ws'
  end.

(** [needle in s] for strings. *)
Fixpoint is_prefix (a s : pystr) : bool :=
  match a, s with
  | [], _ => true
  | x :: a', y :: s' => (x =? y) && is_prefix a' s'
  | _ :: _, [] => false
  end.

Fixpoint contains (needle s : pystr) : bool :=
  is_prefix needle s ||
  match s with
  | [] => false
  | _ :: s' => contains needle s'
  end.

(** *** [int(s)] for a string argument, base 10 *)

(** The code points of the digit zero of every Unicode decimal system
    (category Nd, Unicode 14); the nine code points after each are its digits
    1 to 9. *)
Definition decimal_zeros : list N :=
  [48; 1632; 1776; 1984; 2406; 2534; 2662; 2790; 2918; 3046; 3174; 3302;
   3430; 3558; 3664; 3792; 3872; 4160; 4240; 6112; 6160; 6470; 6608; 6784;
   6800; 6992; 7088; 7232; 7248; 42528; 43216; 43264; 43472; 43504; 43600;
   44016; 65296; 66720; 68912; 69734; 69872; 69942; 70096; 70384; 70736;
   70864; 71248; 71360; 71472; 71904; 72016; 72784; 73040; 73120; 92768;
   92864; 93008; 120782; 120792; 120802; 120812; 120822; 123200; 123632;
   125264; 130032].

(** [Py_UNICODE_TODECIMAL] *)
Definition todecimal (c : N) : option N :=
  match List.find (fun z => (z <=? c) && (c <? z + 10)) decimal_zeros with
  | Some z => Some (c - z)
  | None => None
  end.

(** One character of [_PyUnicode_TransformDecimalAndSpaceToASCII]: ASCII is
    kept, other whitespace becomes a space, other decimal digits become ASCII
    digits, anything else makes the literal invalid. *)
Definition to_ascii (c : N) : option N :=
  if c <? 127 then Some c
  else if isspace c then Some 32
  else match todecimal c with
       | Some d => Some (48 + d)
       | None => None
       end.

(** [Py_ISSPACE] *)
Definition c_isspace (c : N) : bool :=
  ((9 <=? c) && (c <=? 13)) || (c =? 32).

Definition c_isdigit (c : N) : bool := (48 <=? c) && (c <=? 57).

Definition underscore : N := 95.

Fixpoint skip_spaces (s : list N) : list N :=
  match s with
  | c :: s' => if c_isspace c then skip_spaces s' else s
  | [] => []
  end.

(** The run of digits and underscores at the head of [s], and what follows. *)
Fixpoint digit_run (s : list N) : list N * list N :=
  match s with
  | c :: s' =>
      if c_isdigit c || (c =? underscore)
      then let '(r, rest) := digit_run s' in (c :: r, rest)
      else ([], s)
  | [] => ([], [])
  end.

(** Underscores stand only between two digits. *)
Fixpoint underscores_ok (prev_digit : bool) (r : list N) : bool :=
  match r with
  | [] => prev_digit
  | c :: r' =>
      if c =? underscore then prev_digit && underscores_ok false r'
      else underscores_ok true r'
  end.

Definition digits_of (r : list N) : list N :=
  List.filter c_isdigit r.

Definition value_of (ds : list N) : Z :=
  fold_left (fun acc d => (10 * acc + Z.of_N (d - 48))%Z) ds 0%Z.

(** [sys.get_int_max_str_digits()], the default of CPython 3.11 and later. *)
Definition int_max_str_digits : nat := 4300.

(** [int(s)]; [None] is [ValueError]. *)
Definition int (s : pystr) : option Z :=
  match mapM to_ascii s with
  | None => None
  | Some t =>
      let t := skip_spaces t in
      let '(negative, t) :=
        match t with
        | 43 :: t' => (false, t')
        | 45 :: t' => (true, t')
        | _ => (false, t)
        end in
      let '(r, rest) := digit_run t in
      if underscores_ok false r
         && bool_decide (skip_spaces rest = [])
         && bool_decide (length (digits_of r) <= int_max_str_digits)%nat
      then Some (if negative then - value_of (digits_of r) else value_of (digits_of r))%Z
      else None
  end.

(** *** Words and spacing *)

Definition blank (s : pystr) : Prop := Forall (fun c => isspace c = true) s.
Definition solid (s : pystr) : Prop := Forall (fun c => isspace c = false) s.
(** A word: not empty, no whitespace in it. *)
Definition word (w : pystr) : Prop := w ≠ [] ∧ solid w.

(** [single_spaced after_space t]: every whitespace character of [t] is an
    ordinary space, none follows another (or the start, when [after_space]),
    and [t] does not end on one. *)
Fixpoint single_spaced (after_space : bool) (t : pystr) : bool :=
  match t with
  | [] => negb after_space
  | c :: t' =>
      if isspace c then (c =? 32) && negb after_space && single_spaced true t'
      else single_spaced false t'
  end.

End Py.
Import Py.


(** ** The document tree of bs4 *)

Module Soup.

(** [NavigableString] and its subclass [Comment]. *)
Inductive strkind := KString | KComment.

(** An attribute value: a string, or a list of strings for a multi-valued
    attribute such as [class]. *)
Inductive attrval :=
| AStr (s : pystr)
| AList (l : list pystr).

#[local] Set Warnings "-register-all".
Inductive node :=
| NavigableString (kind : strkind) (s : pystr)
| Tag (name : pystr) (attrs : list (pystr * attrval)) (contents : list node).

#[global] Instance strkind_eq_dec : EqDecision strkind.
Proof. solve_decision. Defined.
#[global] Instance attrval_eq_dec : EqDecision attrval.
Proof. solve_decision. Defined.

Definition name_of (n : node) : option pystr :=
  match n with
  | Tag name _ _ => Some name
  | NavigableString _ _ => None
  end.

Definition contents_of (n : node) : list node :=
  match n with
  | Tag _ _ cs => cs
  | NavigableString _ _ => []
  end.

(** [attrs.get(key)] on the attribute dictionary. *)
Fixpoint dict_get (key : pystr) (attrs : list (pystr * attrval)) : option attrval :=
  match attrs with
  | [] => None
  | (k, v) :: attrs' => if str_eqb k key then Some v else dict_get key attrs'
  end.

(** [tag.get(key)] *)
Definition get (key : pystr) (n : node) : option attrval :=
  match n with
  | Tag _ attrs _ => dict_get key attrs
  | NavigableString _ _ => None
  end.

(** Equality of two attribute dictionaries: as many keys, and every key of
    the first bound to an equal value in the second. *)
Definition attrs_eqb (a b : list (pystr * attrval)) : bool :=
  bool_decide (length a = length b)
  && forallb (fun kv => bool_decide (dict_get (fst kv) b = Some (snd kv))) a.

(** [Tag.__eq__]: same name, same attributes, same contents, recursively.
    Two strings are equal when their text is; a string never equals a tag. *)
Fixpoint node_eqb (a b : node) {struct a} : bool :=
  match a, b with
  | NavigableString _ s, NavigableString _ t => str_eqb s t
  | Tag n at1 cs, Tag n' at2 cs' =>
      str_eqb n n' && attrs_eqb at1 at2
      && (fix all2 (xs ys : list node) {struct xs} : bool :=
            match xs, ys with
            | [], [] => true
            | x :: xs', y :: ys' => node_eqb x y && all2 xs' ys'
            | _, _ => false
            end) cs cs'
  | _, _ => false
  end.

(** [x and current == x] for an optional tag [x]. *)
Definition eq_some (x : option node) (current : node) : bool :=
  match x with
  | Some t => node_eqb current t
  | None => false
  end.

(** *** Searching: [find] and [find_all] by name and class *)

Definition has_name (name : pystr) (n : node) : bool :=
  match n with
  | Tag nm _ _ => str_eqb nm name
  | NavigableString _ _ => false
  end.

(** The [class_=c] filter: one of the classes is [c], or the whole attribute
    is. *)
Definition class_matches (c : pystr) (n : node) : bool :=
  match get (u "class") n with
  | Some (AList l) => existsb (fun x => str_eqb x c) l || str_eqb (join (u " ") l) c
  | Some (AStr s) => str_eqb s c
  | None => false
  end.

(** The filter of [find(name, class_=c)]. *)
Definition matches (name c : pystr) (n : node) : bool :=
  has_name name n && class_matches c n.

(** *** Text of a tag *)

(** The strings [get_text] joins: the descendant strings that are plain
    [NavigableString]s (comments are left out). *)
Fixpoint all_strings (n : node) : list pystr :=
  match n with
  | NavigableString KString s => [s]
  | NavigableString KComment _ => []
  | Tag _ _ cs => flat_map all_strings cs
  end.

(** [tag.get_text(strip=True)]: every string stripped, the empty ones
    dropped, the rest concatenated. *)
Definition get_text_strip (n : node) : pystr :=
  concat (List.filter (fun s => negb (str_eqb s [])) (List.map strip (all_strings n))).

(** *** [str(tag)]: the markup of a tag *)

Definition quot : N := 34.
Definition apos : N := 39.

(** The [minimal] formatter: ampersands and angle brackets become entities. *)
Definition substitute_xml (s : pystr) : pystr :=
  flat_map (fun c =>
              if c =? 38 then u "&amp;"
              else if c =? 60 then u "&lt;"
              else if c =? 62 then u "&gt;"
              else [c]) s.

Definition quoted_attribute_value (v : pystr) : pystr :=
  if existsb (N.eqb quot) v then
    if existsb (N.eqb apos) v
    then [quot] ++ flat_map (fun c => if c =? quot then u "&quot;" else [c]) v ++ [quot]
    else [apos] ++ v ++ [apos]
  else [quot] ++ v ++ [quot].

Definition attr_text (v : attrval) : pystr :=
  match v with
  | AStr s => s
  | AList l => join (u " ") l
  end.

(** [a <= b] on strings, by code points. *)
Fixpoint str_leb (a b : pystr) : bool :=
  match a, b with
  | [], _ => true
  | _ :: _, [] => false
  | x :: a', y :: b' => (x <? y) || ((x =? y) && str_leb a' b')
  end.

Fixpoint insert_sorted (kv : pystr * attrval) (l : list (pystr * attrval)) :=
  match l with
  | [] => [kv]
  | kv' :: l' => if str_leb (fst kv) (fst kv') then kv :: l else kv' :: insert_sorted kv l'
  end.

(** [sorted(tag.attrs.items())] *)
Definition sorted_attrs (attrs : list (pystr * attrval)) : list (pystr * attrval) :=
  fold_right insert_sorted [] attrs.

Definition attribute_string (attrs : list (pystr * attrval)) : pystr :=
  flat_map (fun kv => u " " ++ fst kv ++ u "="
                      ++ quoted_attribute_value (substitute_xml (attr_text (snd kv))))
           (sorted_attrs attrs).

(** The void elements of the HTML tree builder. *)
Definition empty_element_tags : list pystr :=
  List.map u ["area"; "base"; "br"; "col"; "embed"; "hr"; "img"; "input";
              "keygen"; "link"; "menuitem"; "meta"; "param"; "source";
              "track"; "wbr"; "basefont"; "bgsound"; "command"; "frame";
              "image"; "isindex"; "nextid"; "spacer"]%string.

Definition cdata_containing_tags : list pystr := List.map u ["script"; "style"]%string.

Definition mem (s : pystr) (l : list pystr) : bool := existsb (str_eqb s) l.

(** [string.output_ready(formatter)] for a string whose parent is [parent]. *)
Definition output_ready (parent : pystr) (k : strkind) (s : pystr) : pystr :=
  match k with
  | KComment => u "<!--" ++ s ++ u "-->"
  | KString => if mem parent cdata_containing_tags then s else substitute_xml s
  end.

(** [tag.decode()], which is [str(tag)]. *)
Fixpoint decode (n : node) : pystr :=
  match n with
  | NavigableString _ s => s
  | Tag name attrs cs =>
      match cs with
      | [] =>
          if mem name empty_element_tags
          then u "<" ++ name ++ attribute_string attrs ++ u "/>"
          else u "<" ++ name ++ attribute_string attrs ++ u "></" ++ name ++ u ">"
      | _ =>
          u "<" ++ name ++ attribute_string attrs ++ u ">"
          ++ (fix children (cs : list node) : pystr :=
                match cs with
                | [] => []
                | c :: cs' =>
                    match c with
                    | NavigableString k s => output_ready name k s
                    | Tag _ _ _ => decode c
                    end ++ children cs'
                end) cs
          ++ u "</" ++ name ++ u ">"
      end
  end.

(** *** Elements in document order *)

(** An element of a tree: where it is ([path], the child indices from the
    root), the subtree there, and its [parents], nearest first. *)
Record element := Element { path : list nat; el : node; parents : list node }.

Section Children.
Context {A : Type} (f : nat -> node -> list A).

(** The results of [f] on the children [cs], numbered from [i]. *)
Fixpoint children_from (i : nat) (cs : list node) : list A :=
  match cs with
  | [] => []
  | c :: cs' => f i c ++ children_from (S i) cs'
  end.
End Children.

(** The element at [p] and its descendants, in document order: following
    [next_element] from an element gives the elements after it in this list. *)
Fixpoint elements (p : list nat) (ups : list node) (n : node) {struct n} : list element :=
  Element p n ups ::
  match n with
  | NavigableString _ _ => []
  | Tag _ _ cs => children_from (fun i c => elements (p ++ [i]) (n :: ups) c) 0 cs
  end.

(** [soup.descendants] *)
Definition descendants (soup : node) : list element :=
  tail (elements [] [] soup).

(** [soup.find(...)]: the first descendant that passes the filter. *)
Definition find (p : node -> bool) (soup : node) : option element :=
  head (List.filter (fun e => p (el e)) (descendants soup)).

(** *** Mutation: [decompose] *)

(** The tree with the subtree at [p] replaced by its image under [f]. *)
Fixpoint update_at (p : list nat) (f : node -> node) (n : node) : node :=
  match p with
  | [] => f n
  | i :: p' =>
      match n with
      | Tag name attrs cs => Tag name attrs (alter (update_at p' f) i cs)
      | NavigableString _ _ => n
      end
  end.

Section Kept.
Context (drop : node -> bool) (f : node -> node).

(** The children that are not dropped, each mapped by [f]. *)
Fixpoint map_kept (cs : list node) : list node :=
  match cs with
  | [] => []
  | c :: cs' => if drop c then map_kept cs' else f c :: map_kept cs'
  end.
End Kept.

(** [for a in n.find_all('a'): a.decompose()]: every descendant [a] tag is
    removed from the tree with all it contains. *)
Fixpoint decompose_links (n : node) : node :=
  match n with
  | NavigableString _ _ => n
  | Tag name attrs cs => Tag name attrs (map_kept (has_name (u "a")) decompose_links cs)
  end.

Section NodeInduction.
Variable P : node -> Prop.
Hypothesis string_case : ∀ k s, P (NavigableString k s).
Hypothesis tag_case : ∀ name attrs cs, Forall P cs -> P (Tag name attrs cs).

(** Induction on a tree, with the property for all children of a tag. *)
Fixpoint node_induction (n : node) : P n :=
  match n with
  | NavigableString k s => string_case k s
  | Tag name attrs cs =>
      tag_case name attrs cs
        ((fix all (cs : list node) : Forall P cs :=
            match cs with
            | [] => @List.Forall_nil node P
            | c :: cs' => @List.Forall_cons node P c cs' (node_induction c) (all cs')
            end) cs)
  end.
End NodeInduction.

End Soup.
Import Soup.

(** ** [extract_verses_from_html] *)

Module Extract.

(** [pm] is a proper prefix of [p]: the element at [p] is a descendant of the
    element at [pm]. *)
Definition below (pm p : list nat) : bool :=
  bool_decide (pm `prefix_of` p ∧ pm ≠ p).

(** [tags.find_all(...)] over the elements in document order; every tag found
    comes with the elements after it, the chain that [next_element] follows
    from it. *)
Fixpoint find_all (p : element -> bool) (order : list element)
  : list (element * list element) :=
  match order with
  | [] => []
  | e :: rest => if p e then (e, rest) :: find_all p rest else find_all p rest
  end.

(** Lines 27-31: the div of class [main], or else the body. *)
Definition main_content (soup : node) : option element :=
  match find (matches (u "div") (u "main")) soup with
  | Some e => Some e
  | None => find (has_name (u "body")) soup
  end.

(** Lines 33-34: the tree after the links of [main_content] are decomposed. *)
Definition working_tree (soup : node) (mc : element) : node :=
  update_at (path mc) decompose_links soup.

(** All elements of the tree after that, in document order. *)
Definition document_order (soup : node) (mc : element) : list element :=
  elements [] [] (working_tree soup mc).

(** The filter of [main_content.find(name, class_=c)]. *)
Definition in_main (mc : element) (name c : pystr) (e : element) : bool :=
  below (path mc) (path e) && matches name c (el e).

(** Lines 36-37: [main_content.find('div', class_=c)]. *)
Definition zone_element (c : pystr) (soup : node) (mc : element) : option element :=
  head (List.filter (in_main mc (u "div") c) (document_order soup mc)).

Definition zone (c : pystr) (soup : node) (mc : element) : option node :=
  el <$> zone_element c soup mc.

Definition footnote_div := zone (u "footnote").
Definition copyright_div := zone (u "copyright").

(** Line 39. *)
Definition verse_tags (soup : node) (mc : element) : list (element * list element) :=
  find_all (in_main mc (u "span") (u "verse")) (document_order soup mc).

(** [current_element.name == 'span' and current_element.get('class') == ['wj']] *)
Definition is_wj (n : node) : bool :=
  has_name (u "span") n && bool_decide (get (u "class") n = Some (AList [u "wj"])).

(** [parent_class and ('wj' in parent_class or 'verse' in parent_class)] *)
Definition wj_or_verse (parent_class : option attrval) : bool :=
  match parent_class with
  | None => false
  | Some (AList l) => negb (bool_decide (l = [])) && (mem (u "wj") l || mem (u "verse") l)
  | Some (AStr s) => negb (bool_decide (s = [])) && (contains (u "wj") s || contains (u "verse") s)
  end.

(** Lines 74-79. *)
Definition is_excluded_parent (e : element) : bool :=
  match head (parents e) with
  | Some parent => has_name (u "span") parent && wj_or_verse (get (u "class") parent)
  | None => false
  end.

(** Lines 70-81: what [e] appends to [content_parts]. *)
Definition contribution (e : element) : list pystr :=
  match el e with
  | Tag _ _ _ => if is_wj (el e) then [decode (el e)] else []
  | NavigableString _ s => if is_excluded_parent e then [] else [s]
  end.

(** Lines 83-85. *)
Definition normalize (content_parts : list pystr) : pystr :=
  let full_verse_text := strip (concat content_parts) in
  let full_verse_text := replace_char 160 32 full_verse_text in
  join (u " ") (split full_verse_text).

(** Lines 87-88. *)
Definition record (verses_dict : gmap Z pystr) (n : Z) (text : pystr) : gmap Z pystr :=
  if bool_decide (text = []) then verses_dict else <[n := strip text]> verses_dict.

(** *** The body of the [try], with what it can raise

    [a == b] between two elements is [Tag.__eq__] of bs4 as soon as one of
    them is a tag: it compares the names, the attributes and then the
    contents child by child, calling itself.  On two subtrees that are equal
    down to a great depth it exceeds the recursion limit of the interpreter
    and raises [RecursionError], which nothing catches before line 90.
    [str(tag)] at line 72 calls itself as well in the versions of bs4 before
    4.12.1, and raises on a wrapper of great depth.  Whether one of the two
    raises depends on the interpreter (its limit, the depth of the stack), on
    the library and on the objects: it is the parameter [raises], of which
    nothing is assumed.  A comparison that returns, returns [node_eqb]; a
    [str(tag)] that returns, returns [decode]. *)

(** The operations of the body that can raise. *)
Inductive operation :=
| Compare (a b : element)
| Render (e : element).

(** What a piece of the body gives: an exception, or a value. *)
Inductive result (A : Type) :=
| Raised
| Returned (a : A).
Arguments Raised {A}.
Arguments Returned {A} a.

#[global] Instance result_ret : MRet result := @Returned.
#[global] Instance result_bind : MBind result :=
  fun A B f m => match m with Raised => Raised | Returned a => f a end.

(** [a or b] for two conditions that can raise: [b] is evaluated only when
    [a] is false. *)
Definition or_else (a b : result bool) : result bool :=
  match a with
  | Raised => Raised
  | Returned true => Returned true
  | Returned false => b
  end.

(** [e.parents] as elements, nearest first. *)
Fixpoint parent_elements (p : list nat) (ups : list node) : list element :=
  match ups with
  | [] => []
  | n :: ups' => Element (removelast p) n ups' :: parent_elements (removelast p) ups'
  end.

Section Interpreter.
Variable raises : operation -> bool.

(** [a == b] *)
Definition equals (a b : element) : result bool :=
  if raises (Compare a b) then Raised else Returned (node_eqb (el a) (el b)).

(** [x and current == x] for a tag [x] that may be [None]. *)
Definition is_that (x : option element) (current : element) : result bool :=
  match x with
  | Some t => equals current t
  | None => Returned false
  end.

(** Lines 62-64 and 65-67:
    [for parent in current_element.parents: if parent == x: ...; break] *)
Fixpoint some_parent_is (x : element) (ups : list element) : result bool :=
  match ups with
  | [] => Returned false
  | parent :: ups' => or_else (equals parent x) (some_parent_is x ups')
  end.

(** Lines 60-67. *)
Definition in_excluded_section (fd cd : option element) (e : element) : result bool :=
  let ups := parent_elements (path e) (parents e) in
  or_else (match fd with
           | Some footnote_div => some_parent_is footnote_div ups
           | None => Returned false
           end)
          (match cd with
           | Some copyright_div => some_parent_is copyright_div ups
           | None => Returned false
           end).

(** Lines 57-68: whether the walk breaks at [e]. *)
Definition breaks_at (next fd cd : option element) (e : element) : result bool :=
  or_else (is_that next e)
          (or_else (or_else (is_that fd e) (is_that cd e))
                   (in_excluded_section fd cd e)).

(** Lines 70-81: what [e] appends to [content_parts]; [str] of a string is
    the string. *)
Definition collect (e : element) : result (list pystr) :=
  match el e with
  | Tag _ _ _ =>
      if is_wj (el e)
      then if raises (Render e) then Raised else Returned [decode (el e)]
      else Returned []
  | NavigableString _ s => Returned (if is_excluded_parent e then [] else [s])
  end.

(** Lines 53-81: the [while True] loop along [chain], the elements that
    follow the verse tag; [next] is the verse tag after it, if any.  The
    result is [content_parts]. *)
Fixpoint while_loop (next fd cd : option element) (chain : list element)
  : result (list pystr) :=
  match chain with
  | [] => Returned []
  | current :: chain' =>
      match breaks_at next fd cd current with
      | Raised => Raised
      | Returned true => Returned []
      | Returned false =>
          parts ← collect current;
          content_parts ← while_loop next fd cd chain';
          Returned (parts ++ content_parts)
      end
  end.

(** Lines 43-88: the loop over the verse tags. *)
Fixpoint for_loop (fd cd : option element) (tags : list (element * list element))
         (verses_dict : gmap Z pystr) : result (gmap Z pystr) :=
  match tags with
  | [] => Returned verses_dict
  | (verse_tag, chain) :: tags' =>
      match int (get_text_strip (el verse_tag)) with
      | None => for_loop fd cd tags' verses_dict
      | Some verse_number_int =>
          content_parts ← while_loop (fst <$> head tags') fd cd chain;
          for_loop fd cd tags'
                   (record verses_dict verse_number_int (normalize content_parts))
      end
  end.

(** Lines 27-88 and 94: the body of the [try], after the parsing. *)
Definition try_body (soup : node) : result (option (gmap Z pystr)) :=
  match main_content soup with
  | None => Returned None
  | Some mc =>
      match verse_tags soup mc with
      | [] => Returned None
      | tags =>
          verses_dict ← for_loop (zone_element (u "footnote") soup mc)
                                 (zone_element (u "copyright") soup mc) tags ∅;
          Returned (if bool_decide (verses_dict = ∅) then None else Some verses_dict)
      end
  end.

(** Lines 25-94 on the parsed document: what the body raises is caught at
    line 90, and [None] is returned. *)
Definition extract_from_soup (soup : node) : option (gmap Z pystr) :=
  match try_body soup with
  | Raised => None
  | Returned verses_dict => verses_dict
  end.

End Interpreter.

(** *** The loops when nothing is raised

    The same lines with [node_eqb] for every [==] and [decode] for every
    [str(tag)]: what the loops compute as long as nothing is raised. *)

(** Lines 60-67: one of the parents equals the footnote or the copyright div. *)
Definition is_in_excluded_section (fd cd : option node) (e : element) : bool :=
  existsb (eq_some fd) (parents e) || existsb (eq_some cd) (parents e).

(** Lines 57-68: the conditions under which the walk breaks at [e]. *)
Definition breaks (next fd cd : option node) (e : element) : bool :=
  eq_some next (el e)
  || (eq_some fd (el e) || eq_some cd (el e))
  || is_in_excluded_section fd cd e.

(** Lines 53-81: [content_parts] after the walk along [chain], the elements
    that follow the verse tag; [next] is the verse tag after it, if any. *)
Fixpoint walk (next fd cd : option node) (chain : list element) : list pystr :=
  match chain with
  | [] => []
  | current :: chain' =>
      if breaks next fd cd current then []
      else contribution current ++ walk next fd cd chain'
  end.

(** Lines 43-88: the loop over the verse tags. *)
Fixpoint process (fd cd : option node) (tags : list (element * list element))
         (verses_dict : gmap Z pystr) : gmap Z pystr :=
  match tags with
  | [] => verses_dict
  | (verse_tag, chain) :: tags' =>
      match int (get_text_strip (el verse_tag)) with
      | None => process fd cd tags' verses_dict
      | Some verse_number_int =>
          let next := (el ∘ fst) <$> head tags' in
          let full_verse_text := normalize (walk next fd cd chain) in
          process fd cd tags' (record verses_dict verse_number_int full_verse_text)
      end
  end.

(** Lines 27-94 on the parsed document, when nothing is raised. *)
Definition extract_unless_raised (soup : node) : option (gmap Z pystr) :=
  match main_content soup with
  | None => None
  | Some mc =>
      match verse_tags soup mc with
      | [] => None
      | tags =>
          let verses_dict :=
            process (footnote_div soup mc) (copyright_div soup mc) tags ∅ in
          if bool_decide (verses_dict = ∅) then None else Some verses_dict
      end
  end.

(** *** What the loop does, marker by marker *)

(** One iteration, on the label and the content of a marker. *)
Definition step (d : gmap Z pystr) (m : pystr * list pystr) : gmap Z pystr :=
  match int (fst m) with
  | None => d
  | Some n => record d n (normalize (snd m))
  end.

(** The elements the walk goes over before it breaks. *)
Fixpoint visited (next fd cd : option node) (chain : list element) : list element :=
  match chain with
  | [] => []
  | current :: chain' =>
      if breaks next fd cd current then [] else current :: visited next fd cd chain'
  end.

(** For every verse tag in turn, its label and its [content_parts]. *)
Fixpoint outcomes (fd cd : option node) (tags : list (element * list element))
  : list (pystr * list pystr) :=
  match tags with
  | [] => []
  | (verse_tag, chain) :: tags' =>
      (get_text_strip (el verse_tag), walk ((el ∘ fst) <$> head tags') fd cd chain)
        :: outcomes fd cd tags'
  end.

(** The verse markers of a document: label and collected content of each, in
    document order (none when the document has no content region). *)
Definition markers (soup : node) : list (pystr * list pystr) :=
  match main_content soup with
  | None => []
  | Some mc => outcomes (footnote_div soup mc) (copyright_div soup mc) (verse_tags soup mc)
  end.

(** For every verse tag in turn, its label and the elements its walk goes
    over. *)
Fixpoint walks (fd cd : option node) (tags : list (element * list element))
  : list (pystr * list element) :=
  match tags with
  | [] => []
  | (verse_tag, chain) :: tags' =>
      (get_text_strip (el verse_tag), visited ((el ∘ fst) <$> head tags') fd cd chain)
        :: walks fd cd tags'
  end.

Definition marker_walks (soup : node) : list (pystr * list element) :=
  match main_content soup with
  | None => []
  | Some mc => walks (footnote_div soup mc) (copyright_div soup mc) (verse_tags soup mc)
  end.

(** A node and everything below it. *)
Fixpoint subnodes (n : node) : list node :=
  n :: match n with
       | Tag _ _ cs => flat_map subnodes cs
       | NavigableString _ _ => []
       end.

(** The footnote and the copyright div of a document. *)
Definition zones (soup : node) : option node * option node :=
  match main_content soup with
  | None => (None, None)
  | Some mc => (footnote_div soup mc, copyright_div soup mc)
  end.

(** A marker is recordable under [k]: its label parses to [k] and its
    normalized text is not empty. *)
Definition recordable (k : Z) (m : pystr * list pystr) : bool :=
  bool_decide (int (fst m) = Some k) && negb (bool_decide (normalize (snd m) = [])).

(** The text of the last marker recordable under [k]. *)
Definition last_recorded (k : Z) (ms : list (pystr * list pystr)) : option pystr :=
  (normalize ∘ snd) <$> last (List.filter (recordable k) ms).

(** *** The document as the claims speak of it *)

(** The node at a path. *)
Fixpoint node_at (p : list nat) (n : node) : option node :=
  match p with
  | [] => Some n
  | i :: p' =>
      match n with
      | Tag _ _ cs => match cs !! i with Some c => node_at p' c | None => None end
      | NavigableString _ _ => None
      end
  end.

Section FirstChild.
Context (p : node -> bool) (inside : node -> option (list nat)).

(** The path of the first of the children [cs], numbered from [i], that
    passes [p] or has a path [inside]; each child comes before what it
    contains, and before the children after it. *)
Fixpoint first_child (i : nat) (cs : list node) : option (list nat) :=
  match cs with
  | [] => None
  | c :: cs' =>
      if p c then Some [i]
      else match inside c with
           | Some q => Some (i :: q)
           | None => first_child (S i) cs'
           end
  end.
End FirstChild.

(** The path of the first descendant of [n], in document order, that passes
    [p]. *)
Fixpoint first_path (p : node -> bool) (n : node) : option (list nat) :=
  match n with
  | NavigableString _ _ => None
  | Tag _ _ cs => first_child p (first_path p) O cs
  end.

(** The content region: the first div of class [main], or the first [body]
    when there is no such div. *)
Definition region_path (soup : node) : option (list nat) :=
  match first_path (matches (u "div") (u "main")) soup with
  | Some p => Some p
  | None => first_path (has_name (u "body")) soup
  end.

(** A tree without the hyperlink elements it contains. *)
Fixpoint without_links (n : node) : node :=
  match n with
  | NavigableString _ _ => n
  | Tag name attrs cs =>
      Tag name attrs
          (List.filter (fun c => negb (has_name (u "a") c)) (List.map without_links cs))
  end.

(** The document without the hyperlink elements of its content region. *)
Definition without_region_links (soup : node) : node :=
  match region_path soup with
  | Some p => update_at p without_links soup
  | None => soup
  end.

(** Nothing raises on the document (the hyperlinks of its content region
    removed): no [str] of one of its elements, and no comparison between two
    of them. *)
Definition no_error (raises : operation -> bool) (soup : node) : Prop :=
  ∀ a, a ∈ elements [] [] (without_region_links soup) ->
       raises (Render a) = false
       ∧ ∀ b, b ∈ elements [] [] (without_region_links soup) ->
              raises (Compare a b) = false.

Section Parser.
Variable raises : operation -> bool.
(** [BeautifulSoup(html, 'html.parser')]; [None] when it raises. *)
Variable BeautifulSoup : pystr -> option node.

(** Lines 14-94.  Every exception of the body is caught at line 90 and
    turned into [None]. *)
Definition extract_verses_from_html (html_content : pystr) : option (gmap Z pystr) :=
  match BeautifulSoup html_content with
  | None => None
  | Some soup => extract_from_soup raises soup
  end.
End Parser.

End Extract.
Import Extract.

(** ** The chapter loop of [process_and_save_books] *)

Module Walker.

(** What opening and reading a chapter file gives: [FileNotFoundError], any
    other exception, or the content. *)
Inductive read_result :=
| FileNotFound
| ReadFails
| Contents (file_content : pystr).

(** What writing a JSON file gives: success, [IOError], or another exception. *)
Inductive write_result := Written | WriteIOError | WriteFails.

(** What [os.makedirs(dir, exist_ok=True)] gives: the directory is there,
    [OSError], or another exception (such as [ValueError] for a name that
    holds a null character). *)
Inductive makedirs_result := Made | MakedirsOSError | MakedirsFails.

(** The files as the loop sees them. *)
Record filesystem := Filesystem {
  open_read : pystr -> read_result;
  makedirs : pystr -> makedirs_result;
  json_dump : pystr -> gmap Z pystr -> write_result
}.

(** What the loop does to the outside: directories made, files written, and
    the messages on [stderr]. *)
Inductive event :=
| MadeDir (dir : pystr)
| WroteJson (file : pystr) (verses_dict : gmap Z pystr)
| ErrorCreatingBookDirectory (dir : pystr)
| ErrorWritingJson (file : pystr)
| UnexpectedErrorWritingJson (chapter_num : N) (book_name : pystr)
| ErrorProcessingChapterFile (file : pystr).

(** [os.path.join(a, b)] of [posixpath]. *)
Definition path_join (a b : pystr) : pystr :=
  match b with
  | 47 :: _ => b
  | _ => match last a with
         | None | Some 47 => a ++ b
         | Some _ => a ++ u "/" ++ b
         end
  end.

(** [f"{n}"] for a number that is not negative. *)
Definition decimal (n : N) : pystr := u (NilEmpty.string_of_uint (N.to_uint n)).

(** [f"{n:0{padding}d}"] *)
Definition zero_padded (padding : nat) (n : N) : pystr :=
  let d := decimal n in
  List.repeat 48 (padding - length d)%nat ++ d.

Section Book.
Variable raises : operation -> bool.
Variable BeautifulSoup : pystr -> option node.
Variable fs : filesystem.
Variables base_dir output_dir book_name base_code : pystr.
Variable padding : nat.

(** Lines 152-154. *)
Definition chapter_filepath (chapter_num : N) : pystr :=
  path_join base_dir (base_code ++ zero_padded padding chapter_num ++ u ".htm").

(** Line 147. *)
Definition book_dir_path : pystr := path_join output_dir book_name.

(** Line 174. *)
Definition output_json_path (chapter_num : N) : pystr :=
  path_join book_dir_path (decimal chapter_num ++ u ".json").

(** Lines 174-184: writing one chapter; the new count and the events. *)
Definition save_chapter (chapter_num : N) (verses_dict : gmap Z pystr)
           (chapters_processed_for_book : nat) : nat * list event :=
  match json_dump fs (output_json_path chapter_num) verses_dict with
  | Written => (S chapters_processed_for_book,
                [WroteJson (output_json_path chapter_num) verses_dict])
  | WriteIOError => (chapters_processed_for_book,
                     [ErrorWritingJson (output_json_path chapter_num)])
  | WriteFails => (chapters_processed_for_book,
                   [UnexpectedErrorWritingJson chapter_num book_name])
  end.

(** Lines 151-192: the [while True] loop over the chapters of one book, from
    [chapter_num] on.  [fuel] bounds the number of iterations; the result is
    [None] when it runs out, and otherwise the chapters saved and the events
    in order.  [os.makedirs] is called for the first chapter to save only;
    its [OSError] is caught at line 166, any other exception it raises at
    line 190. *)
Fixpoint chapter_loop (fuel : nat) (chapter_num : N)
         (chapters_processed_for_book : nat) (trace : list event)
  : option (nat * list event) :=
  match fuel with
  | O => None
  | S fuel' =>
      match open_read fs (chapter_filepath chapter_num) with
      | FileNotFound => Some (chapters_processed_for_book, trace)
      | ReadFails =>
          Some (chapters_processed_for_book,
                trace ++ [ErrorProcessingChapterFile (chapter_filepath chapter_num)])
      | Contents file_content =>
          match extract_verses_from_html raises BeautifulSoup file_content with
          | None => chapter_loop fuel' (chapter_num + 1) chapters_processed_for_book trace
          | Some verses_dict =>
              if bool_decide (verses_dict = ∅)
              then chapter_loop fuel' (chapter_num + 1) chapters_processed_for_book trace
              else
                match (if bool_decide (chapters_processed_for_book = O)
                       then makedirs fs book_dir_path else Made) with
                | MakedirsOSError =>
                    Some (chapters_processed_for_book,
                          trace ++ [ErrorCreatingBookDirectory book_dir_path])
                | MakedirsFails =>
                    Some (chapters_processed_for_book,
                          trace ++ [ErrorProcessingChapterFile
                                      (chapter_filepath chapter_num)])
                | Made =>
                    let made :=
                      if bool_decide (chapters_processed_for_book = O)
                      then [MadeDir book_dir_path] else [] in
                    let '(count, written) :=
                      save_chapter chapter_num verses_dict chapters_processed_for_book in
                    chapter_loop fuel' (chapter_num + 1) count (trace ++ made ++ written)
                end
          end
      end
  end.

(** Lines 149-151: a book starts at [start_chapter] with nothing saved. *)
Definition process_book (fuel : nat) (start_chapter : N) : option (nat * list event) :=
  chapter_loop fuel start_chapter O [].
End Book.

End Walker.
Import Walker.

(** ** Sample documents *)

Module Samples.

Definition text (s : string) : node := NavigableString KString (u s).
Definition tag (name : string) (class : list string) (cs : list node) : node :=
  Tag (u name) [(u "class", AList (List.map u class))] cs.
Definition document (cs : list node) : node := Tag (u "[document]") [] cs.
Definition verse (label : string) : node := tag "span" ["verse"%string] [text label].

(** [<div class="main"><span class="verse">1</span>In the  beginning
    <span class="verse">2</span>The earth<div class="footnote">note</div></div>] *)
Definition chapter1 : node :=
  document [tag "div" ["main"%string]
              [verse "1"; text "In the  beginning "; verse "2"; text "The earth";
               tag "div" ["footnote"%string] [text "note"]]].




Definition dq (s : pystr) : pystr := [quot] ++ s ++ [quot].

(** [<div class="main"><span class="verse">1</span>He said
    <span class="wj">Follow me</span></div>] *)
Definition red_letter : node :=
  document [tag "div" ["main"%string]
              [verse "1"; text "He said "; tag "span" ["wj"%string] [text "Follow me"]]].

(** The markup [<span class="wj">Follow me</span>]. *)
Definition red_letter_markup : pystr :=
  u "<span class=" ++ dq (u "wj") ++ u ">Follow me</span>".

(** [<div class="main"><span class="verse">1</span>
    <span class="wj">Follow <b>me</b></span></div>] *)
Definition red_letter_bold : node :=
  document [tag "div" ["main"%string]
              [verse "1";
               tag "span" ["wj"%string] [text "Follow "; Tag (u "b") [] [text "me"]]]].

(** [<div class="main"><span class="verse">1</span>
    <span class="wj">Word<div class="footnote">NOTE</div></span></div>] *)
Definition footnote_in_wrapper : node :=
  document [tag "div" ["main"%string]
              [verse "1";
               tag "span" ["wj"%string]
                   [text "Word"; tag "div" ["footnote"%string] [text "NOTE"]]]].

Definition link (href label : string) : node :=
  Tag (u "a") [(u "href", AStr (u href))] [text label].

(** [<div class="main"><span class="verse">1</span>See <a href="#n">note</a>here</div>] *)
Definition link_in_main : node :=
  document [tag "div" ["main"%string]
              [verse "1"; text "See "; link "#n" "note"; text "here"]].

(** [<div class="main"><span class="verse">1</span>text</div><a href="x.htm">next chapter</a>] *)
Definition link_after_main : node :=
  document [tag "div" ["main"%string] [verse "1"; text "text"];
            link "x.htm" "next chapter"].

(** A chapter in the shape of the corpus: verse labels that end on a
    non-breaking space, a note mark that is a link, line breaks between the
    paragraphs, and the footnote and copyright divs at the end of the main
    div. *)
Definition web_style : node :=
  document
    [Tag (u "html") []
       [Tag (u "body") []
          [tag "div" ["main"%string]
             [tag "div" ["p"%string]
                [Tag (u "span") [(u "class", AList [u "verse"]); (u "id", AStr (u "V1"))]
                     [NavigableString KString (u "1" ++ [160])];
                 text "In the beginning, God";
                 Tag (u "a") [(u "href", AStr (u "#FN1")); (u "class", AList [u "notemark"])]
                     [text "*"];
                 text " created the heavens and the earth. ";
                 Tag (u "span") [(u "class", AList [u "verse"]); (u "id", AStr (u "V2"))]
                     [NavigableString KString (u "2" ++ [160])];
                 NavigableString KString (u "The earth was formless" ++ [10] ++ u "and empty.")];
              NavigableString KString [10];
              tag "div" ["footnote"%string] [text "1:1 The Hebrew word rendered God is Elohim."];
              tag "div" ["copyright"%string] [text "World English Bible"]]]]].

(** The elements the walk of the only marker of [red_letter] goes over, and
    the wrapper among them. *)
Definition red_letter_walk : list element :=
  match marker_walks red_letter with
  | (_, vis) :: _ => vis
  | [] => []
  end.

Definition red_letter_wrapper : element :=
  Element [0%nat; 2%nat]
          (tag "span" ["wj"%string] [text "Follow me"])
          [tag "div" ["main"%string]
               [verse "1"; text "He said "; tag "span" ["wj"%string] [text "Follow me"]];
           red_letter].


(** The depth to which [Tag.__eq__] calls itself when it compares [a] with
    [b]: one call as soon as one of the two is a tag, and one more for the
    deepest pair of children it compares, which it does up to the first
    pair that is not equal. *)
Fixpoint eq_depth (a b : node) {struct a} : nat :=
  match a, b with
  | NavigableString _ _, NavigableString _ _ => O
  | Tag n at1 cs, Tag n' at2 cs' =>
      if str_eqb n n' && attrs_eqb at1 at2 && bool_decide (length cs = length cs')
      then S ((fix deepest (xs ys : list node) {struct xs} : nat :=
                 match xs, ys with
                 | x :: xs', y :: ys' =>
                     Nat.max (eq_depth x y) (if node_eqb x y then deepest xs' ys' else O)
                 | _, _ => O
                 end) cs cs')
      else 1%nat
  | _, _ => 1%nat
  end.

(** The interpreter of the samples: [str(tag)] does not call itself (bs4
    4.12.1 and later) and never raises; an element equals itself at once, and
    a comparison of two elements raises when it calls itself more than 500
    deep, which is where an interpreter with a recursion limit of 1000 stops
    a comparison that takes two frames for every level.  The samples hold
    comparisons of depth 3 at most, and of depth 600. *)
Definition too_deep (op : operation) : bool :=
  match op with
  | Compare a b =>
      negb (bool_decide (path a = path b)) && (500 <? eq_depth (el a) (el b))%nat
  | Render _ => false
  end.

(** [depth] tags [<b>], one inside the other, around a text. *)
Definition nested (depth : nat) (s : string) : node :=
  Nat.iter depth (fun n => Tag (u "b") [] [n]) (text s).

(** A chapter with two equal footnote divs of deep content, one before its
    only verse and one after it:
    [<div class="main"><div class="footnote"><b><b>...note...</b></b></div>
    <span class="verse">1</span>a<div class="footnote"><b><b>...note...</b></b></div></div>] *)
Definition deep_footnotes : node :=
  document [tag "div" ["main"%string]
              [tag "div" ["footnote"%string] [nested 600 "note"];
               verse "1"; text "a";
               tag "div" ["footnote"%string] [nested 600 "note"]]].

(** The text of a chapter file, with the attribute values unquoted:
    [<div class=main><span class=verse>1</span>In the  beginning
    <span class=verse>2</span>The earth<div class=footnote>note</div></div>] *)
Definition chapter1_html : pystr :=
  u "<div class=main><span class=verse>1</span>In the  beginning <span class=verse>2</span>The earth<div class=footnote>note</div></div>".

(** The parser on the one text used below; any other text is read as an empty
    document. *)
Definition parse_chapter1 (html : pystr) : option node :=
  if str_eqb html chapter1_html then Some chapter1 else Some (document []).

(** A book of three chapter files, the second of which cannot be read. *)
Definition three_chapters : filesystem :=
  {| open_read := fun file =>
       if str_eqb file (u "WEBBible/GEN01.htm") then Contents chapter1_html
       else if str_eqb file (u "WEBBible/GEN02.htm") then ReadFails
       else if str_eqb file (u "WEBBible/GEN03.htm") then Contents chapter1_html
       else FileNotFound;
     makedirs := fun _ => Made;
     json_dump := fun _ _ => Written |}.

End Samples.


(** ** The index and the books of [process_and_save_books] *)

Module Index.

(** One character of [[A-Z1-9]] under [re.IGNORECASE]: the digits 1 to 9, the
    52 ASCII letters, and the four letters that fold to one of them. *)
Definition code_char (c : N) : bool :=
  ((49 <=? c) && (c <=? 57)) || ((65 <=? c) && (c <=? 90)) || ((97 <=? c) && (c <=? 122))
  || (c =? 304) || (c =? 305) || (c =? 383) || (c =? 8490).

(** One character of [\d]: a decimal digit of any script. *)
Definition is_decimal (c : N) : bool :=
  match todecimal c with
  | Some _ => true
  | None => false
  end.

(** [\.htm$] under [re.IGNORECASE]: the rest of the string is [.htm], in any
    case, and then the end or one last newline. *)
Definition htm_end (s : pystr) : bool :=
  match s with
  | [dot; h; t; m] =>
      (dot =? 46) && ((h =? 104) || (h =? 72)) && ((t =? 116) || (t =? 84))
      && ((m =? 109) || (m =? 77))
  | [dot; h; t; m; nl] =>
      (dot =? 46) && ((h =? 104) || (h =? 72)) && ((t =? 116) || (t =? 84))
      && ((m =? 109) || (m =? 77)) && (nl =? 10)
  | _ => false
  end.

Section Plus.
Context {R : Type} (class : N -> bool) (rest_of_pattern : pystr -> pystr -> option R).

(** A greedy [X+] in front of the rest of a pattern: one character of the
    class, then as many more as the rest of the pattern allows, the longest
    run first.  [group] is what the group has taken so far. *)
Fixpoint plus (group : pystr) (s : pystr) : option R :=
  match s with
  | c :: s' =>
      if class c then
        match plus (group ++ [c]) s' with
        | Some r => Some r
        | None => rest_of_pattern (group ++ [c]) s'
        end
      else None
  | [] => None
  end.
End Plus.

(** [(\d+)\.htm$] after a first group [group1]. *)
Definition after_group1 (group1 after1 : pystr) : option (pystr * pystr) :=
  plus is_decimal
       (fun group2 after2 => if htm_end after2 then Some (group1, group2) else None)
       [] after1.

(** Line 138: [re.match(r"([A-Z1-9]+)(\d+)\.htm$", href, re.IGNORECASE)] and
    its two groups. *)
Definition match_href (href : pystr) : option (pystr * pystr) :=
  plus code_char after_group1 [] href.

(** [c.upper()] for a character of the class [[A-Z1-9]] under
    [re.IGNORECASE], the only characters group 1 holds. *)
Definition upper_char (c : N) : N :=
  if (97 <=? c) && (c <=? 122) then c - 32
  else if c =? 305 then 73
  else if c =? 383 then 83
  else c.

Definition upper (s : pystr) : pystr := List.map upper_char s.

(** [link_class and ('oo' in link_class or 'nn' in link_class)] *)
Definition oo_or_nn (link_class : option attrval) : bool :=
  match link_class with
  | None => false
  | Some (AList l) => negb (bool_decide (l = [])) && (mem (u "oo") l || mem (u "nn") l)
  | Some (AStr s) => negb (bool_decide (s = [])) && (contains (u "oo") s || contains (u "nn") s)
  end.

(** What lines 131-144 make of one link of the book list: nothing (the link
    is passed over), an exception out of the loop, or a book. *)
Inductive link_reading :=
| NotABook
| Raises
| Book (book_name base_code : pystr) (padding : nat) (start_chapter : N).

(** Lines 131-144.  [re.match] on a value that is not a string raises
    [TypeError], and [int] on more digits than its limit raises [ValueError];
    neither is caught before line 199. *)
Definition read_link (link : node) : link_reading :=
  if oo_or_nn (get (u "class") link) then
    let book_name := get_text_strip link in
    match get (u "href") link with
    | None => NotABook
    | Some (AList l) =>
        if bool_decide (book_name = []) || bool_decide (l = []) then NotABook else Raises
    | Some (AStr href) =>
        if bool_decide (book_name = []) || bool_decide (href = []) then NotABook
        else match match_href href with
             | None => NotABook
             | Some (group1, group2) =>
                 match int group2 with
                 | None => Raises
                 | Some start_chapter =>
                     Book book_name (upper group1) (length group2) (Z.to_N start_chapter)
                 end
             end
    end
  else NotABook.

(** Why a run returns [False]. *)
Inductive failure :=
| IndexFileNotFound
| BaseOutputDirectoryError
| BookListNotFound
| IndexProcessingError.

(** What a run gives: [False], or [True] with the two counts of the last
    message, or an exception that leaves the function; each with the events
    up to then. *)
Inductive run_result :=
| RunFailed (why : failure) (trace : list event)
| RunFinished (processed_books_count total_chapters_saved : nat) (trace : list event)
| RunRaised (trace : list event).

(** [tag.find_all('a')]: the descendant tags of that name, in document order. *)
Definition find_all_links (container : node) : list node :=
  List.filter (has_name (u "a")) (tail (subnodes container)).

(** Line 146. *)
Definition processing_book_message (book_name : pystr) : pystr :=
  u "Processing Book: " ++ book_name.

(** Line 197. *)
Definition finished_book_message (book_name : pystr) (chapters_processed_for_book : nat)
  : pystr :=
  u "Finished processing " ++ book_name ++ u ", saved "
    ++ decimal (N.of_nat chapters_processed_for_book) ++ u " chapters.".

Section Run.
Variable raises : operation -> bool.
Variable BeautifulSoup : pystr -> option node.
Variable fs : filesystem.
Variable path_exists : pystr -> bool.
(** [print(message)] on the standard output returns ([true]) or raises, as it
    does with [UnicodeEncodeError] for a book name that the encoding of the
    output cannot write.  The messages of lines 119, 128 and 203 are made of
    the two directory names, which the program sets to [WEBBible] and
    [WEBBibleJSON], and of numbers; they are taken to be written, and so is
    every message sent to [sys.stderr], whose error handler is
    [backslashreplace]. *)
Variable stdout : pystr -> bool.
Variables base_dir output_dir : pystr.

(** Lines 130-197: the loop over the links.  Every book is given [fuel]
    iterations of its chapter loop; [None] when one of them runs out.  The
    two messages about a book are printed inside the [try] of line 117 only:
    when one of them raises, the run ends at line 199. *)
Fixpoint book_loop (fuel : nat) (book_links : list node)
         (processed_books_count total_chapters_saved : nat) (trace : list event)
  : option run_result :=
  match book_links with
  | [] => Some (RunFinished processed_books_count total_chapters_saved trace)
  | link :: book_links' =>
      match read_link link with
      | NotABook =>
          book_loop fuel book_links' processed_books_count total_chapters_saved trace
      | Raises => Some (RunFailed IndexProcessingError trace)
      | Book book_name base_code padding start_chapter =>
          if negb (stdout (processing_book_message book_name))
          then Some (RunFailed IndexProcessingError trace)
          else
            match chapter_loop raises BeautifulSoup fs base_dir output_dir book_name
                               base_code padding fuel start_chapter O trace with
            | None => None
            | Some (chapters_processed_for_book, trace') =>
                if bool_decide (0 < chapters_processed_for_book)%nat
                then
                  if negb (stdout (finished_book_message book_name
                                                         chapters_processed_for_book))
                  then Some (RunFailed IndexProcessingError trace')
                  else book_loop fuel book_links' (S processed_books_count)
                                 (total_chapters_saved + chapters_processed_for_book)
                                 trace'
                else book_loop fuel book_links' processed_books_count
                               total_chapters_saved trace'
            end
      end
  end.

(** Lines 97-204.  An [OSError] of [os.makedirs] is caught at line 110; any
    other exception it raises leaves the function. *)
Definition process_and_save_books (fuel : nat) : option run_result :=
  let index_file_path := path_join base_dir (u "index.htm") in
  if negb (path_exists index_file_path) then Some (RunFailed IndexFileNotFound [])
  else
    match makedirs fs output_dir with
    | MakedirsOSError => Some (RunFailed BaseOutputDirectoryError [])
    | MakedirsFails => Some (RunRaised [])
    | Made =>
        match open_read fs index_file_path with
        | Contents index_html =>
            match BeautifulSoup index_html with
            | None => Some (RunFailed IndexProcessingError [MadeDir output_dir])
            | Some index_soup =>
                match find (matches (u "div") (u "bookList")) index_soup with
                | None => Some (RunFailed BookListNotFound [MadeDir output_dir])
                | Some book_list_container =>
                    book_loop fuel (find_all_links (el book_list_container)) O O
                              [MadeDir output_dir]
                end
            end
        | FileNotFound | ReadFails =>
            Some (RunFailed IndexProcessingError [MadeDir output_dir])
        end
    end.
End Run.

(** *** Words used to state what the loops do *)

(** The ASCII digit that [int] reads a decimal digit of any script as. *)
Definition ascii_digit (c : N) : N :=
  match todecimal c with
  | Some d => 48 + d
  | None => c
  end.

(** Every decimal digit: the ten characters from each zero on. *)
Definition decimal_characters : list N :=
  flat_map (fun z => List.map (N.add z) [0; 1; 2; 3; 4; 5; 6; 7; 8; 9]) decimal_zeros.

(** The files written among some events. *)
Definition written (events : list event) : list (pystr * gmap Z pystr) :=
  flat_map (fun e => match e with WroteJson f d => [(f, d)] | _ => [] end) events.

(** The chapter file of that number can be opened and read. *)
Definition readable (fs : filesystem) (base_dir base_code : pystr) (padding : nat)
           (chapter_num : N) : Prop :=
  ∃ file_content,
    open_read fs (chapter_filepath base_dir base_code padding chapter_num)
    = Contents file_content.

(** The chapter loop that starts at chapter [c] reaches a chapter (it and
    every chapter from [c] up to it can be read) whose text gives the verses
    [d], and writes them to [f]. *)
Definition saved_from (raises : operation -> bool)
           (BeautifulSoup : pystr -> option node) (fs : filesystem)
           (base_dir output_dir book_name base_code : pystr) (padding : nat)
           (c : N) (f : pystr) (d : gmap Z pystr) : Prop :=
  ∃ n file_content,
    c <= n
    ∧ (∀ m, c <= m <= n -> readable fs base_dir base_code padding m)
    ∧ open_read fs (chapter_filepath base_dir base_code padding n) = Contents file_content
    ∧ extract_verses_from_html raises BeautifulSoup file_content = Some d
    ∧ f = output_json_path output_dir book_name n
    ∧ json_dump fs f d = Written.

(** Every JSON file written comes after the making of the directory [dir]. *)
Definition dir_before_json (dir : pystr) (events : list event) : Prop :=
  ∀ before f d after, events = before ++ WroteJson f d :: after -> MadeDir dir ∈ before.

(** What the pattern of line 138 asks of [href] and its two groups: [href]
    is group 1, group 2 and the ending; group 1 is made of characters of its
    class and group 2 of digits, neither empty; and group 1 is as long as it
    can be (it leaves group 2 more than its last digit only where the next
    character cannot be its own). *)
Definition href_groups (href group1 group2 : pystr) : Prop :=
  ∃ ending,
    href = group1 ++ group2 ++ ending ∧ htm_end ending = true
    ∧ group1 ≠ [] ∧ forallb code_char group1 = true
    ∧ group2 ≠ [] ∧ forallb is_decimal group2 = true
    ∧ (∀ c rest, group2 = c :: rest -> rest = [] ∨ code_char c = false).

(** The decimal numeral that a string of ASCII digits spells. *)
Fixpoint uint_of_digits (s : pystr) : Decimal.uint :=
  match s with
  | [] => Decimal.Nil
  | c :: s' =>
      let d := uint_of_digits s' in
      if c =? 48 then Decimal.D0 d else if c =? 49 then Decimal.D1 d
      else if c =? 50 then Decimal.D2 d else if c =? 51 then Decimal.D3 d
      else if c =? 52 then Decimal.D4 d else if c =? 53 then Decimal.D5 d
      else if c =? 54 then Decimal.D6 d else if c =? 55 then Decimal.D7 d
      else if c =? 56 then Decimal.D8 d else Decimal.D9 d
  end.

(** A string of digits without its leading zeros. *)
Fixpoint without_leading_zeros (s : pystr) : pystr :=
  match s with
  | c :: s' => if c =? 48 then without_leading_zeros s' else s
  | [] => []
  end.

(** The element [e] is the element [z] or lies inside it. *)
Definition inside (z e : element) : bool :=
  bool_decide (path z `prefix_of` path e).

(** The attribute keys of every tag of a tree are distinct, as the keys of a
    dictionary are. *)
Fixpoint distinct_keys (n : node) : bool :=
  match n with
  | NavigableString _ _ => true
  | Tag _ attrs cs =>
      bool_decide (NoDup (List.map fst attrs)) && forallb distinct_keys cs
  end.

End Index.
Import Index.

(** ** More samples: books, an index, and elements of the sample chapter *)

Module MoreSamples.
Import Samples.

Definition verses1 : gmap Z pystr :=
  <[2%Z := u "The earth"]> (<[1%Z := u "In the beginning"]> ∅).

(** A book of two chapter files, [GEN01.htm] and [GEN02.htm]. *)
Definition two_chapters : filesystem :=
  {| open_read := fun file =>
       if str_eqb file (u "WEBBible/GEN01.htm") then Contents chapter1_html
       else if str_eqb file (u "WEBBible/GEN02.htm") then Contents chapter1_html
       else FileNotFound;
     makedirs := fun _ => Made;
     json_dump := fun _ _ => Written |}.

(** The same book where no directory can be made. *)
Definition no_directory : filesystem :=
  {| open_read := open_read two_chapters;
     makedirs := fun _ => MakedirsOSError;
     json_dump := fun _ _ => Written |}.

(** A book whose only chapter file holds no verse. *)
Definition no_verses : filesystem :=
  {| open_read := fun file =>
       if str_eqb file (u "WEBBible/GEN01.htm") then Contents (u "<p>nothing</p>")
       else FileNotFound;
     makedirs := fun _ => Made;
     json_dump := fun _ _ => Written |}.

(** What the chapter loop does with the book of [three_chapters]. *)
Definition three_chapters_events : list event :=
  [MadeDir (u "WEBBibleJSON/Genesis");
   WroteJson (u "WEBBibleJSON/Genesis/1.json") verses1;
   ErrorProcessingChapterFile (u "WEBBible/GEN02.htm")].

(** [<a class="oo" href="GEN01.htm">Genesis</a>] *)
Definition genesis_link : node :=
  Tag (u "a") [(u "class", AList [u "oo"]); (u "href", AStr (u "GEN01.htm"))]
      [text "Genesis"].

(** [<div class="bookList"><a class="oo" href="GEN01.htm">Genesis</a></div>] *)
Definition index_html : pystr :=
  u "<div class=bookList><a class=oo href=GEN01.htm>Genesis</a></div>".

Definition index_soup : node :=
  document [tag "div" ["bookList"%string] [genesis_link]].

Definition book_list : element :=
  Element [0%nat] (tag "div" ["bookList"%string] [genesis_link]) [index_soup].

(** The parser on the two texts of the sample site. *)
Definition parse_site (html : pystr) : option node :=
  if str_eqb html index_html then Some index_soup
  else if str_eqb html chapter1_html then Some chapter1
  else Some (document []).

(** A site: the index and the two chapters of Genesis. *)
Definition site : filesystem :=
  {| open_read := fun file =>
       if str_eqb file (u "WEBBible/index.htm") then Contents index_html
       else open_read two_chapters file;
     makedirs := fun _ => Made;
     json_dump := fun _ _ => Written |}.

Definition site_exists (file : pystr) : bool := str_eqb file (u "WEBBible/index.htm").

Definition site_events : list event :=
  [MadeDir (u "WEBBibleJSON");
   MadeDir (u "WEBBibleJSON/Genesis");
   WroteJson (u "WEBBibleJSON/Genesis/1.json") verses1;
   WroteJson (u "WEBBibleJSON/Genesis/2.json") verses1].

(** The main div of the sample chapter as [soup.find] returns it, its first
    verse tag with the elements after it, its second one, the first element
    the walk of the first goes over, and its footnote div. *)
Definition chapter1_main : element :=
  match main_content chapter1 with
  | Some mc => mc
  | None => Element [] chapter1 []
  end.

Definition chapter1_tag (i : nat) : element * list element :=
  match verse_tags chapter1 chapter1_main !! i with
  | Some t => t
  | None => (chapter1_main, [])
  end.

Definition chapter1_walk : list element :=
  match marker_walks chapter1 with
  | (_, vis) :: _ => vis
  | [] => []
  end.

Definition chapter1_first_visited : element :=
  match chapter1_walk with
  | e :: _ => e
  | [] => chapter1_main
  end.

Definition chapter1_footnote : element :=
  match List.filter (in_main chapter1_main (u "div") (u "footnote"))
                    (document_order chapter1 chapter1_main) with
  | z :: _ => z
  | [] => chapter1_main
  end.

(** A chapter with a verse marker inside its footnote div:
    [<div class="main"><span class="verse">1</span>In the beginning
    <div class="footnote"><span class="verse">2</span>a note</div></div>] *)
Definition marked_note : node :=
  document
    [tag "div" ["main"%string]
         [verse "1"; text "In the beginning";
          tag "div" ["footnote"%string] [verse "2"; text "a note"]]].

Definition marked_note_main : element :=
  match main_content marked_note with
  | Some mc => mc
  | None => Element [] marked_note []
  end.

Definition marked_note_tag (i : nat) : element * list element :=
  match verse_tags marked_note marked_note_main !! i with
  | Some t => t
  | None => (marked_note_main, [])
  end.

Definition marked_note_footnote : element :=
  match List.filter (in_main marked_note_main (u "div") (u "footnote"))
                    (document_order marked_note marked_note_main) with
  | z :: _ => z
  | [] => marked_note_main
  end.

(** A link whose target has 4301 digits:
    [<a class="oo" href="EXO00...0.htm">Exodus</a>] *)
Definition endless_link : node :=
  Tag (u "a")
      [(u "class", AList [u "oo"]);
       (u "href", AStr (u "EXO" ++ repeat 48 4301 ++ u ".htm"))]
      [text "Exodus"].

(** A link without a class: [<a href="GEN01.htm">Genesis</a>] *)
Definition plain_link : node :=
  Tag (u "a") [(u "href", AStr (u "GEN01.htm"))] [text "Genesis"].

(** An index is its list of links, in a div of class [bookList]. *)
Definition index_of (links : list node) : node :=
  document [tag "div" ["bookList"%string] links].

Definition book_list_of (links : list node) : element :=
  Element [0%nat] (tag "div" ["bookList"%string] links) [index_of links].

(** The standard output of a terminal whose encoding is ASCII: a message is
    written when every character of it is an ASCII character. *)
Definition ascii_terminal (message : pystr) : bool :=
  forallb (fun c => c <? 128) message.

(** A link to a book whose name is not ASCII:
    [<a class="oo" href="GEN01.htm">Génesis</a>] *)
Definition genesis_link_es : node :=
  Tag (u "a") [(u "class", AList [u "oo"]); (u "href", AStr (u "GEN01.htm"))]
      [NavigableString KString (u "G" ++ [233] ++ u "nesis")].

(** The parser of the sample site when its index holds [links]. *)
Definition parse_with (links : list node) (html : pystr) : option node :=
  if str_eqb html index_html then Some (index_of links)
  else if str_eqb html chapter1_html then Some chapter1
  else Some (document []).

End MoreSamples.

(** * Properties *)

(** ** Samples of the model *)

Example int_samples :
  List.map int [u "12"; u "+5"; u "-3"; u "0"; u "1_0"; u "_1"; u "1__0";
                []; u "+"; u "1 2"; u "0x10"; u "007"; u "1_"; [65297; 1634]]
  = [Some 12; Some 5; Some (-3); Some 0; Some 10; None; None;
     None; None; None; None; Some 7; None; Some 12]%Z.
Proof. vm_compute. reflexivity. Qed.

Example split_samples :
  split (u " In  the" ++ [160; 9] ++ u "beginning ") = [u "In"; u "the"; u "beginning"].
Proof. vm_compute. reflexivity. Qed.

Example chapter1_verses :
  extract_from_soup Samples.too_deep Samples.chapter1
  = Some (<[2%Z := u "The earth"]> (<[1%Z := u "In the beginning"]> ∅)).
Proof. vm_compute. reflexivity. Qed.

Example web_style_verses :
  extract_from_soup Samples.too_deep Samples.web_style
  = Some (<[2%Z := u "The earth was formless and empty."]>
            (<[1%Z := u "In the beginning, God created the heavens and the earth."]> ∅)).
Proof. vm_compute. reflexivity. Qed.

(** ** Whitespace: [strip], [split], [join] *)

Section Whitespace.

Lemma push_word_words w ws : solid w -> Forall word ws -> Forall word (push_word w ws).
Proof.
  intros Hw Hws. destruct w as [|c w]; simpl; [done|].
  constructor; [split; [done | exact Hw] | exact Hws].
Qed.

Lemma split_from_words s :
  solid (fst (split_from s)) ∧ Forall word (snd (split_from s)).
Proof.
  induction s as [|c s [IHw IHws]]; simpl.
  - split; constructor.
  - destruct (split_from s) as [w ws]; simpl in *.
    destruct (isspace c) eqn:Hc; simpl.
    + split; [constructor | by apply push_word_words].
    + split; [by constructor | done].
Qed.

Lemma split_words s : Forall word (split s).
Proof.
  unfold split. pose proof (split_from_words s) as [Hw Hws].
  destruct (split_from s) as [w ws]. by apply push_word_words.
Qed.

Lemma split_from_blank t : blank t -> split_from t = ([], []).
Proof.
  induction 1 as [|c t Hc _ IH]; simpl; [done|]. by rewrite IH, Hc.
Qed.

Lemma split_from_app_blank s t : blank t -> split_from (s ++ t) = split_from s.
Proof.
  intros Ht. induction s as [|c s IH]; simpl.
  - by apply split_from_blank.
  - by rewrite IH.
Qed.

Lemma split_blank_app t s : blank t -> split (t ++ s) = split s.
Proof.
  induction 1 as [|c t Hc _ IH]; simpl; [done|].
  unfold split in *. simpl. rewrite Hc.
  destruct (split_from (t ++ s)) as [w ws]. simpl. exact IH.
Qed.

Lemma lstrip_decompose s : ∃ t, blank t ∧ s = t ++ lstrip s.
Proof.
  induction s as [|c s (t & Ht & Hs)]; simpl.
  - exists []. split; [constructor | done].
  - destruct (isspace c) eqn:Hc.
    + exists (c :: t). split; [by constructor | simpl; by f_equal].
    + exists []. split; [constructor | done].
Qed.

Lemma rstrip_decompose s : ∃ t, blank t ∧ s = rstrip s ++ t.
Proof.
  destruct (lstrip_decompose (rev s)) as (t & Ht & Hs).
  exists (rev t). split.
  - by apply List.Forall_rev.
  - unfold rstrip. rewrite <- rev_app_distr, <- Hs. by rewrite rev_involutive.
Qed.

Lemma split_lstrip s : split (lstrip s) = split s.
Proof.
  destruct (lstrip_decompose s) as (t & Ht & Hs).
  rewrite Hs at 2. by rewrite split_blank_app.
Qed.

Lemma split_rstrip s : split (rstrip s) = split s.
Proof.
  destruct (rstrip_decompose s) as (t & Ht & Hs).
  unfold split. rewrite Hs at 2. by rewrite split_from_app_blank.
Qed.

Lemma split_strip s : split (strip s) = split s.
Proof. unfold strip. by rewrite split_rstrip, split_lstrip. Qed.

Lemma isspace_160 : isspace 160 = true.
Proof. reflexivity. Qed.

Lemma split_from_replace_nbsp s :
  split_from (replace_char 160 32 s) = split_from s.
Proof.
  induction s as [|c s IH]; simpl; [done|]. rewrite IH.
  destruct (N.eqb_spec c 160) as [->|Hne]; [reflexivity|done].
Qed.

Lemma split_replace_nbsp s : split (replace_char 160 32 s) = split s.
Proof. unfold split. by rewrite split_from_replace_nbsp. Qed.

(** Lines 83-85 amount to [' '.join(raw.split())]. *)
Lemma normalize_join_split parts :
  normalize parts = join (u " ") (split (concat parts)).
Proof. unfold normalize. by rewrite split_replace_nbsp, split_strip. Qed.

Lemma single_spaced_solid p w r :
  solid w -> single_spaced p (w ++ r) = single_spaced (match w with [] => p | _ => false end) r.
Proof.
  intros Hw. revert p. induction Hw as [|c w Hc _ IH]; intros p; simpl; [done|].
  rewrite Hc, IH. by destruct w.
Qed.

Lemma join_single_spaced ws :
  ws ≠ [] -> Forall word ws -> single_spaced true (join (u " ") ws) = true.
Proof.
  intros Hne Hws. induction Hws as [|w ws [Hw Hs] Hws IH]; [done|].
  destruct ws as [|w' ws].
  - simpl. rewrite <- (app_nil_r w), single_spaced_solid by done.
    by destruct w.
  - change (join (u " ") (w :: w' :: ws))
      with (w ++ u " " ++ join (u " ") (w' :: ws)).
    rewrite single_spaced_solid by done. destruct w; [done|].
    simpl. apply IH. done.
Qed.

Lemma single_spaced_tail p d t :
  single_spaced p (d :: t) = true -> single_spaced (isspace d) t = true.
Proof.
  simpl. destruct (isspace d); [|done]. rewrite !andb_true_iff. tauto.
Qed.

Lemma single_spaced_head t c :
  single_spaced true t = true -> head t = Some c -> isspace c = false.
Proof.
  destruct t as [|d t]; simpl; [done|]. intros H [= ->].
  destruct (isspace c); [|done].
  rewrite andb_false_r in H. done.
Qed.

Lemma single_spaced_last p t c :
  single_spaced p t = true -> last t = Some c -> isspace c = false.
Proof.
  revert p. induction t as [|d t IH]; intros p H Hl; [done|].
  destruct t as [|d' t].
  - simpl in Hl. injection Hl as ->. simpl in H.
    destruct (isspace c); [|done]. rewrite andb_false_r in H. done.
  - change (last (d :: d' :: t)) with (last (d' :: t)) in Hl.
    apply single_spaced_tail in H. by eapply IH.
Qed.

Lemma single_spaced_only_spaces p t c :
  single_spaced p t = true -> c ∈ t -> isspace c = true -> c = 32.
Proof.
  revert p. induction t as [|d t IH]; intros p H Hin Hc.
  - by apply elem_of_nil in Hin.
  - apply elem_of_cons in Hin as [->|Hin].
    + simpl in H. rewrite Hc in H. rewrite !andb_true_iff in H.
      destruct H as [[H _] _]. by apply N.eqb_eq in H.
    + apply single_spaced_tail in H. by eapply IH.
Qed.

Lemma single_spaced_no_run p t a b c d :
  single_spaced p t = true -> t = a ++ [c; d] ++ b ->
  isspace c = true -> isspace d = true -> False.
Proof.
  revert p t. induction a as [|x a IH]; intros p t H -> Hc Hd.
  - apply single_spaced_tail in H. rewrite Hc in H. simpl in H.
    rewrite Hd in H. rewrite !andb_true_iff in H. destruct H as [[_ H] _]. done.
  - apply single_spaced_tail in H. by eapply IH.
Qed.

Lemma head_rev (t : pystr) : head (rev t) = last t.
Proof.
  induction t as [|x t _] using rev_ind; [done|].
  by rewrite rev_app_distr, last_snoc.
Qed.

Lemma lstrip_solid_head t :
  (∀ c, head t = Some c -> isspace c = false) -> lstrip t = t.
Proof.
  destruct t as [|c t]; simpl; [done|]. intros H. by rewrite (H c).
Qed.

Lemma strip_single_spaced t : single_spaced true t = true -> strip t = t.
Proof.
  intros H. unfold strip, rstrip.
  rewrite (lstrip_solid_head t) by (intros c; by apply single_spaced_head).
  rewrite lstrip_solid_head; [by rewrite rev_involutive|].
  intros c Hc. apply (single_spaced_last true t c H).
  by rewrite <- head_rev.
Qed.

Lemma join_nil_iff ws : Forall word ws -> join (u " ") ws = [] -> ws = [].
Proof.
  intros Hws. destruct Hws as [|w ws [Hw _] _]; [done|].
  destruct ws; simpl; [done|]. destruct w; done.
Qed.

Lemma strip_normalize parts : strip (normalize parts) = normalize parts.
Proof.
  rewrite normalize_join_split.
  destruct (split (concat parts)) as [|w ws] eqn:E; [reflexivity|].
  apply strip_single_spaced, join_single_spaced; [done|].
  rewrite <- E. apply split_words.
Qed.

Lemma split_from_solid_app w r :
  solid w ->
  split_from (w ++ r) = (w ++ fst (split_from r), snd (split_from r)).
Proof.
  induction 1 as [|c w Hc _ IH]; simpl.
  - by destruct (split_from r).
  - rewrite IH, Hc. done.
Qed.

Lemma split_from_cons_space c s :
  isspace c = true -> split_from (c :: s) = ([], split s).
Proof. intros Hc. unfold split. simpl. rewrite Hc. by destruct (split_from s). Qed.

Lemma join_cons_cons sep w w' ws :
  join sep (w :: w' :: ws) = w ++ sep ++ join sep (w' :: ws).
Proof. reflexivity. Qed.

(** Splitting what was joined gives the words back. *)
Lemma split_join ws : Forall word ws -> split (join (u " ") ws) = ws.
Proof.
  induction 1 as [|w ws [Hw Hs] Hws IH]; [done|].
  destruct ws as [|w' ws].
  - change (join (u " ") [w]) with w. unfold split.
    rewrite <- (List.app_nil_r w) at 1.
    rewrite split_from_solid_app by done. cbn [split_from fst snd].
    rewrite (List.app_nil_r w). by destruct w.
  - rewrite join_cons_cons. unfold split.
    rewrite split_from_solid_app by done.
    change (u " " ++ join (u " ") (w' :: ws)) with (32 :: join (u " ") (w' :: ws)).
    rewrite split_from_cons_space by reflexivity. cbn [fst snd].
    rewrite IH, (List.app_nil_r w). by destruct w.
Qed.

End Whitespace.

(** ** The loop over the verse tags *)

Section Loop.

Lemma process_outcomes fd cd tags d :
  process fd cd tags d = fold_left step (outcomes fd cd tags) d.
Proof.
  revert d. induction tags as [|[v chain] tags IH]; intros d; [done|].
  cbn [process outcomes fold_left]. unfold step at 2. cbn [fst snd].
  destruct (int (get_text_strip (el v))); apply IH.
Qed.

Lemma step_lookup d m k :
  step d m !! k = if recordable k m then Some (normalize (snd m)) else d !! k.
Proof.
  unfold step, recordable, record.
  destruct (int (fst m)) as [n|]; [|by rewrite bool_decide_eq_false_2].
  destruct (decide (normalize (snd m) = [])) as [He|He].
  - rewrite (bool_decide_eq_true_2 _ He). simpl. by rewrite andb_false_r.
  - rewrite (bool_decide_eq_false_2 _ He). simpl. rewrite andb_true_r.
    rewrite strip_normalize.
    destruct (decide (n = k)) as [->|Hn].
    + rewrite bool_decide_eq_true_2 by done. apply lookup_insert_eq.
    + rewrite bool_decide_eq_false_2 by congruence. by apply lookup_insert_ne.
Qed.

Lemma last_recorded_cons k m ms :
  last_recorded k (m :: ms)
  = match last_recorded k ms with
    | Some t => Some t
    | None => if recordable k m then Some (normalize (snd m)) else None
    end.
Proof.
  unfold last_recorded. cbn [List.filter].
  destruct (recordable k m); [|by destruct (last (List.filter (recordable k) ms))].
  destruct (List.filter (recordable k) ms) as [|x l]; [done|].
  change (last (m :: x :: l)) with (last (x :: l)).
  destruct (last (x :: l)) eqn:E; [done|].
  by apply last_None in E.
Qed.

Lemma fold_step_lookup ms d k :
  fold_left step ms d !! k
  = match last_recorded k ms with Some t => Some t | None => d !! k end.
Proof.
  revert d. induction ms as [|m ms IH]; intros d; [done|].
  cbn [fold_left]. rewrite IH, last_recorded_cons, step_lookup.
  destruct (last_recorded k ms); [done|]. by destruct (recordable k m).
Qed.

Lemma last_recorded_Some k ms t :
  last_recorded k ms = Some t ->
  ∃ m, m ∈ ms ∧ int (fst m) = Some k ∧ normalize (snd m) = t ∧ t ≠ [].
Proof.
  induction ms as [|m ms IH]; [done|]. rewrite last_recorded_cons.
  destruct (last_recorded k ms) as [t'|].
  - intros [= ->]. destruct IH as (m' & Hin & H); [done|].
    exists m'. split; [by apply list_elem_of_further | done].
  - destruct (recordable k m) eqn:Hr; [|done]. intros [= <-].
    unfold recordable in Hr. apply andb_true_iff in Hr as [H1 H2].
    apply bool_decide_eq_true in H1. apply negb_true_iff in H2.
    apply bool_decide_eq_false in H2.
    exists m. split; [apply list_elem_of_here | done].
Qed.

Lemma last_recorded_None k ms :
  last_recorded k ms = None ↔
  ∀ m, m ∈ ms -> int (fst m) = Some k -> normalize (snd m) = [].
Proof.
  induction ms as [|m ms IH].
  - split; [|done]. intros _ m Hm. by apply elem_of_nil in Hm.
  - rewrite last_recorded_cons. split.
    + destruct (last_recorded k ms); [done|].
      destruct (recordable k m) eqn:Hr; [done|]. intros _ m' Hin Hk.
      apply elem_of_cons in Hin as [->|Hin].
      * unfold recordable in Hr. rewrite (bool_decide_eq_true_2 _ Hk) in Hr.
        simpl in Hr. apply negb_false_iff in Hr. by apply bool_decide_eq_true in Hr.
      * apply IH; done.
    + intros H.
      assert (last_recorded k ms = None) as ->.
      { apply IH. intros m' Hin. apply H. by apply list_elem_of_further. }
      destruct (recordable k m) eqn:Hr; [|done].
      unfold recordable in Hr. apply andb_true_iff in Hr as [H1 H2].
      apply bool_decide_eq_true in H1. apply negb_true_iff in H2.
      apply bool_decide_eq_false in H2.
      destruct H2. apply H; [apply list_elem_of_here | done].
Qed.

(** The function without exceptions in one line: the loop over the markers,
    and [None] for an empty result. *)
Lemma unless_raised_markers soup :
  extract_unless_raised soup
  = if bool_decide (fold_left step (markers soup) ∅ = ∅) then None
    else Some (fold_left step (markers soup) ∅).
Proof.
  unfold extract_unless_raised, markers.
  destruct (main_content soup) as [mc|]; [|done].
  rewrite <- process_outcomes. by destruct (verse_tags soup mc).
Qed.

Lemma unless_raised_lookup soup d k :
  extract_unless_raised soup = Some d -> d !! k = last_recorded k (markers soup).
Proof.
  rewrite unless_raised_markers. case_bool_decide; [done|]. intros [= <-].
  rewrite fold_step_lookup, lookup_empty. by destruct (last_recorded _ _).
Qed.

Lemma unless_raised_None soup :
  extract_unless_raised soup = None ↔ ∀ k, last_recorded k (markers soup) = None.
Proof.
  rewrite unless_raised_markers. case_bool_decide as Hd; split; try done.
  - intros _ k. apply (f_equal (fun d => d !! k)) in Hd.
    rewrite fold_step_lookup, lookup_empty in Hd.
    by destruct (last_recorded _ _).
  - intros H. destruct Hd. apply map_empty. intros k.
    by rewrite fold_step_lookup, H, lookup_empty.
Qed.

Lemma unless_raised_nonempty soup d : extract_unless_raised soup = Some d -> d ≠ ∅.
Proof.
  rewrite unless_raised_markers. case_bool_decide; [done|]. by intros [= <-].
Qed.

End Loop.


(** ** What is returned is what the loops compute

    A comparison that returns, returns [node_eqb], and a [str(tag)] that
    returns, returns [decode]: when the body returns, it returns what the
    loops compute when nothing is raised. *)

Section Returned.
Variable raises : operation -> bool.

Lemma parent_elements_el p ups : List.map el (parent_elements p ups) = ups.
Proof.
  revert p. induction ups as [|n ups IH]; intros p; [done|].
  cbn [parent_elements List.map el]. by rewrite IH.
Qed.

Lemma equals_returned a b r :
  equals raises a b = Returned r -> r = node_eqb (el a) (el b).
Proof. unfold equals. destruct (raises (Compare a b)); [done|]. by intros [= <-]. Qed.

Lemma collect_returned e parts :
  collect raises e = Returned parts -> parts = contribution e.
Proof.
  unfold collect, contribution. destruct (el e) as [k s|name attrs cs].
  - by intros [= <-].
  - destruct (is_wj _); [|by intros [= <-]].
    destruct (raises (Render e)); [done|]. by intros [= <-].
Qed.

Lemma is_that_returned x e r :
  is_that raises x e = Returned r -> r = eq_some (el <$> x) (el e).
Proof.
  destruct x as [t|]; simpl; [apply equals_returned | by intros [= <-]].
Qed.

Lemma or_else_returned a b r :
  or_else a b = Returned r ->
  ∃ ra, a = Returned ra ∧ (if ra then r = true else b = Returned r).
Proof.
  destruct a as [|[|]]; simpl; [done | |].
  - intros [= <-]. by exists true.
  - intros H. by exists false.
Qed.

Lemma some_parent_is_returned x ups r :
  some_parent_is raises x ups = Returned r ->
  r = existsb (eq_some (Some (el x))) (List.map el ups).
Proof.
  revert r. induction ups as [|parent ups IH]; intros r; simpl.
  - by intros [= <-].
  - intros H. apply or_else_returned in H as (ra & Ha & H).
    apply equals_returned in Ha. rewrite <- Ha.
    destruct ra; [done|]. by apply IH.
Qed.

Lemma existsb_eq_none (ups : list node) : existsb (eq_some None) ups = false.
Proof. by induction ups. Qed.

Lemma in_excluded_section_returned fd cd e r :
  in_excluded_section raises fd cd e = Returned r ->
  r = is_in_excluded_section (el <$> fd) (el <$> cd) e.
Proof.
  unfold in_excluded_section, is_in_excluded_section. intros H.
  apply or_else_returned in H as (ra & Ha & H).
  assert (ra = existsb (eq_some (el <$> fd)) (parents e)) as <-.
  { destruct fd as [f|]; simpl in *.
    - apply some_parent_is_returned in Ha. by rewrite parent_elements_el in Ha.
    - injection Ha as <-. by rewrite existsb_eq_none. }
  destruct ra; [done|]. simpl.
  destruct cd as [c|]; simpl in *.
  - apply some_parent_is_returned in H. by rewrite parent_elements_el in H.
  - injection H as <-. by rewrite existsb_eq_none.
Qed.

Lemma breaks_at_returned next fd cd e r :
  breaks_at raises next fd cd e = Returned r ->
  r = breaks (el <$> next) (el <$> fd) (el <$> cd) e.
Proof.
  unfold breaks_at, breaks. intros H.
  apply or_else_returned in H as (r1 & H1 & H).
  apply is_that_returned in H1. rewrite <- H1.
  destruct r1; [done|]. simpl.
  apply or_else_returned in H as (r2 & H2 & H).
  apply or_else_returned in H2 as (r3 & H3 & H2).
  apply is_that_returned in H3. rewrite <- H3.
  destruct r3.
  - subst r2. by subst r.
  - apply is_that_returned in H2. rewrite <- H2. simpl.
    destruct r2; [done|]. simpl.
    by apply in_excluded_section_returned.
Qed.

Lemma while_loop_returned next fd cd chain : ∀ content_parts,
  while_loop raises next fd cd chain = Returned content_parts ->
  content_parts = walk (el <$> next) (el <$> fd) (el <$> cd) chain.
Proof.
  induction chain as [|current chain IH]; intros parts; simpl.
  - by intros [= <-].
  - destruct (breaks_at raises next fd cd current) as [|b] eqn:Hb; [done|].
    apply breaks_at_returned in Hb. rewrite <- Hb.
    destruct b.
    + by intros [= <-].
    + destruct (collect raises current) as [|here] eqn:Hc; [done|].
      apply collect_returned in Hc. simpl.
      destruct (while_loop raises next fd cd chain) as [|parts']; [done|].
      simpl. intros [= <-]. by rewrite Hc, (IH parts').
Qed.

Lemma for_loop_returned fd cd tags : ∀ d d',
  for_loop raises fd cd tags d = Returned d' ->
  d' = process (el <$> fd) (el <$> cd) tags d.
Proof.
  induction tags as [|[v chain] tags IH]; intros d d'; simpl.
  - by intros [= <-].
  - destruct (int (get_text_strip (el v))) as [n|]; [|apply IH].
    destruct (while_loop raises (fst <$> head tags) fd cd chain) as [|parts] eqn:Hw;
      [done|].
    apply while_loop_returned in Hw. simpl. intros H. apply IH in H.
    rewrite H, Hw. by destruct tags.
Qed.

(** What the body returns. *)
Lemma try_body_returned soup r :
  try_body raises soup = Returned r -> r = extract_unless_raised soup.
Proof.
  unfold try_body, extract_unless_raised.
  destruct (main_content soup) as [mc|]; [|by intros [= <-]].
  destruct (verse_tags soup mc) as [|t tags] eqn:Et; [by intros [= <-]|].
  destruct (for_loop raises _ _ (t :: tags) ∅) as [|d] eqn:Hd; [done|].
  apply for_loop_returned in Hd. simpl. intros [= <-]. by rewrite Hd.
Qed.

Lemma extract_returned soup d :
  extract_from_soup raises soup = Some d -> extract_unless_raised soup = Some d.
Proof.
  unfold extract_from_soup. destruct (try_body raises soup) as [|r] eqn:E; [done|].
  apply try_body_returned in E. by intros ->.
Qed.

(** What a returned mapping holds under a key. *)
Lemma extract_lookup soup d k :
  extract_from_soup raises soup = Some d -> d !! k = last_recorded k (markers soup).
Proof. intros H. by apply unless_raised_lookup, extract_returned. Qed.

Lemma extract_nonempty soup d : extract_from_soup raises soup = Some d -> d ≠ ∅.
Proof. intros H. by apply (unless_raised_nonempty soup), extract_returned. Qed.

(** On a text that parses, the function is its body on the parsed document. *)
Lemma extract_verses_from_html_parsed BeautifulSoup html_content soup :
  BeautifulSoup html_content = Some soup ->
  extract_verses_from_html raises BeautifulSoup html_content
  = extract_from_soup raises soup.
Proof. unfold extract_verses_from_html. by intros ->. Qed.

End Returned.

(** ** The tree: elements, paths, link removal *)

Section Tree.

Lemma in_children_from {A} (f : nat -> node -> list A) i cs (x : A) :
  In x (children_from f i cs) ↔ ∃ j c, cs !! j = Some c ∧ In x (f (i + j)%nat c).
Proof.
  revert i. induction cs as [|c cs IH]; intros i; simpl.
  - split; [done | by intros (j & c & ? & _)].
  - rewrite in_app_iff, IH. split.
    + intros [H|(j & c' & Hj & H)].
      * exists O, c. by rewrite Nat.add_0_r.
      * exists (S j), c'. split; [done|]. by rewrite Nat.add_succ_r.
    + intros ([|j] & c' & Hj & H).
      * left. injection Hj as <-. by rewrite Nat.add_0_r in H.
      * right. exists j, c'. split; [done|]. by rewrite Nat.add_succ_r in H.
Qed.

(** The nodes of the elements of a tree are its subnodes. *)
Lemma in_elements_subnodes n :
  ∀ p ups e, In e (elements p ups n) -> In (el e) (subnodes n).
Proof.
  induction n as [k s|name attrs cs IH] using node_induction; intros p ups e.
  - simpl. intros [<-|[]]. by left.
  - cbn [elements subnodes]. intros [<-|H]; [by left|]. right.
    apply in_children_from in H as (j & c & Hj & H).
    apply in_flat_map. exists c. split.
    + apply list_elem_of_In. by eapply list_elem_of_lookup_2.
    + rewrite Forall_forall in IH. eapply IH; [|exact H].
      by eapply list_elem_of_lookup_2.
Qed.

Lemma subnodes_trans z :
  ∀ x y, In x (subnodes y) -> In y (subnodes z) -> In x (subnodes z).
Proof.
  induction z as [k s|name attrs cs IH] using node_induction; intros x y Hx.
  - simpl. intros [<-|[]]. exact Hx.
  - cbn [subnodes]. intros [<-|H]; [exact Hx|]. right.
    apply in_flat_map in H as (c & Hc & H). apply in_flat_map.
    exists c. split; [done|]. rewrite Forall_forall in IH.
    eapply IH; [by apply list_elem_of_In | exact Hx | exact H].
Qed.

(** The path of an element of the subtree at [p] starts with [p]. *)
Lemma elements_path_prefix n :
  ∀ p ups e, In e (elements p ups n) -> p `prefix_of` path e.
Proof.
  induction n as [k s|name attrs cs IH] using node_induction; intros p ups e.
  - simpl. by intros [<-|[]].
  - cbn [elements]. intros [<-|H]; [done|].
    apply in_children_from in H as (j & c & Hj & H).
    rewrite Forall_forall in IH.
    apply IH in H; [|by eapply list_elem_of_lookup_2].
    etrans; [|exact H]. by apply prefix_app_r.
Qed.

Lemma in_map_kept drop f cs c :
  In c (map_kept drop f cs) ↔ ∃ c0, In c0 cs ∧ drop c0 = false ∧ c = f c0.
Proof.
  induction cs as [|c1 cs IH]; simpl.
  - split; [done | by intros (? & [] & _)].
  - destruct (drop c1) eqn:Hd; simpl; rewrite IH; split.
    + intros (c0 & ? & ?). exists c0. tauto.
    + intros (c0 & [->|?] & Hc & ?); [congruence|]. by exists c0.
    + intros [<-|(c0 & ? & ?)]; [by exists c1; auto|]. exists c0. tauto.
    + intros (c0 & [->|?] & Hc & ?); [by left|]. right. by exists c0.
Qed.

Lemma has_name_decompose_links name n :
  has_name name (decompose_links n) = has_name name n.
Proof. by destruct n. Qed.

(** Nothing below a tree whose links were decomposed is a link. *)
Lemma decompose_links_no_link n :
  ∀ c x, In c (contents_of (decompose_links n)) -> In x (subnodes c) ->
         has_name (u "a") x = false.
Proof.
  induction n as [k s|name attrs cs IH] using node_induction; intros c x.
  - simpl. done.
  - cbn [decompose_links contents_of]. intros Hc Hx.
    apply in_map_kept in Hc as (c0 & Hc0 & Hname & ->).
    rewrite Forall_forall in IH.
    assert (In x (decompose_links c0 :: flat_map subnodes (contents_of (decompose_links c0))))
      as [<-|H] by (by destruct c0).
    + by rewrite has_name_decompose_links.
    + apply in_flat_map in H as (c' & Hc' & H).
      eapply (IH c0); [by apply list_elem_of_In | exact Hc' | exact H].
Qed.

(** An element below the place of an update lies below the new subtree. *)
Lemma elements_update_below f q :
  ∀ n p ups e,
    In e (elements p ups (update_at q f n)) ->
    below (p ++ q) (path e) = true ->
    ∃ m c, In c (contents_of (f m)) ∧ In (el e) (subnodes c).
Proof.
  induction q as [|i q IH]; intros n p ups e He Hb;
    apply bool_decide_eq_true in Hb as [Hpre Hne].
  - rewrite List.app_nil_r in *. cbn [update_at] in He. exists n.
    destruct (f n) as [k s|name attrs cs]; cbn [elements] in He.
    + destruct He as [<-|[]]. done.
    + destruct He as [<-|He]; [done|].
      apply in_children_from in He as (j & c & Hj & He).
      exists c. split.
      * apply list_elem_of_In. by eapply list_elem_of_lookup_2.
      * by eapply in_elements_subnodes.
  - destruct n as [k s|name attrs cs]; cbn [update_at elements] in He.
    + destruct He as [<-|[]]. simpl in Hpre.
      apply prefix_length in Hpre. rewrite length_app in Hpre. simpl in Hpre. lia.
    + destruct He as [<-|He].
      * simpl in Hpre. apply prefix_length in Hpre.
        rewrite length_app in Hpre. simpl in Hpre. lia.
      * apply in_children_from in He as (j & c & Hj & He).
        pose proof (elements_path_prefix _ _ _ _ He) as Hj'.
        assert (j = i) as ->.
        { destruct Hpre as [r1 Hr1]. destruct Hj' as [r2 Hr2].
          rewrite Hr1 in Hr2. rewrite <- !app_assoc in Hr2.
          apply app_inv_head in Hr2. simpl in Hr2. congruence. }
        rewrite list_lookup_alter_eq in Hj.
        destruct (cs !! i) as [c0|]; [|done]. injection Hj as <-.
        apply (IH c0 (p ++ [i]) _ e He).
        apply bool_decide_eq_true. rewrite <- app_assoc. done.
Qed.

(** After lines 33-34, no element below [main_content] is a link, and
    neither is anything inside such an element. *)
Lemma no_link_below_main soup mc e x :
  In e (document_order soup mc) -> below (path mc) (path e) = true ->
  In x (subnodes (el e)) -> has_name (u "a") x = false.
Proof.
  intros He Hb Hx.
  destruct (elements_update_below decompose_links (path mc) soup [] [] e He Hb)
    as (m & c & Hc & Hin).
  eapply decompose_links_no_link; [exact Hc|]. by eapply subnodes_trans.
Qed.

Lemma in_find_all p order v chain :
  In (v, chain) (find_all p order) -> ∃ pre, order = pre ++ v :: chain.
Proof.
  induction order as [|e order IH]; simpl; [done|].
  destruct (p e); simpl.
  - intros [[= <- <-]|H]; [by exists []|].
    destruct (IH H) as [pre ->]. by exists (e :: pre).
  - intros H. destruct (IH H) as [pre ->]. by exists (e :: pre).
Qed.

Lemma in_visited next fd cd chain e :
  In e (visited next fd cd chain) -> In e chain ∧ breaks next fd cd e = false.
Proof.
  induction chain as [|c chain IH]; simpl; [done|].
  destruct (breaks next fd cd c) eqn:Hb; [done|].
  intros [<-|H]; [by split; [left|] |]. destruct (IH H). split; [by right | done].
Qed.

Lemma in_walks fd cd tags lab vis :
  In (lab, vis) (walks fd cd tags) ->
  ∃ v chain next, In (v, chain) tags ∧ lab = get_text_strip (el v)
                  ∧ vis = visited next fd cd chain.
Proof.
  induction tags as [|[v chain] tags IH]; simpl; [done|].
  intros [[= <- <-]|H].
  - exists v, chain, ((el ∘ fst) <$> head tags). by split; [left|].
  - destruct (IH H) as (v' & chain' & next & ? & ? & ?).
    exists v', chain', next. by split; [right|].
Qed.

(** Every element a walk goes over is an element of the working tree, and
    the walk did not break at it. *)
Lemma marker_walks_in_order soup mc lab vis e :
  main_content soup = Some mc -> In (lab, vis) (marker_walks soup) -> In e vis ->
  In e (document_order soup mc).
Proof.
  unfold marker_walks. intros -> H He.
  apply in_walks in H as (v & chain & next & Hv & _ & ->).
  apply in_visited in He as [He _].
  apply in_find_all in Hv as [pre ->].
  apply in_app_iff. right. by right.
Qed.

(** The walk goes over no element that equals a zone, nor over one that has
    a parent equal to a zone. *)
Lemma visited_outside_zones next fd cd chain e z :
  In e (visited next fd cd chain) -> fd = Some z ∨ cd = Some z ->
  node_eqb (el e) z = false ∧ ∀ p, In p (parents e) -> node_eqb p z = false.
Proof.
  intros He Hz. apply in_visited in He as [_ Hb].
  unfold breaks, is_in_excluded_section in Hb.
  rewrite !orb_false_iff in Hb. destruct Hb as [[_ [H1 H2]] [H3 H4]].
  destruct Hz as [->| ->]; simpl in *.
  - split; [done|]. intros p Hp.
    destruct (node_eqb p z) eqn:E; [|done].
    assert (existsb (eq_some (Some z)) (parents e) = true) as Hx
      by (apply existsb_exists; by exists p).
    congruence.
  - split; [done|]. intros p Hp.
    destruct (node_eqb p z) eqn:E; [|done].
    assert (existsb (eq_some (Some z)) (parents e) = true) as Hx
      by (apply existsb_exists; by exists p).
    congruence.
Qed.

Lemma walk_visited next fd cd chain :
  walk next fd cd chain = flat_map contribution (visited next fd cd chain).
Proof.
  induction chain as [|c chain IH]; simpl; [done|].
  destruct (breaks next fd cd c); simpl; [done|]. by rewrite IH.
Qed.

Lemma outcomes_walks fd cd tags :
  outcomes fd cd tags
  = List.map (fun w => (fst w, flat_map contribution (snd w))) (walks fd cd tags).
Proof.
  induction tags as [|[v chain] tags IH]; simpl; [done|].
  by rewrite walk_visited, IH.
Qed.

Lemma markers_walks soup :
  markers soup
  = List.map (fun w => (fst w, flat_map contribution (snd w))) (marker_walks soup).
Proof.
  unfold markers, marker_walks. destruct (main_content soup); [|done].
  apply outcomes_walks.
Qed.

End Tree.


(** ** The content region, as a place in the tree *)

Section Region.

Lemma elements_el n : ∀ p ups, List.map el (elements p ups n) = subnodes n.
Proof.
  induction n as [k s|name attrs cs IH] using node_induction; intros p ups; [done|].
  cbn [elements subnodes List.map el]. f_equal.
  generalize (Tag name attrs cs :: ups). generalize O.
  induction IH as [|c cs Hc _ IHcs]; intros i ups'; [done|].
  cbn [children_from flat_map]. by rewrite List.map_app, Hc, IHcs.
Qed.

Lemma head_filter_app {A} (P : A -> bool) (a b : list A) :
  head (List.filter P (a ++ b))
  = match head (List.filter P a) with
    | Some x => Some x
    | None => head (List.filter P b)
    end.
Proof.
  induction a as [|x a IH]; [done|]. simpl. by destruct (P x).
Qed.

(** [find] gives the first descendant in document order. *)
Lemma first_path_find (p : node -> bool) n : ∀ p0 ups,
  path <$> head (List.filter (fun e => p (el e)) (tail (elements p0 ups n)))
  = app p0 <$> first_path p n.
Proof.
  induction n as [k s|name attrs cs IH] using node_induction; intros p0 ups; [done|].
  cbn [elements tail first_path].
  generalize (Tag name attrs cs :: ups). generalize O.
  induction IH as [|c cs Hc _ IHcs]; intros i ups'; [done|].
  cbn [children_from first_child]. rewrite head_filter_app.
  assert (elements (p0 ++ [i]) ups' c
          = Element (p0 ++ [i]) c ups' :: tail (elements (p0 ++ [i]) ups' c)) as ->
    by (by destruct c).
  cbn [List.filter el]. destruct (p c); [done|].
  specialize (Hc (p0 ++ [i]) ups').
  destruct (head (List.filter _ (tail _))) as [e|].
  - destruct (first_path p c) as [q|]; [|done]. simpl in *.
    injection Hc as ->. by rewrite <- app_assoc.
  - destruct (first_path p c) as [q|]; [done|]. apply IHcs.
Qed.

(** The node of an element is the node at its path. *)
Lemma elements_node_at n : ∀ p0 ups e,
  In e (elements p0 ups n) -> ∃ q, path e = p0 ++ q ∧ node_at q n = Some (el e).
Proof.
  induction n as [k s|name attrs cs IH] using node_induction; intros p0 ups e.
  - simpl. intros [<-|[]]. exists []. by rewrite List.app_nil_r.
  - cbn [elements]. intros [<-|H]; [exists []; by rewrite List.app_nil_r|].
    apply in_children_from in H as (j & c & Hj & H).
    rewrite Forall_forall in IH.
    apply IH in H as (q & Hq & Hn); [|by eapply list_elem_of_lookup_2].
    exists (j :: q). rewrite Hq, <- app_assoc. split; [done|].
    cbn [node_at]. by rewrite Hj.
Qed.

Lemma find_region (p : node -> bool) soup :
  match find p soup with
  | Some e => first_path p soup = Some (path e) ∧ node_at (path e) soup = Some (el e)
              ∧ In e (elements [] [] soup)
  | None => first_path p soup = None
  end.
Proof.
  pose proof (first_path_find p soup [] []) as H. unfold find, descendants.
  destruct (head (List.filter _ (tail (elements [] [] soup)))) as [e|] eqn:E.
  - apply head_Some_elem_of, list_elem_of_In, filter_In in E as [E _].
    assert (In e (elements [] [] soup)) as He by (destruct soup; by right).
    destruct (first_path p soup) as [q|]; [|done]. simpl in H. injection H as H.
    subst q. split; [done|]. split; [|done].
    destruct (elements_node_at _ _ _ _ He) as (q' & Hq & Hq').
    simpl in Hq. by rewrite Hq.
  - by destruct (first_path p soup).
Qed.

(** [main_content] is the content region. *)
Lemma main_content_region soup :
  match main_content soup with
  | Some mc => region_path soup = Some (path mc)
               ∧ node_at (path mc) soup = Some (el mc)
  | None => region_path soup = None
  end.
Proof.
  unfold main_content, region_path.
  pose proof (find_region (matches (u "div") (u "main")) soup) as H1.
  destruct (find (matches (u "div") (u "main")) soup) as [e|].
  - destruct H1 as (-> & H1 & _). done.
  - rewrite H1.
    pose proof (find_region (has_name (u "body")) soup) as H2.
    destruct (find (has_name (u "body")) soup) as [e|]; [|done].
    destruct H2 as (-> & H2 & _). done.
Qed.

Lemma map_kept_filter (drop : node -> bool) (f : node -> node) cs :
  (∀ c, drop (f c) = drop c) ->
  map_kept drop f cs = List.filter (fun c => negb (drop c)) (List.map f cs).
Proof.
  intros Hd. induction cs as [|c cs IH]; [done|].
  cbn [map_kept List.map List.filter]. rewrite Hd.
  destruct (drop c); simpl; by rewrite IH.
Qed.

Lemma has_name_without_links name n : has_name name (without_links n) = has_name name n.
Proof. by destruct n. Qed.

(** Decomposing the links of a tree leaves the tree without its links. *)
Lemma decompose_links_without_links n : decompose_links n = without_links n.
Proof.
  induction n as [k s|name attrs cs IH] using node_induction; [done|].
  cbn [decompose_links without_links]. f_equal.
  rewrite map_kept_filter by (intros c; by destruct c).
  induction IH as [|c cs Hc _ IHcs]; [done|].
  cbn [List.map List.filter]. by rewrite Hc, IHcs.
Qed.

Lemma update_at_ext (f g : node -> node) q :
  (∀ m, f m = g m) -> ∀ n, update_at q f n = update_at q g n.
Proof.
  intros Hfg. induction q as [|i q IH]; intros n; [apply Hfg|].
  destruct n as [k s|name attrs cs]; [done|]. cbn [update_at]. f_equal.
  apply list_alter_ext; [|done]. intros c _. apply IH.
Qed.

(** The tree that lines 33-34 leave is the document without the links of
    its content region. *)
Lemma working_tree_region soup mc :
  main_content soup = Some mc -> working_tree soup mc = without_region_links soup.
Proof.
  intros Hmc. pose proof (main_content_region soup) as H. rewrite Hmc in H.
  destruct H as [H _]. unfold working_tree, without_region_links. rewrite H.
  apply update_at_ext, decompose_links_without_links.
Qed.

(** The parents of an element of a tree are elements of the tree. *)
Lemma parent_elements_in n : ∀ p ups e,
  In e (elements p ups n) ->
  ∃ inner, parent_elements (path e) (parents e) = inner ++ parent_elements p ups
           ∧ ∀ a, In a inner -> In a (elements p ups n).
Proof.
  induction n as [k s|name attrs cs IH] using node_induction; intros p ups e.
  - simpl. intros [<-|[]]. by exists [].
  - cbn [elements]. intros [<-|H]; [by exists []|].
    apply in_children_from in H as (j & c & Hj & H).
    rewrite Forall_forall in IH.
    apply IH in H as (inner & -> & Hin); [|by eapply list_elem_of_lookup_2].
    exists (inner ++ [Element p (Tag name attrs cs) ups]). split.
    + rewrite <- app_assoc. f_equal. cbn [parent_elements app].
      by rewrite removelast_last.
    + intros a Ha. apply in_app_iff in Ha as [Ha|[<-|[]]]; [|by left].
      right. apply in_children_from. exists j, c. split; [done|]. by apply Hin.
Qed.

End Region.


(** ** When nothing raises *)

Section Quiet.
Variable raises : operation -> bool.
Variable order : list element.
Hypothesis quiet : ∀ a b, In a order -> In b order -> raises (Compare a b) = false.
Hypothesis renders : ∀ e, In e order -> raises (Render e) = false.
Hypothesis parents_in_order :
  ∀ e a, In e order -> In a (parent_elements (path e) (parents e)) -> In a order.

#[local] Abbreviation within x := (∀ t : element, x = Some t -> In t order).

Lemma equals_quiet a b :
  In a order -> In b order -> equals raises a b = Returned (node_eqb (el a) (el b)).
Proof. intros Ha Hb. unfold equals. by rewrite (quiet a b Ha Hb). Qed.

Lemma is_that_quiet x e :
  within x -> In e order -> is_that raises x e = Returned (eq_some (el <$> x) (el e)).
Proof.
  intros Hx He. destruct x as [t|]; [|done]. simpl.
  apply equals_quiet; [done|]. by apply Hx.
Qed.

Lemma some_parent_is_quiet x ups :
  In x order -> (∀ a, In a ups -> In a order) ->
  some_parent_is raises x ups
  = Returned (existsb (eq_some (Some (el x))) (List.map el ups)).
Proof.
  intros Hx. induction ups as [|parent ups IH]; intros Hups; [done|].
  cbn [some_parent_is List.map existsb].
  rewrite equals_quiet by (try done; apply Hups; by left).
  simpl. destruct (node_eqb (el parent) (el x)); [done|].
  apply IH. intros a Ha. apply Hups. by right.
Qed.

Lemma in_excluded_section_quiet fd cd e :
  within fd -> within cd -> In e order ->
  in_excluded_section raises fd cd e
  = Returned (is_in_excluded_section (el <$> fd) (el <$> cd) e).
Proof.
  intros Hfd Hcd He. unfold in_excluded_section, is_in_excluded_section.
  assert (∀ x, within x ->
               match x with
               | Some t => some_parent_is raises t (parent_elements (path e) (parents e))
               | None => Returned false
               end = Returned (existsb (eq_some (el <$> x)) (parents e))) as Hx.
  { intros [t|] Ht; simpl; [|by rewrite existsb_eq_none].
    rewrite some_parent_is_quiet, parent_elements_el; [done | by apply Ht |].
    intros a. by apply parents_in_order. }
  rewrite (Hx fd Hfd), (Hx cd Hcd). simpl.
  by destruct (existsb (eq_some (el <$> fd)) (parents e)).
Qed.

Lemma breaks_at_quiet next fd cd e :
  within next -> within fd -> within cd -> In e order ->
  breaks_at raises next fd cd e
  = Returned (breaks (el <$> next) (el <$> fd) (el <$> cd) e).
Proof.
  intros Hn Hfd Hcd He. unfold breaks_at, breaks.
  rewrite !is_that_quiet, in_excluded_section_quiet by done. simpl.
  destruct (eq_some (el <$> next) (el e)); [done|].
  destruct (eq_some (el <$> fd) (el e)); [done|].
  by destruct (eq_some (el <$> cd) (el e)).
Qed.

Lemma collect_quiet e : In e order -> collect raises e = Returned (contribution e).
Proof.
  intros He. unfold collect, contribution. destruct (el e) as [k s|name attrs cs]; [done|].
  destruct (is_wj _); [|done]. by rewrite (renders e He).
Qed.

Lemma while_loop_quiet next fd cd chain :
  within next -> within fd -> within cd -> (∀ e, In e chain -> In e order) ->
  while_loop raises next fd cd chain
  = Returned (walk (el <$> next) (el <$> fd) (el <$> cd) chain).
Proof.
  intros Hn Hfd Hcd. induction chain as [|current chain IH]; intros Hc; [done|].
  cbn [while_loop walk]. rewrite breaks_at_quiet by (try done; apply Hc; by left).
  destruct (breaks _ _ _ current); [done|].
  rewrite collect_quiet by (apply Hc; by left).
  rewrite IH by (intros e He; apply Hc; by right). done.
Qed.

Lemma for_loop_quiet fd cd tags :
  within fd -> within cd ->
  (∀ v chain, In (v, chain) tags -> In v order ∧ ∀ e, In e chain -> In e order) ->
  ∀ d, for_loop raises fd cd tags d
       = Returned (process (el <$> fd) (el <$> cd) tags d).
Proof.
  intros Hfd Hcd. induction tags as [|[v chain] tags IH]; intros Ht d; [done|].
  assert (∀ v' chain', In (v', chain') tags ->
                       In v' order ∧ ∀ e, In e chain' -> In e order) as Ht'
    by (intros v' chain' H; apply Ht; by right).
  cbn [for_loop process].
  destruct (int (get_text_strip (el v))) as [n|]; [|by apply IH].
  rewrite while_loop_quiet; try done.
  - simpl. rewrite IH by done. by destruct tags.
  - intros t Hhead. destruct tags as [|[v' chain'] tags]; [done|].
    injection Hhead as <-. by destruct (Ht' v' chain') as [H _]; [left|].
  - by destruct (Ht v chain) as [_ H]; [left|].
Qed.

End Quiet.

Lemma in_find_all_order p order v chain :
  In (v, chain) (find_all p order) -> In v order ∧ ∀ e, In e chain -> In e order.
Proof.
  intros H. apply in_find_all in H as [pre ->]. split.
  - apply in_app_iff. right. by left.
  - intros e He. apply in_app_iff. right. by right.
Qed.

(** When nothing raises, the body returns what the loops compute. *)
Lemma try_body_quiet raises soup :
  no_error raises soup -> try_body raises soup = Returned (extract_unless_raised soup).
Proof.
  intros Hq. unfold try_body, extract_unless_raised.
  destruct (main_content soup) as [mc|] eqn:Hmc; [|done].
  destruct (verse_tags soup mc) as [|t tags] eqn:Et; [done|].
  rewrite (for_loop_quiet raises (document_order soup mc)).
  - done.
  - intros a b Ha Hb. unfold document_order in Ha, Hb.
    rewrite (working_tree_region soup mc Hmc) in Ha, Hb.
    apply Hq; by apply list_elem_of_In.
  - intros e He. unfold document_order in He.
    rewrite (working_tree_region soup mc Hmc) in He.
    apply Hq. by apply list_elem_of_In.
  - intros e a He Ha.
    destruct (parent_elements_in _ _ _ _ He) as (inner & Hi & Hin).
    rewrite Hi, List.app_nil_r in Ha. by apply Hin.
  - intros z Hz. unfold zone_element in Hz.
    by apply head_Some_elem_of, list_elem_of_In, filter_In in Hz as [Hz _].
  - intros z Hz. unfold zone_element in Hz.
    by apply head_Some_elem_of, list_elem_of_In, filter_In in Hz as [Hz _].
  - intros v chain Hv. rewrite <- Et in Hv. by apply in_find_all_order in Hv.
Qed.





(** ** The markers, as places in the tree *)

Section Markers.

Lemma split_nil_blank s : split s = [] -> blank s.
Proof.
  unfold split. induction s as [|c s IH]; [constructor|]. simpl.
  destruct (split_from s) as [w ws]. destruct (isspace c) eqn:Hc; simpl; [|done].
  intros H. constructor; [done | by apply IH].
Qed.

(** The normalized text is empty exactly when the content holds nothing but
    whitespace. *)
Lemma normalize_nil_iff parts : normalize parts = [] ↔ blank (concat parts).
Proof.
  rewrite normalize_join_split. split.
  - intros H. apply split_nil_blank. apply join_nil_iff; [apply split_words | done].
  - intros H. unfold split. by rewrite (split_from_blank _ H).
Qed.

Lemma first_path_None (p : node -> bool) n :
  (∀ x, In x (tail (subnodes n)) -> p x = false) -> first_path p n = None.
Proof.
  induction n as [k s|name attrs cs IH] using node_induction; [done|].
  cbn [subnodes tail first_path]. generalize O.
  induction IH as [|c cs Hc _ IHcs]; intros i H; [done|].
  cbn [flat_map] in H. cbn [first_child].
  rewrite (H c) by (apply in_app_iff; left; destruct c; by left).
  rewrite Hc by (intros x Hx; apply H, in_app_iff; left; destruct c; by right).
  apply IHcs. intros x Hx. apply H, in_app_iff. by right.
Qed.

Lemma tail_elements_below n p ups e :
  In e (tail (elements p ups n)) -> below p (path e) = true.
Proof.
  destruct n as [k s|name attrs cs]; [done|]. cbn [elements tail]. intros H.
  apply in_children_from in H as (j & c & _ & H).
  apply elements_path_prefix in H. apply bool_decide_eq_true. split.
  - etrans; [|exact H]. by apply prefix_app_r.
  - intros ->. apply prefix_length in H. rewrite length_app in H. simpl in H. lia.
Qed.

Lemma below_refl p : below p p = false.
Proof. apply bool_decide_eq_false. by intros [_ H]. Qed.

Lemma filter_all {A} (P : A -> bool) (l : list A) :
  (∀ x, In x l -> P x = true) -> List.filter P l = l.
Proof.
  induction l as [|x l IH]; intros H; [done|]. simpl.
  rewrite (H x) by (by left). f_equal. apply IH. intros y Hy. apply H. by right.
Qed.

Lemma filter_none {A} (P : A -> bool) (l : list A) :
  (∀ x, In x l -> P x = false) -> List.filter P l = [].
Proof.
  induction l as [|x l IH]; intros H; [done|]. simpl.
  rewrite (H x) by (by left). apply IH. intros y Hy. apply H. by right.
Qed.

(** Two different children: what is below one is not below the other. *)
Lemma below_other_child p i j q e :
  i ≠ j -> (p ++ [j]) `prefix_of` path e -> below (p ++ i :: q) (path e) = false.
Proof.
  intros Hij [r1 Hr1]. apply bool_decide_eq_false. intros [[r2 Hr2] _].
  rewrite Hr1 in Hr2. rewrite <- !app_assoc in Hr2. apply app_inv_head in Hr2.
  simpl in Hr2. congruence.
Qed.

Lemma below_shorter p i q : below (p ++ i :: q) p = false.
Proof.
  apply bool_decide_eq_false. intros [H _]. apply prefix_length in H.
  rewrite length_app in H. simpl in H. lia.
Qed.

(** The elements below the place of an update are, in document order, the
    nodes below the new subtree. *)
Lemma below_update_subnodes (f : node -> node) q : ∀ n p ups r,
  node_at q n = Some r ->
  List.map el (List.filter (fun e => below (p ++ q) (path e))
                           (elements p ups (update_at q f n)))
  = tail (subnodes (f r)).
Proof.
  induction q as [|i q IH]; intros n p ups r Hr.
  - injection Hr as ->. rewrite List.app_nil_r. cbn [update_at].
    rewrite <- (elements_el (f r) p ups).
    assert (elements p ups (f r) = Element p (f r) ups :: tail (elements p ups (f r)))
      as -> by (by destruct (f r)).
    cbn [List.filter path tail List.map]. rewrite below_refl.
    rewrite filter_all; [done|]. intros e. apply tail_elements_below.
  - destruct n as [k s|name attrs cs]; [done|]. cbn [node_at] in Hr.
    destruct (cs !! i) as [c|] eqn:Hi; [|done].
    cbn [update_at elements List.filter path]. rewrite below_shorter.
    generalize (Tag name attrs (alter (update_at q f) i cs) :: ups). intros ups'.
    assert (∀ cs0 k i0,
               cs0 !! i0 = Some c ->
               List.map el
                 (List.filter (fun e => below (p ++ (k + i0)%nat :: q) (path e))
                    (children_from (fun j c0 => elements (p ++ [j]) ups' c0) k
                                   (alter (update_at q f) i0 cs0)))
               = tail (subnodes (f r))) as Hcs.
    { induction cs0 as [|c0 cs0 IHcs]; intros k i0 Hi0; [done|].
      destruct i0 as [|i0]; cbn [alter list_alter children_from].
      - injection Hi0 as ->. rewrite Nat.add_0_r, List.filter_app, List.map_app.
        rewrite (filter_none _ (children_from _ (S k) cs0)).
        + rewrite List.app_nil_r.
          replace (p ++ k :: q) with ((p ++ [k]) ++ q) by (by rewrite <- app_assoc).
          by apply IH.
        + intros e He. apply in_children_from in He as (j & c0 & _ & He).
          apply elements_path_prefix in He.
          apply (below_other_child p k (S k + j)); [lia | done].
      - rewrite List.filter_app, List.map_app.
        rewrite (filter_none _ (elements (p ++ [k]) ups' c0)).
        + cbn [app]. replace (k + S i0)%nat with (S k + i0)%nat by lia.
          by apply IHcs.
        + intros e He. apply elements_path_prefix in He.
          apply (below_other_child p (k + S i0) k); [lia | done]. }
    specialize (Hcs cs O i Hi). by rewrite Nat.add_0_l in Hcs.
Qed.

Lemma find_all_filter (p : element -> bool) order :
  List.map fst (find_all p order) = List.filter p order.
Proof.
  induction order as [|e order IH]; [done|]. simpl.
  destruct (p e); simpl; by rewrite IH.
Qed.

Lemma map_filter_el (p : node -> bool) (l : list element) :
  List.map el (List.filter (fun e => p (el e)) l) = List.filter p (List.map el l).
Proof.
  induction l as [|e l IH]; [done|]. simpl. destruct (p (el e)); simpl; by rewrite IH.
Qed.

Lemma filter_andb {A} (P Q : A -> bool) (l : list A) :
  List.filter (fun x => P x && Q x) l = List.filter Q (List.filter P l).
Proof.
  induction l as [|x l IH]; [done|]. simpl.
  destruct (P x); simpl; [destruct (Q x)|]; by rewrite IH.
Qed.

Lemma outcomes_labels fd cd tags :
  List.map fst (outcomes fd cd tags)
  = List.map (fun t => get_text_strip (el (fst t))) tags.
Proof.
  induction tags as [|[v chain] tags IH]; [done|]. simpl. by rewrite IH.
Qed.

(** The verse tags are the spans of class [verse] below the content region,
    its links removed, in document order. *)
Lemma verse_tags_region soup mc :
  main_content soup = Some mc ->
  List.map (fun t => el (fst t)) (verse_tags soup mc)
  = List.filter (matches (u "span") (u "verse"))
                (tail (subnodes (without_links (el mc)))).
Proof.
  intros Hmc. pose proof (main_content_region soup) as H. rewrite Hmc in H.
  destruct H as [_ Hat].
  unfold verse_tags. rewrite <- (List.map_map fst el), find_all_filter.
  unfold in_main. rewrite filter_andb, map_filter_el. f_equal.
  unfold document_order, working_tree.
  rewrite <- decompose_links_without_links.
  by rewrite <- (below_update_subnodes decompose_links (path mc) soup [] [] (el mc) Hat).
Qed.

(** The labels of the markers are the texts of those spans. *)
Lemma markers_region soup p region :
  region_path soup = Some p -> node_at p soup = Some region ->
  List.map fst (markers soup)
  = List.map get_text_strip
             (List.filter (matches (u "span") (u "verse"))
                          (tail (subnodes (without_links region)))).
Proof.
  intros Hp Hat. pose proof (main_content_region soup) as H. unfold markers.
  destruct (main_content soup) as [mc|] eqn:Hmc; [|congruence].
  destruct H as [H1 H2]. rewrite Hp in H1. injection H1 as ->.
  rewrite Hat in H2. injection H2 as ->.
  rewrite outcomes_labels, <- (verse_tags_region soup mc Hmc).
  by rewrite List.map_map.
Qed.

End Markers.


(** ** The claims about the returned mapping *)

Lemma last_recorded_app k a b :
  last_recorded k (a ++ b)
  = match last_recorded k b with Some t => Some t | None => last_recorded k a end.
Proof.
  induction a as [|m a IH]; simpl.
  - by destruct (last_recorded k b).
  - rewrite !last_recorded_cons, IH. by destruct (last_recorded k b).
Qed.

Lemma last_recorded_skip k ms :
  (∀ m, m ∈ ms -> int (fst m) ≠ Some k) -> last_recorded k ms = None.
Proof. intros H. apply last_recorded_None. intros m Hin Hk. by destruct (H m Hin). Qed.

Lemma last_recorded_one k lab parts :
  int lab = Some k ->
  last_recorded k [(lab, parts)]
  = if bool_decide (normalize parts = []) then None else Some (normalize parts).
Proof.
  intros Hk. unfold last_recorded, recordable. cbn [List.filter fst snd].
  rewrite (bool_decide_eq_true_2 _ Hk). by case_bool_decide.
Qed.




(** C5, as the code has it: what is raised in the body is caught and [None]
    is returned; [None] is returned exactly when parsing fails, or the
    document has neither a div of class main nor a body, or its content
    region, the links removed, holds no span of class verse, or the body
    raises, or no marker has both a label that [int] accepts and a content
    with a character that is not whitespace.  The markers are, by their
    labels, the spans of class verse of the content region in document order;
    on a document where no comparison and no [str] raises, the body raises
    nothing; and a mapping that is returned is not empty. *)
Theorem C5_none_in_four_cases_or_when_raised
        (raises : operation -> bool)
        (BeautifulSoup : pystr -> option node) (html_content : pystr) :
  (extract_verses_from_html raises BeautifulSoup html_content = None ↔
   BeautifulSoup html_content = None
   ∨ ∃ soup, BeautifulSoup html_content = Some soup
             ∧ ((∀ n, n ∈ tail (subnodes soup) ->
                      matches (u "div") (u "main") n = false
                      ∧ has_name (u "body") n = false)
                ∨ (∃ p region,
                      region_path soup = Some p ∧ node_at p soup = Some region
                      ∧ ∀ v, v ∈ tail (subnodes (without_links region)) ->
                             matches (u "span") (u "verse") v = false)
                ∨ try_body raises soup = Raised
                ∨ ∀ m, m ∈ markers soup ->
                       int (fst m) = None ∨ blank (concat (snd m))))
  ∧ (∀ soup p region,
        BeautifulSoup html_content = Some soup ->
        region_path soup = Some p -> node_at p soup = Some region ->
        List.map fst (markers soup)
        = List.map get_text_strip
                   (List.filter (matches (u "span") (u "verse"))
                                (tail (subnodes (without_links region)))))
  ∧ (∀ soup, BeautifulSoup html_content = Some soup ->
             no_error raises soup -> try_body raises soup ≠ Raised)
  ∧ (∀ d, extract_verses_from_html raises BeautifulSoup html_content = Some d ->
          d ≠ ∅).
Proof.
  unfold extract_verses_from_html. split; [split|split; [|split]].
  - destruct (BeautifulSoup html_content) as [soup|]; [|by left].
    intros E. right. exists soup. split; [done|]. right. right.
    unfold extract_from_soup in E.
    destruct (try_body raises soup) as [|r] eqn:Hb; [by left|]. right.
    apply try_body_returned in Hb. subst r.
    rewrite unless_raised_None in E. intros m Hin.
    destruct (int (fst m)) as [k|] eqn:Hk; [right | by left].
    specialize (E k). rewrite last_recorded_None in E.
    by apply normalize_nil_iff, E.
  - intros [->|(soup & -> & H)]; [done|].
    unfold extract_from_soup.
    destruct (try_body raises soup) as [|r] eqn:Hb; [done|].
    apply try_body_returned in Hb. subst r. apply unless_raised_None. intros k.
    destruct H as [H|[(p & region & Hp & Hat & H)|[H|H]]]; [| |done|].
    + pose proof (main_content_region soup) as Hr. unfold markers.
      destruct (main_content soup) as [mc|]; [|done]. destruct Hr as [Hr _].
      unfold region_path in Hr.
      rewrite !first_path_None in Hr; [done| |];
        intros x Hx; by apply list_elem_of_In, H in Hx as [? ?].
    + pose proof (markers_region soup p region Hp Hat) as Hm.
      rewrite filter_none in Hm
        by (intros v Hv; apply H; by apply list_elem_of_In).
      destruct (markers soup); [done | discriminate].
    + apply last_recorded_None. intros m Hin Hk.
      destruct (H m Hin) as [Hn|Hb']; [|by apply normalize_nil_iff].
      destruct m as [lab parts]. simpl in Hn, Hk. rewrite Hk in Hn. discriminate.
  - intros soup p region _. apply markers_region.
  - intros soup _ Hq. by rewrite try_body_quiet.
  - destruct (BeautifulSoup html_content) as [soup|]; [|done].
    apply extract_nonempty.
Qed.

(** C5 at a text that parses to a document with nothing in it, and at the
    text of the sample chapter. *)
Lemma C5_at_two_documents :
  extract_verses_from_html Samples.too_deep (fun _ => Some (Samples.document [])) []
  = None
  ∧ extract_verses_from_html Samples.too_deep Samples.parse_chapter1
                             Samples.chapter1_html
    = Some (<[2%Z := u "The earth"]> (<[1%Z := u "In the beginning"]> ∅))
  ∧ <[2%Z := u "The earth"]> (<[1%Z := u "In the beginning"]> ∅)
    ≠ (∅ : gmap Z pystr).
Proof.
  split; [|split].
  - apply (C5_none_in_four_cases_or_when_raised
             Samples.too_deep (fun _ => Some (Samples.document [])) []).
    right. exists (Samples.document []). split; [done|]. left.
    intros n Hn. by apply elem_of_nil in Hn.
  - vm_compute; reflexivity.
  - apply (C5_none_in_four_cases_or_when_raised
             Samples.too_deep Samples.parse_chapter1 Samples.chapter1_html).
    vm_compute; reflexivity.
Defined.

(** C5 as stated fails: the text parses, the document has a div of class
    main with a span of class verse in it, labelled 1 and followed by the
    text "a"; and [None] is returned, as the second footnote div, equal to the
    first down to six hundred tags, is compared with it. *)
Lemma C5_deep_footnotes_give_none :
  extract_verses_from_html Samples.too_deep (fun _ => Some Samples.deep_footnotes) []
  = None
  ∧ region_path Samples.deep_footnotes = Some [O]
  ∧ markers Samples.deep_footnotes = [(u "1", [u "a"])]
  ∧ int (u "1") = Some 1%Z
  ∧ normalize [u "a"] = u "a"
  ∧ try_body Samples.too_deep Samples.deep_footnotes = Raised.
Proof. vm_compute. done. Qed.










(** C6: every text of a returned mapping is [' '.join(raw.split())] for the
    content [raw] collected at a marker of that number: it has the words of
    [raw] in order, its only whitespace characters are ordinary spaces (so no
    non-breaking space, tab or newline is left), no two of them are adjacent,
    and it neither starts nor ends with one. *)
Theorem C6_verse_text_is_normalized
        (raises : operation -> bool)
        (soup : node) (d : gmap Z pystr) (k : Z) (t : pystr) :
  extract_from_soup raises soup = Some d -> d !! k = Some t ->
  ∃ m, m ∈ markers soup ∧ int (fst m) = Some k
       ∧ t = join (u " ") (split (concat (snd m)))
       ∧ split t = split (concat (snd m))
       ∧ (∀ c, c ∈ t -> isspace c = true -> c = 32)
       ∧ (∀ a b c c', t = a ++ [c; c'] ++ b -> isspace c = true -> isspace c' = false)
       ∧ (∀ c, head t = Some c -> isspace c = false)
       ∧ (∀ c, last t = Some c -> isspace c = false).
Proof.
  intros Hd Hk. rewrite (extract_lookup raises soup d k Hd) in Hk.
  apply last_recorded_Some in Hk as (m & Hin & Hm & Ht & Hne).
  exists m. split; [done|]. split; [done|].
  rewrite normalize_join_split in Ht.
  pose proof (split_words (concat (snd m))) as Hws.
  assert (single_spaced true t = true) as Hs.
  { rewrite <- Ht. apply join_single_spaced; [|done].
    intros E. rewrite E in Ht. by subst t. }
  split; [done|]. split; [by rewrite <- Ht, split_join|].
  split; [intros c; by apply (single_spaced_only_spaces true)|].
  split.
  - intros a b c c' E Hc. destruct (isspace c') eqn:Hc'; [|done].
    destruct (single_spaced_no_run true t a b c c' Hs E Hc Hc').
  - split; intros c.
    + by apply single_spaced_head.
    + by apply (single_spaced_last true).
Qed.

(** C6 at the sample chapter: verse 1, collected as "In the  beginning ", is
    "In the beginning". *)
Lemma C6_normalized_at_chapter1 :
  ∃ m, m ∈ markers Samples.chapter1 ∧ int (fst m) = Some 1%Z
       ∧ u "In the beginning" = join (u " ") (split (concat (snd m)))
       ∧ split (u "In the beginning") = split (concat (snd m))
       ∧ (∀ c, c ∈ u "In the beginning" -> isspace c = true -> c = 32)
       ∧ (∀ a b c c', u "In the beginning" = a ++ [c; c'] ++ b ->
                      isspace c = true -> isspace c' = false)
       ∧ (∀ c, head (u "In the beginning") = Some c -> isspace c = false)
       ∧ (∀ c, last (u "In the beginning") = Some c -> isspace c = false).
Proof.
  apply (C6_verse_text_is_normalized Samples.too_deep Samples.chapter1
           (<[2%Z := u "The earth"]> (<[1%Z := u "In the beginning"]> ∅))).
  - vm_compute; reflexivity.
  - vm_compute; reflexivity.
Defined.


(** ** The content region after its links are removed *)

Section Stable.
Variable P : node -> bool.
Hypothesis shallow : ∀ name attrs cs cs', P (Tag name attrs cs) = P (Tag name attrs cs').

Lemma shallow_without_links n : P (without_links n) = P n.
Proof. destruct n as [k s|name attrs cs]; [done|]. apply shallow. Qed.

Lemma shallow_update (f : node -> node) :
  (∀ r, P (f r) = P r) -> ∀ q n, P (update_at q f n) = P n.
Proof.
  intros Hf [|i q] n; [apply Hf|].
  destruct n as [k s|name attrs cs]; [done|]. apply shallow.
Qed.

Lemma first_child_ge (inside : node -> option (list nat)) cs : ∀ j k r,
  first_child P inside j cs = Some (k :: r) -> (j <= k)%nat.
Proof.
  induction cs as [|c cs IH]; intros j k r H; [done|]. cbn [first_child] in H.
  destruct (P c); [injection H as <-; lia|].
  destruct (inside c); [injection H as <-; lia|].
  apply IH in H. lia.
Qed.

Lemma first_path_not_here n : first_path P n ≠ Some [].
Proof.
  destruct n as [k s|name attrs cs]; [done|]. cbn [first_path]. generalize O.
  induction cs as [|c cs IH]; intros j; [done|]. cbn [first_child].
  destruct (P c); [done|]. destruct (first_path P c); [done|]. apply IH.
Qed.

Lemma first_path_without_links_None n :
  first_path P n = None -> first_path P (without_links n) = None.
Proof.
  induction n as [k s|name attrs cs IH] using node_induction; [done|].
  cbn [without_links first_path]. generalize O at 2. generalize O.
  induction IH as [|c cs Hc _ IHcs]; intros j j' H; [done|].
  cbn [first_child] in H. cbn [List.map List.filter].
  destruct (P c) eqn:HP; [done|].
  destruct (first_path P c) eqn:Hf; [done|].
  rewrite has_name_without_links.
  destruct (has_name (u "a") c); cbn [negb]; [by apply (IHcs (S j))|].
  cbn [first_child]. rewrite shallow_without_links, HP, (Hc eq_refl).
  by apply (IHcs (S j)).
Qed.

Section Update.
Variable f : node -> node.
Hypothesis f_keeps : ∀ r, P (f r) = P r.
Hypothesis f_none : ∀ r, first_path P r = None -> first_path P (f r) = None.

(** A tree without a descendant that passes [P] has none after an update. *)
Lemma first_path_update_None q : ∀ n,
  first_path P n = None -> first_path P (update_at q f n) = None.
Proof.
  induction q as [|i q IH]; intros n; [apply f_none|].
  destruct n as [k s|name attrs cs]; [done|]. cbn [update_at first_path].
  generalize O. revert i.
  induction cs as [|c cs IHcs]; intros i j H; [done|].
  cbn [first_child] in H.
  destruct (P c) eqn:HP; [done|]. destruct (first_path P c) eqn:Hf; [done|].
  destruct i as [|i]; cbn [alter list_alter first_child].
  - by rewrite (shallow_update f f_keeps), HP, (IH c Hf).
  - rewrite HP, Hf. by apply IHcs.
Qed.

(** The first descendant that passes [P] is still the first one after an
    update of the tree at its path. *)
Lemma first_path_update_Some q : ∀ n,
  first_path P n = Some q -> first_path P (update_at q f n) = Some q.
Proof.
  induction q as [|i q IH]; intros n H; [by apply first_path_not_here in H|].
  destruct n as [k s|name attrs cs]; [done|]. cbn [update_at first_path] in *.
  enough (∀ cs j i,
             first_child P (first_path P) j cs = Some ((j + i)%nat :: q) ->
             first_child P (first_path P) j (alter (update_at q f) i cs)
             = Some ((j + i)%nat :: q)) as Hin by apply (Hin cs O i), H.
  clear cs i H.
  induction cs as [|c cs IHcs]; intros j i H; [done|].
  cbn [first_child] in H.
  destruct i as [|i]; cbn [alter list_alter first_child].
  - rewrite Nat.add_0_r in *.
    rewrite (shallow_update f f_keeps). destruct (P c); [done|].
    destruct (first_path P c) as [q0|] eqn:Hf.
    + assert (q0 = q) as -> by congruence. by rewrite (IH c Hf).
    + apply first_child_ge in H. lia.
  - destruct (P c); [injection H; lia|].
    destruct (first_path P c); [injection H; lia|].
    replace (j + S i)%nat with (S j + i)%nat in * by lia. by apply IHcs.
Qed.
End Update.

End Stable.

Lemma shallow_matches name c : ∀ nm attrs cs cs',
  matches name c (Tag nm attrs cs) = matches name c (Tag nm attrs cs').
Proof. done. Qed.

Lemma shallow_has_name name : ∀ nm attrs cs cs',
  has_name name (Tag nm attrs cs) = has_name name (Tag nm attrs cs').
Proof. done. Qed.

(** The content region is where it was after its links are removed. *)
Lemma region_path_stable soup :
  region_path (without_region_links soup) = region_path soup.
Proof.
  unfold without_region_links.
  destruct (region_path soup) as [p|] eqn:Hp; [|done].
  unfold region_path in *.
  destruct (first_path (matches (u "div") (u "main")) soup) as [q|] eqn:Hm.
  - injection Hp as ->.
    rewrite (first_path_update_Some _ (shallow_matches _ _) without_links); try done.
    apply shallow_without_links, shallow_matches.
  - rewrite (first_path_update_None _ (shallow_matches _ _) without_links); try done.
    + rewrite (first_path_update_Some _ (shallow_has_name _) without_links); try done.
      apply shallow_without_links, shallow_has_name.
    + apply shallow_without_links, shallow_matches.
    + apply first_path_without_links_None, shallow_matches.
Qed.

Lemma without_links_twice n : without_links (without_links n) = without_links n.
Proof.
  induction n as [k s|name attrs cs IH] using node_induction; [done|].
  cbn [without_links]. f_equal.
  induction IH as [|c cs Hc _ IHcs]; [done|]. cbn [List.map List.filter].
  rewrite has_name_without_links.
  destruct (has_name (u "a") c) eqn:Ha; cbn [negb]; [done|].
  cbn [List.map List.filter]. rewrite Hc, has_name_without_links, Ha. cbn [negb].
  by rewrite IHcs.
Qed.

Lemma update_at_twice (f g : node -> node) q : ∀ n,
  update_at q f (update_at q g n) = update_at q (fun m => f (g m)) n.
Proof.
  induction q as [|i q IH]; intros n; [done|].
  destruct n as [k s|name attrs cs]; [done|]. cbn [update_at]. f_equal.
  rewrite list_alter_alter_eq. apply list_alter_ext; [|done].
  intros c _. apply IH.
Qed.

Lemma without_region_links_twice soup :
  without_region_links (without_region_links soup) = without_region_links soup.
Proof.
  unfold without_region_links at 1. rewrite region_path_stable.
  unfold without_region_links.
  destruct (region_path soup) as [p|]; [|done].
  rewrite update_at_twice. apply update_at_ext, without_links_twice.
Qed.

Lemma node_at_update (f : node -> node) q : ∀ n,
  node_at q (update_at q f n) = f <$> node_at q n.
Proof.
  induction q as [|i q IH]; intros n; [done|].
  destruct n as [k s|name attrs cs]; [done|]. cbn [update_at node_at].
  rewrite list_lookup_alter_eq. destruct (cs !! i) as [c|]; [apply IH | done].
Qed.

Lemma no_link_in_without_links r x :
  In x (tail (subnodes (without_links r))) -> has_name (u "a") x = false.
Proof.
  rewrite <- decompose_links_without_links. intros H.
  destruct (decompose_links r) as [k s|name attrs cs] eqn:E; [done|].
  cbn [subnodes tail] in H. apply in_flat_map in H as (c & Hc & Hx).
  apply (decompose_links_no_link r c x); [by rewrite E | done].
Qed.

Section SameBody.
Variable raises : operation -> bool.

(** The body reads the document through the place of its content region and
    the tree it works on. *)
Lemma try_body_same soup soup' mc mc' :
  main_content soup = Some mc -> main_content soup' = Some mc' ->
  path mc = path mc' -> working_tree soup mc = working_tree soup' mc' ->
  try_body raises soup = try_body raises soup'.
Proof.
  intros Hmc Hmc' Hp Hw. unfold try_body. rewrite Hmc, Hmc'.
  unfold verse_tags, zone_element, document_order, in_main.
  by rewrite Hp, Hw.
Qed.

Lemma try_body_without_region_links soup :
  try_body raises (without_region_links soup) = try_body raises soup.
Proof.
  pose proof (main_content_region soup) as H.
  pose proof (main_content_region (without_region_links soup)) as H'.
  rewrite region_path_stable in H'.
  destruct (main_content soup) as [mc|] eqn:Hmc.
  - destruct H as [Hr _].
    destruct (main_content (without_region_links soup)) as [mc'|] eqn:Hmc';
      [|congruence].
    destruct H' as [Hr' _].
    apply (try_body_same _ _ mc' mc); [done | done | congruence |].
    rewrite (working_tree_region _ _ Hmc'), (working_tree_region _ _ Hmc).
    apply without_region_links_twice.
  - unfold without_region_links. by rewrite H.
Qed.
End SameBody.

(** ** The claims about what a walk collects *)

Lemma is_wj_decode n :
  is_wj n = true -> ∃ body, decode n = u "<span" ++ body ++ u "</span>".
Proof.
  unfold is_wj. intros H. apply andb_true_iff in H as [Hn _].
  destruct n as [k s|name attrs cs]; [done|].
  apply bool_decide_eq_true in Hn as ->.
  destruct cs as [|c cs].
  - exists (attribute_string attrs ++ u ">"). cbn [decode].
    rewrite <- (List.app_assoc (attribute_string attrs)). reflexivity.
  - eexists (attribute_string attrs ++ u ">" ++ _). cbn [decode].
    rewrite <- (List.app_assoc (attribute_string attrs)).
    rewrite <- (List.app_assoc (u ">")). reflexivity.
Qed.

Lemma is_wj_contribution e : is_wj (el e) = true -> contribution e = [decode (el e)].
Proof.
  unfold contribution. intros H. rewrite H.
  destruct (el e); [done | reflexivity].
Qed.

Lemma child_of_wj_excluded e p :
  head (parents e) = Some p -> is_wj p = true -> is_excluded_parent e = true.
Proof.
  unfold is_excluded_parent, is_wj. intros -> H.
  apply andb_true_iff in H as [-> H]. apply bool_decide_eq_true in H. by rewrite H.
Qed.

(** C2, as the code has it: when the walk of a marker reaches an emphasis
    wrapper (a span whose class is exactly wj), what the wrapper adds to the
    collected content is its markup, opening and closing tag included, between
    what the elements before it and after it add; and a string whose parent is
    such a wrapper adds nothing of its own. *)
Theorem C2_wrapper_adds_its_markup
        (soup : node) (lab : pystr) (vis : list element) (w : element) :
  (lab, vis) ∈ marker_walks soup -> w ∈ vis -> is_wj (el w) = true ->
  (∃ before after,
      vis = before ++ w :: after
      ∧ (lab, flat_map contribution before ++ [decode (el w)]
                ++ flat_map contribution after) ∈ markers soup)
  ∧ (∃ body, decode (el w) = u "<span" ++ body ++ u "</span>")
  ∧ (∀ e k s p, e ∈ vis -> el e = NavigableString k s ->
                head (parents e) = Some p -> is_wj p = true -> contribution e = []).
Proof.
  intros Hm Hw Hwj. split; [|split].
  - apply list_elem_of_split in Hw as (before & after & ->).
    exists before, after. split; [done|].
    rewrite markers_walks. apply list_elem_of_In, in_map_iff.
    exists (lab, before ++ w :: after). split; [|by apply list_elem_of_In].
    cbn [fst snd]. rewrite flat_map_app. cbn [flat_map].
    by rewrite is_wj_contribution.
  - by apply is_wj_decode.
  - intros e k s p _ He Hp Hpw. unfold contribution. rewrite He.
    by rewrite (child_of_wj_excluded e p Hp Hpw).
Qed.

(** C2 at the red-letter sample. *)
Lemma C2_at_red_letter :
  (∃ before after,
      Samples.red_letter_walk = before ++ Samples.red_letter_wrapper :: after
      ∧ (u "1", flat_map contribution before
                  ++ [decode (el Samples.red_letter_wrapper)]
                  ++ flat_map contribution after) ∈ markers Samples.red_letter)
  ∧ (∃ body, decode (el Samples.red_letter_wrapper) = u "<span" ++ body ++ u "</span>")
  ∧ (∀ e k s p, e ∈ Samples.red_letter_walk -> el e = NavigableString k s ->
                head (parents e) = Some p -> is_wj p = true -> contribution e = []).
Proof.
  apply (C2_wrapper_adds_its_markup Samples.red_letter).
  - apply list_elem_of_In. vm_compute. left. reflexivity.
  - apply list_elem_of_In. vm_compute. right. right. left. reflexivity.
  - vm_compute; reflexivity.
Defined.

(** C2 as stated fails: the verse of the red-letter sample is returned with
    the tags of the wrapper in it, not as "He said Follow me". *)
Lemma C2_wrapper_tags_are_kept :
  extract_from_soup Samples.too_deep Samples.red_letter
  = Some (<[1%Z := u "He said " ++ Samples.red_letter_markup]> ∅)
  ∧ contains (u "<span class=") (u "He said " ++ Samples.red_letter_markup) = true
  ∧ contains (u "</span>") (u "He said " ++ Samples.red_letter_markup) = true.
Proof. vm_compute. done. Qed.

(** A string deeper inside a wrapper is collected after the markup that
    already holds it: here "me", inside [<b>]. *)
Example nested_text_follows_the_markup :
  markers Samples.red_letter_bold
  = [(u "1", [u "<span class=" ++ Samples.dq (u "wj") ++ u ">Follow <b>me</b></span>";
              u "me"])].
Proof. vm_compute. reflexivity. Qed.

(** Where [str] of a wrapper raises, nothing is returned. *)
Example wrapper_that_cannot_be_rendered :
  extract_from_soup (fun op => match op with Render _ => true | Compare _ _ => false end)
                    Samples.red_letter
  = None.
Proof. vm_compute. reflexivity. Qed.

(** C3 at a document whose footnote div stands inside an emphasis wrapper:
    the div found at line 36 holds the text NOTE, and the verse returned holds
    it too, within the markup of the wrapper. *)
Lemma C3_footnote_inside_wrapper_is_collected :
  fst (zones Samples.footnote_in_wrapper)
  = Some (Samples.tag "div" ["footnote"%string] [Samples.text "NOTE"])
  ∧ extract_from_soup Samples.too_deep Samples.footnote_in_wrapper
    = Some (<[1%Z := u "<span class=" ++ Samples.dq (u "wj") ++ u ">Word<div class="
                     ++ Samples.dq (u "footnote") ++ u ">NOTE</div></span>"]> ∅).
Proof. vm_compute. done. Qed.

(** C7, as the code has it: the hyperlinks of the content region add nothing
    to any verse: what is returned for a document is what is returned for
    the document without the hyperlink elements of its content region, in
    which no hyperlink is left below the region. *)
Theorem C7_links_of_the_region_add_nothing
        (raises : operation -> bool) (soup : node) :
  extract_from_soup raises soup
  = extract_from_soup raises (without_region_links soup)
  ∧ (∀ p region x,
        region_path soup = Some p ->
        node_at p (without_region_links soup) = Some region ->
        x ∈ tail (subnodes region) -> has_name (u "a") x = false).
Proof.
  split.
  - unfold extract_from_soup. by rewrite try_body_without_region_links.
  - intros p region x Hp Hat Hx. unfold without_region_links in Hat.
    rewrite Hp, node_at_update in Hat.
    destruct (node_at p soup) as [r|]; [|done]. injection Hat as <-.
    apply (no_link_in_without_links r). by apply list_elem_of_In.
Qed.

(** C7 at a document with a link inside its main div: the words of the link,
    "note", are not in the verse. *)
Lemma C7_at_link_in_main :
  extract_from_soup Samples.too_deep Samples.link_in_main
  = Some (<[1%Z := u "See here"]> ∅).
Proof.
  rewrite (proj1 (C7_links_of_the_region_add_nothing
                    Samples.too_deep Samples.link_in_main)).
  vm_compute. reflexivity.
Defined.

(** C7 as stated fails: a link that follows the main div is not decomposed,
    the walk of the last marker runs on to the end of the document, and the
    text of the link ends up in the verse. *)
Lemma C7_link_after_main_is_collected :
  markers Samples.link_after_main = [(u "1", [u "text"; u "next chapter"])]
  ∧ extract_from_soup Samples.too_deep Samples.link_after_main
    = Some (<[1%Z := u "textnext chapter"]> ∅).
Proof. vm_compute. done. Qed.

(** ** The chapter loop *)

(** C4, as the code has it: a chapter file that cannot be read, for a reason
    other than absence, is logged and ends the chapter loop of its book; no
    later chapter of the book is tried. *)
Theorem C4_unreadable_chapter_ends_the_book
        (raises : operation -> bool)
        (BeautifulSoup : pystr -> option node) (fs : filesystem)
        (base_dir output_dir book_name base_code : pystr) (padding fuel : nat)
        (chapter_num : N) (saved : nat) (trace : list event) :
  open_read fs (chapter_filepath base_dir base_code padding chapter_num) = ReadFails ->
  chapter_loop raises BeautifulSoup fs base_dir output_dir book_name base_code padding
               (S fuel) chapter_num saved trace
  = Some (saved,
          trace ++ [ErrorProcessingChapterFile
                      (chapter_filepath base_dir base_code padding chapter_num)]).
Proof. intros H. cbn [chapter_loop]. by rewrite H. Qed.

(** C4 at the second chapter of the sample book. *)
Lemma C4_at_second_chapter :
  chapter_loop Samples.too_deep Samples.parse_chapter1 Samples.three_chapters
               (u "WEBBible") (u "WEBBibleJSON") (u "Genesis") (u "GEN") 2
               (S 3) 2 1 []
  = Some (1%nat, [] ++ [ErrorProcessingChapterFile
                          (chapter_filepath (u "WEBBible") (u "GEN") 2 2)]).
Proof.
  apply (C4_unreadable_chapter_ends_the_book
           Samples.too_deep Samples.parse_chapter1 Samples.three_chapters
           (u "WEBBible") (u "WEBBibleJSON") (u "Genesis") (u "GEN") 2 3 2 1 []).
  vm_compute; reflexivity.
Defined.

(** Absence ends the loop as well, with nothing logged. *)
Lemma absent_chapter_ends_the_book
      (raises : operation -> bool)
        (BeautifulSoup : pystr -> option node) (fs : filesystem)
      (base_dir output_dir book_name base_code : pystr) (padding fuel : nat)
      (chapter_num : N) (saved : nat) (trace : list event) :
  open_read fs (chapter_filepath base_dir base_code padding chapter_num) = FileNotFound ->
  chapter_loop raises BeautifulSoup fs base_dir output_dir book_name base_code padding
               (S fuel) chapter_num saved trace
  = Some (saved, trace).
Proof. intros H. cbn [chapter_loop]. by rewrite H. Qed.

(** C4 as stated fails: in a book whose second chapter file cannot be read
    and whose third can, and holds verses, the loop saves chapter 1, logs
    chapter 2 and stops; chapter 3 is never processed. *)
Lemma C4_chapter_after_unreadable_is_not_processed :
  process_book Samples.too_deep Samples.parse_chapter1 Samples.three_chapters
               (u "WEBBible") (u "WEBBibleJSON") (u "Genesis") (u "GEN") 2 5 1
  = Some (1%nat,
          [MadeDir (u "WEBBibleJSON/Genesis");
           WroteJson (u "WEBBibleJSON/Genesis/1.json")
                     (<[2%Z := u "The earth"]> (<[1%Z := u "In the beginning"]> ∅));
           ErrorProcessingChapterFile (u "WEBBible/GEN02.htm")])
  ∧ open_read Samples.three_chapters (u "WEBBible/GEN03.htm")
    = Contents Samples.chapter1_html
  ∧ extract_verses_from_html Samples.too_deep Samples.parse_chapter1 Samples.chapter1_html
    = Some (<[2%Z := u "The earth"]> (<[1%Z := u "In the beginning"]> ∅)).
Proof. vm_compute. done. Qed.

(** * Further properties of the code *)

(** ** The chapter loop: fuel, counts, what is written *)

Lemma extract_verses_from_html_nonempty raises BeautifulSoup html_content d :
  extract_verses_from_html raises BeautifulSoup html_content = Some d -> d ≠ ∅.
Proof.
  unfold extract_verses_from_html.
  destruct (BeautifulSoup html_content); [apply extract_nonempty | done].
Qed.

Lemma written_app a b : written (a ++ b) = written a ++ written b.
Proof. apply flat_map_app. Qed.

Section ChapterLoop.
Variable raises : operation -> bool.
Variable BeautifulSoup : pystr -> option node.
Variable fs : filesystem.
Variables base_dir output_dir book_name base_code : pystr.
Variable padding : nat.

#[local] Abbreviation loop :=
  (chapter_loop raises BeautifulSoup fs base_dir output_dir book_name base_code padding).
#[local] Abbreviation file := (chapter_filepath base_dir base_code padding).
#[local] Abbreviation json := (output_json_path output_dir book_name).
#[local] Abbreviation book_dir := (book_dir_path output_dir book_name).
#[local] Abbreviation extract := (extract_verses_from_html raises BeautifulSoup).
#[local] Abbreviation make_dir count :=
  (if bool_decide (count = O) then makedirs fs book_dir else Made).
#[local] Abbreviation can_read := (readable fs base_dir base_code padding).
#[local] Abbreviation save := (save_chapter fs output_dir book_name).
#[local] Abbreviation saved_from :=
  (Index.saved_from raises BeautifulSoup fs base_dir output_dir book_name base_code
                    padding).

(** One iteration at a chapter that can be read. *)
Lemma loop_step fuel c count trace file_content :
  open_read fs (file c) = Contents file_content ->
  loop (S fuel) c count trace
  = match extract file_content with
    | None => loop fuel (c + 1) count trace
    | Some d =>
        match make_dir count with
        | MakedirsOSError =>
            Some (count, trace ++ [ErrorCreatingBookDirectory book_dir])
        | MakedirsFails => Some (count, trace ++ [ErrorProcessingChapterFile (file c)])
        | Made =>
            loop fuel (c + 1) (fst (save c d count))
                 (trace ++ (if bool_decide (count = O) then [MadeDir book_dir] else [])
                        ++ snd (save c d count))
        end
    end.
Proof.
  intros H. cbn [chapter_loop]. rewrite H.
  destruct (extract file_content) as [d|] eqn:E; [|done].
  rewrite bool_decide_eq_false_2
    by (by apply (extract_verses_from_html_nonempty raises BeautifulSoup file_content)).
  destruct (make_dir count); [|done|done].
  by destruct (save c d count).
Qed.

Lemma loop_stops fuel c count trace :
  ¬ can_read c -> ∃ r, loop (S fuel) c count trace = Some r.
Proof.
  intros H. cbn [chapter_loop].
  destruct (open_read fs (file c)) eqn:E; [by eexists | by eexists |].
  destruct H. by eexists.
Qed.

Lemma loop_not_readable fuel c count trace r :
  ¬ can_read c -> loop (S fuel) c count trace = Some r ->
  fst r = count ∧ written (snd r) = written trace.
Proof.
  intros H. cbn [chapter_loop].
  destruct (open_read fs (file c)) eqn:E.
  - by intros [= <-].
  - intros [= <-]. simpl. by rewrite written_app, List.app_nil_r.
  - destruct H. by eexists.
Qed.

Lemma save_cases c d count :
  (json_dump fs (json c) d = Written
   ∧ save c d count = (S count, [WroteJson (json c) d]))
  ∨ (json_dump fs (json c) d ≠ Written
     ∧ fst (save c d count) = count ∧ written (snd (save c d count)) = []).
Proof.
  unfold save_chapter. destruct (json_dump fs (json c) d); [by left | by right | by right].
Qed.

(** More fuel does not change a result. *)
Lemma loop_more_fuel fuel : ∀ c count trace r more,
  loop fuel c count trace = Some r -> loop (fuel + more) c count trace = Some r.
Proof.
  induction fuel as [|fuel IH]; intros c count trace r more; [done|].
  change (S fuel + more)%nat with (S (fuel + more)).
  destruct (open_read fs (file c)) as [| |h] eqn:E.
  - cbn [chapter_loop]. by rewrite E.
  - cbn [chapter_loop]. by rewrite E.
  - rewrite !(loop_step _ _ _ _ h E).
    destruct (extract h) as [d|]; [|apply IH].
    destruct (make_dir count); [apply IH | done | done].
Qed.


(** When the chapter file [n] numbers on cannot be read, [n + 1] iterations
    are enough. *)
Lemma loop_ends (n : nat) (c : N) (count : nat) (trace : list event) :
  ¬ can_read (c + N.of_nat n) -> ∃ r, loop (S n) c count trace = Some r.
Proof.
  revert c count trace. induction n as [|n IH]; intros c count trace H.
  - apply loop_stops. by rewrite N.add_0_r in H.
  - destruct (open_read fs (file c)) as [| |h] eqn:E.
    + cbn [chapter_loop]. rewrite E. by eexists.
    + cbn [chapter_loop]. rewrite E. by eexists.
    + rewrite (loop_step _ _ _ _ h E).
      assert (¬ can_read (c + 1 + N.of_nat n)) as H'
        by (by replace (c + 1 + N.of_nat n) with (c + N.of_nat (S n)) by lia).
      destruct (extract h) as [d|]; [|by apply IH].
      destruct (make_dir count); [by apply IH | by eexists | by eexists].
Qed.

(** X2: the loop ends: when the chapter file [n] numbers after the current
    one cannot be read (it is absent, or reading it fails), [n + 1] iterations
    are enough. *)
Theorem chapter_loop_ends_at_first_unreadable
        (n : nat) (c : N) (count : nat) (trace : list event) :
  ¬ can_read (c + N.of_nat n) -> ∃ r, loop (S n) c count trace = Some r.
Proof. apply loop_ends. Qed.

(** The loop only adds events, and the count it returns has grown by the
    number of JSON files it wrote. *)
Lemma loop_counts fuel : ∀ c count count' trace trace',
  loop fuel c count trace = Some (count', trace') ->
  ∃ new, trace' = trace ++ new ∧ count' = (count + length (written new))%nat.
Proof.
  intros c count count' trace trace'. revert c count trace. induction fuel as [|fuel IH]; intros c count trace; [done|].
  destruct (open_read fs (file c)) as [| |h] eqn:E.
  - cbn [chapter_loop]. rewrite E. intros [= <- <-]. exists [].
    by rewrite List.app_nil_r, Nat.add_0_r.
  - cbn [chapter_loop]. rewrite E. intros [= <- <-]. eexists. split; [done|].
    simpl. by rewrite Nat.add_0_r.
  - rewrite (loop_step _ _ _ _ h E).
    destruct (extract h) as [d|]; [|apply IH].
    destruct (make_dir count);
      [|intros [= <- <-]; eexists; (split; [done|]); simpl; by rewrite Nat.add_0_r..].
    intros H. apply IH in H as (new & -> & ->).
    eexists. split; [by rewrite <- !app_assoc|].
    rewrite !written_app, !length_app.
    assert (written (if bool_decide (count = O) then [MadeDir book_dir] else []) = [])
      as -> by (by case_bool_decide).
    destruct (save_cases c d count) as [[_ ->]|(_ & -> & ->)]; simpl; lia.
Qed.

(** X3: the count of chapters a book returns is the number of the writes of
    lines 176-178 that ended without an exception; a write that raises is not
    counted, whatever it left of its file. *)
Theorem book_count_is_the_number_of_files_written
        (fuel : nat) (start_chapter : N) (count : nat) (trace : list event) :
  process_book raises BeautifulSoup fs base_dir output_dir book_name base_code padding
               fuel start_chapter = Some (count, trace) ->
  count = length (written trace).
Proof.
  unfold process_book. intros H. by apply loop_counts in H as (new & -> & ->).
Qed.

Lemma saved_from_unreadable c f d : ¬ can_read c -> ¬ saved_from c f d.
Proof. intros H (n & h & Hle & Hall & _). apply H, Hall. lia. Qed.

Lemma saved_from_step c f d h :
  open_read fs (file c) = Contents h ->
  saved_from c f d
  ↔ (extract h = Some d ∧ f = json c ∧ json_dump fs f d = Written)
    ∨ saved_from (c + 1) f d.
Proof.
  intros E. split.
  - intros (n & h' & Hle & Hall & Hn & Hx & Hf & Hw).
    destruct (decide (n = c)) as [->|Hne].
    + left. rewrite E in Hn. injection Hn as <-. done.
    + right. exists n, h'. split; [lia|]. split; [|done].
      intros m Hm. apply Hall. lia.
  - intros [(Hx & Hf & Hw)|(n & h' & Hle & Hall & H)].
    + exists c, h. split; [lia|]. split; [|done].
      intros m Hm. replace m with c by lia. by exists h.
    + exists n, h'. split; [lia|]. split; [|done].
      intros m Hm. destruct (decide (m = c)) as [->|Hne]; [by exists h|].
      apply Hall. lia.
Qed.

(** X4: what the loop writes, when the book directory can be made: a file
    [f] with the mapping [d] is among the files written exactly when it was
    written before, or [f] is the JSON file of a chapter that is reached (it
    and every chapter before it can be read), whose text gives [d], and whose
    writing succeeds. *)
Theorem chapter_loop_writes_exactly_the_reachable_chapters
        (fuel : nat) (c : N) (count count' : nat) (trace trace' : list event)
        (f : pystr) (d : gmap Z pystr) :
  makedirs fs book_dir = Made ->
  loop fuel c count trace = Some (count', trace') ->
  (f, d) ∈ written trace' ↔ (f, d) ∈ written trace ∨ saved_from c f d.
Proof.
  intros Hmk. revert c count trace.
  induction fuel as [|fuel IH]; intros c count trace; [done|].
  destruct (open_read fs (file c)) as [| |h] eqn:E.
  - cbn [chapter_loop]. rewrite E. intros [= <- <-].
    assert (¬ saved_from c f d)
      by (apply saved_from_unreadable; intros [h Hh]; congruence).
    tauto.
  - cbn [chapter_loop]. rewrite E. intros [= <- <-].
    assert (¬ saved_from c f d)
      by (apply saved_from_unreadable; intros [h Hh]; congruence).
    rewrite written_app. simpl. rewrite List.app_nil_r. tauto.
  - rewrite (loop_step _ _ _ _ h E), (saved_from_step c f d h E), Hmk.
    assert ((if bool_decide (count = O) then Made else Made) = Made) as ->
      by (by destruct (bool_decide (count = O))).
    destruct (extract h) as [d0|].
    + intros H. rewrite (IH _ _ _ H). rewrite !written_app, !elem_of_app.
      assert (written (if bool_decide (count = O) then [MadeDir book_dir] else []) = [])
        as -> by (by case_bool_decide).
      destruct (save_cases c d0 count) as [[Hw ->]|(Hw & _ & ->)]; simpl.
      * rewrite list_elem_of_singleton. split.
        -- intros [[H1|[H1|H1]]|H1].
           ++ tauto.
           ++ by apply elem_of_nil in H1.
           ++ injection H1 as -> ->. right. left. done.
           ++ tauto.
        -- intros [H1|[(H1 & -> & H2)|H1]].
           ++ tauto.
           ++ injection H1 as ->. left. right. right. done.
           ++ tauto.
      * split.
        -- intros [[H1|[H1|H1]]|H1].
           ++ tauto.
           ++ by apply elem_of_nil in H1.
           ++ by apply elem_of_nil in H1.
           ++ tauto.
        -- intros [H1|[(H1 & -> & H2)|H1]].
           ++ tauto.
           ++ injection H1 as ->. done.
           ++ tauto.
    + intros H. rewrite (IH _ _ _ H). split; [tauto|].
      intros [?|[(? & _)|?]]; [tauto | done | tauto].
Qed.

(** X5: when the book directory cannot be made, the loop writes no file and
    leaves the count as it was. *)
Theorem chapter_loop_writes_nothing_without_directory
        (fuel : nat) (c : N) (trace trace' : list event) (count' : nat) :
  makedirs fs book_dir ≠ Made ->
  loop fuel c O trace = Some (count', trace') ->
  count' = O ∧ written trace' = written trace.
Proof.
  intros Hmk. revert c trace. induction fuel as [|fuel IH]; intros c trace; [done|].
  destruct (open_read fs (file c)) as [| |h] eqn:E.
  - cbn [chapter_loop]. rewrite E. by intros [= <- <-].
  - cbn [chapter_loop]. rewrite E. intros [= <- <-].
    by rewrite written_app, List.app_nil_r.
  - rewrite (loop_step _ _ _ _ h E).
    destruct (extract h) as [d0|]; [|apply IH].
    simpl. destruct (makedirs fs book_dir); [done| |];
      intros [= <- <-]; by rewrite written_app, List.app_nil_r.
Qed.


Lemma loop_n_chapters (n : nat) : ∀ (c : N) (count : nat) (trace : list event)
    (html : nat -> pystr) (verses : nat -> gmap Z pystr),
  makedirs fs book_dir = Made ->
  (∀ i, (i < n)%nat ->
        open_read fs (file (c + N.of_nat i)) = Contents (html i)
        ∧ extract (html i) = Some (verses i)
        ∧ json_dump fs (json (c + N.of_nat i)) (verses i) = Written) ->
  open_read fs (file (c + N.of_nat n)) = FileNotFound ->
  loop (S n) c count trace
  = Some ((count + n)%nat,
          trace ++ (if bool_decide (count = O) && negb (bool_decide (n = O))
                    then [MadeDir book_dir] else [])
                ++ List.map (fun i => WroteJson (json (c + N.of_nat i)) (verses i)) (seq 0 n)).
Proof.
  induction n as [|n IH]; intros c count trace html verses Hmk Hall Hend.
  - cbn [chapter_loop]. rewrite N.add_0_r in Hend. rewrite Hend, andb_false_r.
    simpl. by rewrite List.app_nil_r, Nat.add_0_r.
  - destruct (Hall O) as (H0 & Hx & Hw); [lia|]. rewrite N.add_0_r in H0, Hw.
    rewrite (loop_step _ _ _ _ _ H0), Hx, Hmk.
    assert ((if bool_decide (count = O) then Made else Made) = Made) as ->
      by (by destruct (bool_decide (count = O))).
    unfold save_chapter. rewrite Hw. cbn [fst snd].
    rewrite (IH (c + 1) (S count) _ (fun i => html (S i)) (fun i => verses (S i)) Hmk).
    + f_equal. f_equal; [lia|]. rewrite <- !app_assoc. f_equal.
      rewrite (bool_decide_eq_false_2 (S count = O)) by done.
      rewrite (bool_decide_eq_false_2 (S n = O)) by done.
      rewrite andb_true_r. cbn [andb app seq List.map]. rewrite N.add_0_r.
      f_equal. f_equal. rewrite <- seq_shift, List.map_map.
      apply List.map_ext. intros i.
      by replace (c + 1 + N.of_nat i) with (c + N.of_nat (S i)) by lia.
    + intros i Hi. replace (c + 1 + N.of_nat i) with (c + N.of_nat (S i)) by lia.
      apply Hall. lia.
    + by replace (c + 1 + N.of_nat n) with (c + N.of_nat (S n)) by lia.
Qed.

(** X6: a book whose chapter files [c], ..., [c + n - 1] can be read, hold
    verses and can be written, and whose file [c + n] is absent, is saved as
    [n] JSON files, one per chapter in order, after one making of the book
    directory; and [n] is the count returned. *)
Theorem book_of_n_chapters_is_saved_whole
        (n : nat) (c : N) (html : nat -> pystr) (verses : nat -> gmap Z pystr) :
  makedirs fs book_dir = Made ->
  (∀ i, (i < n)%nat ->
        open_read fs (file (c + N.of_nat i)) = Contents (html i)
        ∧ extract (html i) = Some (verses i)
        ∧ json_dump fs (json (c + N.of_nat i)) (verses i) = Written) ->
  open_read fs (file (c + N.of_nat n)) = FileNotFound ->
  process_book raises BeautifulSoup fs base_dir output_dir book_name base_code padding (S n) c
  = Some (n, (if bool_decide (n = O) then [] else [MadeDir book_dir])
             ++ List.map (fun i => WroteJson (json (c + N.of_nat i)) (verses i)) (seq 0 n)).
Proof.
  intros Hmk Hall Hend. unfold process_book.
  rewrite (loop_n_chapters n c O [] html verses Hmk Hall Hend).
  simpl. by case_bool_decide.
Qed.

Lemma dir_before_json_app_after dir trace new :
  dir_before_json dir trace -> MadeDir dir ∈ trace -> dir_before_json dir (trace ++ new).
Proof.
  intros Hd Hin before f d after E.
  apply app_eq_app in E as [l [[-> E]|[-> E]]].
  - destruct l as [|x l].
    + by rewrite List.app_nil_r in Hin.
    + injection E as <- _. by eapply Hd.
  - apply elem_of_app. by left.
Qed.

Lemma dir_before_json_app_quiet dir trace new :
  dir_before_json dir trace -> written new = [] -> dir_before_json dir (trace ++ new).
Proof.
  intros Hd Hq before f d after E.
  apply app_eq_app in E as [l [[-> E]|[-> E]]].
  - destruct l as [|x l].
    + simpl in E. rewrite <- E in Hq. done.
    + injection E as <- _. by eapply Hd.
  - rewrite E, written_app in Hq. simpl in Hq.
    by apply app_eq_nil in Hq as [_ ?].
Qed.

Lemma loop_dir_before_json fuel : ∀ c count count' trace trace',
  dir_before_json book_dir trace ->
  (count ≠ O -> MadeDir book_dir ∈ trace) ->
  loop fuel c count trace = Some (count', trace') ->
  dir_before_json book_dir trace'.
Proof.
  induction fuel as [|fuel IH]; intros c count count' trace trace' Hd Hc; [done|].
  destruct (open_read fs (file c)) as [| |h] eqn:E.
  - cbn [chapter_loop]. rewrite E. by intros [= <- <-].
  - cbn [chapter_loop]. rewrite E. intros [= <- <-].
    by apply dir_before_json_app_quiet.
  - rewrite (loop_step _ _ _ _ h E).
    destruct (extract h) as [d0|]; [|by apply IH].
    destruct (make_dir count);
      [|intros [= <- <-]; by apply dir_before_json_app_quiet..].
    assert (dir_before_json book_dir
              (trace ++ (if bool_decide (count = O) then [MadeDir book_dir] else []))
            ∧ MadeDir book_dir
                ∈ trace ++ (if bool_decide (count = O) then [MadeDir book_dir] else []))
      as [Hd' Hin'].
    { case_bool_decide as H0.
      - split; [by apply dir_before_json_app_quiet|].
        apply elem_of_app. right. apply list_elem_of_here.
      - rewrite List.app_nil_r. auto. }
    apply IH.
    + rewrite app_assoc. by apply dir_before_json_app_after.
    + intros _. rewrite app_assoc. apply elem_of_app. by left.
Qed.

(** X7: in the events of a book, every JSON file is written after the book
    directory was made. *)
Theorem book_directory_is_made_before_any_file
        (fuel : nat) (start_chapter : N) (count : nat) (trace : list event) :
  process_book raises BeautifulSoup fs base_dir output_dir book_name base_code padding
               fuel start_chapter = Some (count, trace) ->
  dir_before_json book_dir trace.
Proof.
  unfold process_book. apply loop_dir_before_json; [|done].
  intros before f d after E. by destruct before.
Qed.

Lemma loop_without_verses fuel : ∀ c count count' trace trace',
  (∀ n file_content,
      open_read fs (file n) = Contents file_content -> extract file_content = None) ->
  loop fuel c count trace = Some (count', trace') ->
  count' = count
  ∧ (trace' = trace ∨ ∃ n, trace' = trace ++ [ErrorProcessingChapterFile (file n)]).
Proof.
  induction fuel as [|fuel IH]; intros c count count' trace trace' Hno; [done|].
  destruct (open_read fs (file c)) as [| |h] eqn:E.
  - cbn [chapter_loop]. rewrite E. intros [= <- <-]. auto.
  - cbn [chapter_loop]. rewrite E. intros [= <- <-]. split; [done|]. right. by exists c.
  - rewrite (loop_step _ _ _ _ h E), (Hno c h E). by apply IH.
Qed.

(** X8: a book none of whose chapter files gives verses leaves no trace but,
    at most, the message about a file that could not be read: no directory is
    made for it and nothing is written. *)
Theorem book_without_verses_makes_no_directory
        (fuel : nat) (start_chapter : N) (count : nat) (trace : list event) :
  (∀ n file_content,
      open_read fs (file n) = Contents file_content -> extract file_content = None) ->
  process_book raises BeautifulSoup fs base_dir output_dir book_name base_code padding
               fuel start_chapter = Some (count, trace) ->
  count = O ∧ (trace = [] ∨ ∃ n, trace = [ErrorProcessingChapterFile (file n)]).
Proof. intros Hno H. by apply (loop_without_verses _ _ _ _ _ _ Hno) in H. Qed.

End ChapterLoop.

(** ** The extractor: what a returned text is, where a walk goes *)

(** X9: no verse is recorded with an empty text. *)
Theorem returned_texts_are_not_empty
        (raises : operation -> bool)
        (soup : node) (d : gmap Z pystr) (k : Z) (t : pystr) :
  extract_from_soup raises soup = Some d -> d !! k = Some t -> t ≠ [].
Proof.
  intros Hd Hk. rewrite (extract_lookup raises soup d k Hd) in Hk.
  by apply last_recorded_Some in Hk as (m & _ & _ & _ & ?).
Qed.

Lemma normalize_normalize parts : normalize [normalize parts] = normalize parts.
Proof.
  rewrite !normalize_join_split. cbn [concat]. rewrite List.app_nil_r.
  by rewrite split_join by apply split_words.
Qed.

(** X10: a returned text is left as it is by the normalization of lines
    83-85: collecting it again as the only fragment gives the same text. *)
Theorem returned_texts_are_fixed_by_normalize
        (raises : operation -> bool)
        (soup : node) (d : gmap Z pystr) (k : Z) (t : pystr) :
  extract_from_soup raises soup = Some d -> d !! k = Some t -> normalize [t] = t.
Proof.
  intros Hd Hk. rewrite (extract_lookup raises soup d k Hd) in Hk.
  apply last_recorded_Some in Hk as (m & _ & _ & <- & _).
  apply normalize_normalize.
Qed.

Section Equality.

Lemma dict_get_distinct attrs k v :
  NoDup (List.map fst attrs) -> In (k, v) attrs -> dict_get k attrs = Some v.
Proof.
  induction attrs as [|[k0 v0] attrs IH]; simpl; [done|].
  intros Hnd Hin. apply NoDup_cons in Hnd as [Hk0 Hnd].
  unfold str_eqb. case_bool_decide as Hk.
  - destruct Hin as [[= <- <-]|Hin]; [done|]. subst k0. destruct Hk0.
    apply list_elem_of_In, in_map_iff. by exists (k, v).
  - destruct Hin as [[= <- <-]|Hin]; [done|]. by apply IH.
Qed.

Lemma attrs_eqb_refl attrs : NoDup (List.map fst attrs) -> attrs_eqb attrs attrs = true.
Proof.
  intros Hnd. unfold attrs_eqb. rewrite bool_decide_eq_true_2 by done. simpl.
  apply forallb_forall. intros [k v] Hin. apply bool_decide_eq_true.
  by apply dict_get_distinct.
Qed.

(** A tag equals itself. *)
Lemma node_eqb_refl n : distinct_keys n = true -> node_eqb n n = true.
Proof.
  induction n as [k s|name attrs cs IH] using node_induction; intros Hd.
  - simpl. by apply bool_decide_eq_true.
  - cbn [distinct_keys] in Hd. apply andb_true_iff in Hd as [Hk Hcs].
    apply bool_decide_eq_true in Hk. cbn [node_eqb].
    unfold str_eqb at 1. rewrite bool_decide_eq_true_2 by done.
    rewrite attrs_eqb_refl by done. simpl.
    induction IH as [|c cs Hc _ IHcs]; [done|].
    cbn [forallb] in Hcs. apply andb_true_iff in Hcs as [Hdc Hcs].
    rewrite (Hc Hdc). simpl. by apply IHcs.
Qed.

Lemma distinct_keys_subnodes n :
  ∀ x, distinct_keys n = true -> In x (subnodes n) -> distinct_keys x = true.
Proof.
  induction n as [k s|name attrs cs IH] using node_induction; intros x Hd.
  - simpl. by intros [<-|[]].
  - cbn [subnodes]. intros [<-|H]; [done|].
    apply in_flat_map in H as (c & Hc & H).
    cbn [distinct_keys] in Hd. apply andb_true_iff in Hd as [_ Hcs].
    rewrite forallb_forall in Hcs. rewrite Forall_forall in IH.
    apply (IH c); [by apply list_elem_of_In | by apply Hcs | done].
Qed.

Lemma distinct_keys_decompose_links n :
  distinct_keys n = true -> distinct_keys (decompose_links n) = true.
Proof.
  induction n as [k s|name attrs cs IH] using node_induction; [done|].
  cbn [decompose_links distinct_keys]. rewrite !andb_true_iff.
  intros [Hk Hcs]. split; [done|].
  apply forallb_forall. intros c Hc.
  apply in_map_kept in Hc as (c0 & Hc0 & _ & ->).
  rewrite forallb_forall in Hcs. rewrite Forall_forall in IH.
  apply IH; [by apply list_elem_of_In | by apply Hcs].
Qed.

Lemma distinct_keys_update_at f p :
  (∀ m, distinct_keys m = true -> distinct_keys (f m) = true) ->
  ∀ n, distinct_keys n = true -> distinct_keys (update_at p f n) = true.
Proof.
  intros Hf. induction p as [|i p IH]; intros n Hd; [by apply Hf|].
  destruct n as [k s|name attrs cs]; [done|].
  cbn [update_at distinct_keys] in *. apply andb_true_iff in Hd as [Hk Hcs].
  rewrite Hk. simpl. apply forallb_forall. intros c Hc.
  rewrite forallb_forall in Hcs.
  apply list_elem_of_In, list_elem_of_lookup in Hc as [j Hj].
  destruct (decide (i = j)) as [->|Hne].
  - rewrite list_lookup_alter_eq in Hj.
    destruct (cs !! j) as [c0|] eqn:E; [|done]. injection Hj as <-.
    apply IH, Hcs, list_elem_of_In. by eapply list_elem_of_lookup_2.
  - rewrite list_lookup_alter_ne in Hj by done.
    apply Hcs, list_elem_of_In. by eapply list_elem_of_lookup_2.
Qed.

Lemma distinct_keys_document_order soup mc e :
  distinct_keys soup = true -> In e (document_order soup mc) ->
  distinct_keys (el e) = true.
Proof.
  intros Hd He. apply in_elements_subnodes in He.
  apply (distinct_keys_subnodes (working_tree soup mc)); [|done].
  by apply distinct_keys_update_at; [apply distinct_keys_decompose_links|].
Qed.

End Equality.

Section Ancestors.

Lemma elements_parents n :
  ∀ p ups e, In e (elements p ups n) -> ∃ l, parents e = l ++ ups.
Proof.
  induction n as [k s|name attrs cs IH] using node_induction; intros p ups e.
  - simpl. intros [<-|[]]. by exists [].
  - cbn [elements]. intros [<-|H]; [by exists []|].
    apply in_children_from in H as (j & c & Hj & H).
    rewrite Forall_forall in IH.
    apply IH in H as [l ->]; [|by eapply list_elem_of_lookup_2].
    exists (l ++ [Tag name attrs cs]). by rewrite <- app_assoc.
Qed.

(** In a tree, an element whose path starts the path of another one is that
    one's node or one of its parents. *)
Lemma elements_ancestor n :
  ∀ p ups e e', In e (elements p ups n) -> In e' (elements p ups n) ->
                path e' `prefix_of` path e ->
                el e' = el e ∨ In (el e') (parents e).
Proof.
  induction n as [k s|name attrs cs IH] using node_induction; intros p ups e e'.
  - simpl. intros [<-|[]] [<-|[]] _. by left.
  - cbn [elements]. intros [<-|He] [<-|He'] Hpre.
    + by left.
    + apply in_children_from in He' as (j & c & Hj & He').
      apply elements_path_prefix in He'. simpl in Hpre.
      assert (length (p ++ [j]) <= length p)%nat as Hlen
        by (etrans; [by apply prefix_length | by apply prefix_length]).
      rewrite length_app in Hlen. simpl in Hlen. lia.
    + right. apply in_children_from in He as (j & c & Hj & He).
      apply elements_parents in He as [l ->].
      apply in_app_iff. right. by left.
    + apply in_children_from in He as (j & c & Hj & He).
      apply in_children_from in He' as (j' & c' & Hj' & He').
      pose proof (elements_path_prefix _ _ _ _ He) as [r Hr].
      pose proof (elements_path_prefix _ _ _ _ He') as [r' Hr'].
      destruct Hpre as [r'' Hr''].
      assert (j' = j) as ->.
      { rewrite Hr, Hr' in Hr''. rewrite <- !app_assoc in Hr''.
        apply app_inv_head in Hr''. simpl in Hr''. congruence. }
      assert (c' = c) as -> by congruence.
      rewrite Forall_forall in IH.
      eapply (IH c); [by eapply list_elem_of_lookup_2 | exact He | exact He' |].
      by exists r''.
Qed.

End Ancestors.

Lemma in_visited_not_inside_zone soup mc next chain e z :
  distinct_keys soup = true ->
  In e (visited next (footnote_div soup mc) (copyright_div soup mc) chain) ->
  In e (document_order soup mc) -> In z (document_order soup mc) ->
  footnote_div soup mc = Some (el z) ∨ copyright_div soup mc = Some (el z) ->
  inside z e = false.
Proof.
  intros Hd Hv He Hz Hzone. apply bool_decide_eq_false. intros Hpre.
  pose proof (node_eqb_refl (el z) (distinct_keys_document_order _ _ _ Hd Hz)) as Hrefl.
  destruct (visited_outside_zones _ _ _ _ _ (el z) Hv Hzone) as [Hne Hpar].
  destruct (elements_ancestor _ _ _ _ _ He Hz Hpre) as [Heq|Hin].
  - rewrite <- Heq in Hne. congruence.
  - specialize (Hpar _ Hin). congruence.
Qed.

(** X11: in a document whose tags have distinct attribute keys, the walk of
    a marker goes over neither the footnote div nor the copyright div, nor
    over any element inside one of them. *)
Theorem walk_stays_out_of_the_zones
        (soup : node) (mc : element) (lab : pystr) (vis : list element)
        (e z : element) :
  distinct_keys soup = true ->
  main_content soup = Some mc ->
  (lab, vis) ∈ marker_walks soup -> e ∈ vis ->
  z ∈ document_order soup mc ->
  footnote_div soup mc = Some (el z) ∨ copyright_div soup mc = Some (el z) ->
  inside z e = false.
Proof.
  intros Hd Hmc Hm He Hz Hzone.
  apply list_elem_of_In in Hm, He, Hz.
  pose proof (marker_walks_in_order soup mc lab vis e Hmc Hm He) as Ho.
  unfold marker_walks in Hm. rewrite Hmc in Hm.
  apply in_walks in Hm as (v & chain & next & _ & _ & ->).
  by eapply in_visited_not_inside_zone.
Qed.

Lemma find_all_drop p order : ∀ i v chain,
  find_all p order !! i = Some (v, chain) ->
  drop (S i) (find_all p order) = find_all p chain.
Proof.
  induction order as [|e order IH]; intros i v chain; [done|].
  cbn [find_all]. destruct (p e).
  - destruct i as [|i]; simpl.
    + intros [= <- <-]. done.
    + intros H. by apply IH in H.
  - apply IH.
Qed.

Lemma walk_until_break next fd cd between x rest :
  breaks next fd cd x = true ->
  walk next fd cd (between ++ x :: rest) = walk next fd cd between.
Proof.
  intros Hx. induction between as [|s between IH]; simpl.
  - by rewrite Hx.
  - destruct (breaks next fd cd s); [done|]. by rewrite IH.
Qed.

Lemma outcomes_lookup fd cd tags : ∀ i v chain,
  tags !! i = Some (v, chain) ->
  outcomes fd cd tags !! i
  = Some (get_text_strip (el v),
          walk ((el ∘ fst) <$> head (drop (S i) tags)) fd cd chain).
Proof.
  induction tags as [|[v0 chain0] tags IH]; intros i v chain; [done|].
  destruct i as [|i]; simpl.
  - intros [= <- <-]. by rewrite drop_0.
  - apply IH.
Qed.

(** X12: in a document whose tags have distinct attribute keys, the content
    of a marker that is followed by another one is collected from the elements
    strictly between the two, and from nothing at or after the second. *)
Theorem content_ends_before_the_next_marker
        (soup : node) (mc : element) (i : nat)
        (v v' : element) (chain chain' : list element) :
  distinct_keys soup = true ->
  main_content soup = Some mc ->
  verse_tags soup mc !! i = Some (v, chain) ->
  verse_tags soup mc !! S i = Some (v', chain') ->
  ∃ between,
    chain = between ++ v' :: chain'
    ∧ markers soup !! i
      = Some (get_text_strip (el v),
              walk (Some (el v')) (footnote_div soup mc) (copyright_div soup mc) between).
Proof.
  intros Hd Hmc Hi Hi'.
  pose proof (find_all_drop _ _ _ _ _ Hi) as Hdrop.
  assert (head (drop (S i) (verse_tags soup mc)) = Some (v', chain')) as Hhead
    by (by rewrite head_lookup, lookup_drop, Nat.add_0_r).
  assert (In (v', chain') (find_all (in_main mc (u "span") (u "verse")) chain)) as Hin.
  { unfold verse_tags in Hdrop, Hhead. rewrite Hdrop in Hhead.
    apply list_elem_of_In. by eapply head_Some_elem_of. }
  apply in_find_all in Hin as [between ->]. exists between. split; [done|].
  unfold markers. rewrite Hmc, (outcomes_lookup _ _ _ _ _ _ Hi), Hhead. simpl.
  do 2 f_equal. apply walk_until_break. unfold breaks.
  assert (In v' (document_order soup mc)) as Hv'.
  { apply list_elem_of_lookup_2, list_elem_of_In in Hi.
    apply in_find_all in Hi as [pre ->].
    apply in_app_iff. right. right. apply in_app_iff. right. by left. }
  simpl. by rewrite (node_eqb_refl _ (distinct_keys_document_order _ _ _ Hd Hv')).
Qed.

(** ** The index: the pattern of line 138 *)

Section Pattern.

Lemma cons_not_nil {A} (x : A) (l : list A) : x :: l ≠ [].
Proof. done. Qed.

Lemma plus_None {R} (class : N -> bool) (k : pystr -> pystr -> option R) s :
  ∀ g, plus class k g s = None ↔
       ∀ a b, s = a ++ b -> a ≠ [] -> forallb class a = true -> k (g ++ a) b = None.
Proof.
  induction s as [|c s IH]; intros g; cbn [plus].
  - split; [|done]. intros _ a b E Ha. by destruct a.
  - destruct (class c) eqn:Hc.
    + split.
      * intros H a b E Ha Hcls. destruct a as [|c' a]; [done|].
        simpl in E. injection E as <- ->.
        destruct (plus class k (g ++ [c]) (a ++ b)) eqn:Hp; [done|].
        destruct a as [|c'' a]; [exact H|].
        rewrite IH in Hp. cbn [forallb] in Hcls. apply andb_true_iff in Hcls as [_ Hcls].
        specialize (Hp (c'' :: a) b eq_refl (cons_not_nil _ _) Hcls).
        by rewrite <- app_assoc in Hp.
      * intros H.
        assert (plus class k (g ++ [c]) s = None) as ->.
        { apply IH. intros a b -> Ha Hcls. rewrite <- app_assoc.
          apply (H (c :: a) b); [done | done |]. simpl. by rewrite Hc. }
        apply (H [c] s); [done | done |]. simpl. by rewrite Hc.
    + split; [|done]. intros _ a b E Ha Hcls. destruct a as [|c' a]; [done|].
      simpl in E. injection E as <- ->. simpl in Hcls. by rewrite Hc in Hcls.
Qed.

Lemma plus_Some {R} (class : N -> bool) (k : pystr -> pystr -> option R) s :
  ∀ g r, plus class k g s = Some r ↔
         ∃ a b, s = a ++ b ∧ a ≠ [] ∧ forallb class a = true
                ∧ k (g ++ a) b = Some r
                ∧ ∀ a' b', s = a' ++ b' -> forallb class a' = true ->
                           (length a < length a')%nat -> k (g ++ a') b' = None.
Proof.
  induction s as [|c s IH]; intros g r; cbn [plus].
  - split; [done|]. intros (a & b & E & Ha & _). by destruct a.
  - destruct (class c) eqn:Hc.
    + destruct (plus class k (g ++ [c]) s) as [r'|] eqn:Hp.
      * apply IH in Hp as (a & b & -> & Ha & Hcls & Hk & Hmax). split.
        -- intros [= <-]. exists (c :: a), b. split; [done|]. split; [done|].
           split; [simpl; by rewrite Hc|]. split; [by rewrite <- app_assoc in Hk|].
           intros a' b' E Hcls' Hlen. destruct a' as [|c' a']; [simpl in Hlen; lia|].
           simpl in E. injection E as <- E. simpl in Hcls'.
           apply andb_true_iff in Hcls' as [_ Hcls']. simpl in Hlen.
           assert (length a < length a')%nat as Hlt by lia.
           specialize (Hmax a' b' E Hcls' Hlt). by rewrite <- app_assoc in Hmax.
        -- intros (a1 & b1 & E & Ha1 & Hcls1 & Hk1 & Hmax1).
           destruct a1 as [|c1 a1]; [done|]. simpl in E. injection E as <- E.
           simpl in Hcls1. apply andb_true_iff in Hcls1 as [_ Hcls1].
           destruct (Nat.lt_trichotomy (length a) (length a1)) as [Hlt|[Heq|Hgt]].
           ++ specialize (Hmax a1 b1 E Hcls1 Hlt). rewrite <- app_assoc in Hmax.
              simpl in Hmax. congruence.
           ++ apply app_inj_1 in E as [-> ->]; [|done].
              rewrite <- app_assoc in Hk. simpl in Hk. congruence.
           ++ specialize (Hmax1 (c :: a) b). simpl in Hmax1.
              rewrite E, Hc, Hcls in Hmax1.
              assert (S (length a1) < S (length a))%nat as Hlt by lia.
              specialize (Hmax1 eq_refl eq_refl Hlt).
              rewrite <- app_assoc in Hk. simpl in Hk. congruence.
      * rewrite plus_None in Hp. split.
        -- intros Hk. exists [c], s. split; [done|]. split; [done|].
           split; [simpl; by rewrite Hc|]. split; [done|].
           intros a' b' E Hcls' Hlen. destruct a' as [|c' a']; [simpl in Hlen; lia|].
           simpl in E. injection E as <- ->. simpl in Hcls'.
           apply andb_true_iff in Hcls' as [_ Hcls'].
           destruct a' as [|c'' a']; [simpl in Hlen; lia|].
           specialize (Hp (c'' :: a') b' eq_refl (cons_not_nil _ _) Hcls').
           by rewrite <- app_assoc in Hp.
        -- intros (a1 & b1 & E & Ha1 & Hcls1 & Hk1 & _).
           destruct a1 as [|c1 a1]; [done|]. simpl in E. injection E as <- ->.
           destruct a1 as [|c2 a1]; [done|].
           simpl in Hcls1. apply andb_true_iff in Hcls1 as [_ Hcls1].
           specialize (Hp (c2 :: a1) b1 eq_refl (cons_not_nil _ _) Hcls1).
           rewrite <- app_assoc in Hp. simpl in Hp. congruence.
    + split; [done|]. intros (a & b & E & Ha & Hcls & _).
      destruct a as [|c' a]; [done|]. simpl in E. injection E as <- ->.
      simpl in Hcls. by rewrite Hc in Hcls.
Qed.

Lemma htm_end_inv e :
  htm_end e = true ->
  ∃ h t m, h ≠ 46 ∧ (e = [46; h; t; m] ∨ e = [46; h; t; m; 10]).
Proof.
  destruct e as [|dot [|h [|t [|m [|nl [|x e]]]]]]; try done; simpl;
    rewrite !andb_true_iff, !orb_true_iff, !N.eqb_eq.
  - intros [[[-> Hh] _] _]. exists h, t, m. split; [|by left]. destruct Hh; lia.
  - intros [[[[-> Hh] _] _] ->]. exists h, t, m. split; [|by right]. destruct Hh; lia.
Qed.

(** The ending of the pattern fits a string in one place only. *)
Lemma htm_end_unique a e a' e' :
  a ++ e = a' ++ e' -> htm_end e = true -> htm_end e' = true -> a = a' ∧ e = e'.
Proof.
  intros E He He'.
  apply htm_end_inv in He as (h & t & m & Hh & [->| ->]);
    apply htm_end_inv in He' as (h' & t' & m' & Hh' & [->| ->]).
  - by apply app_inj_2 in E.
  - change (a' ++ [46; h'; t'; m'; 10]) with (a' ++ [46] ++ [h'; t'; m'; 10]) in E.
    rewrite app_assoc in E. apply app_inj_2 in E as [_ E]; [|done].
    injection E as E _. congruence.
  - change (a ++ [46; h; t; m; 10]) with (a ++ [46] ++ [h; t; m; 10]) in E.
    rewrite app_assoc in E. apply app_inj_2 in E as [_ E]; [|done].
    injection E as E _. congruence.
  - by apply app_inj_2 in E.
Qed.

Lemma htm_end_not_decimal c e : htm_end (c :: e) = true -> is_decimal c = false.
Proof.
  intros H. apply htm_end_inv in H as (h & t & m & _ & [E|E]); by injection E as ->.
Qed.

(** The second group and the ending, after a first group [g1]. *)
Lemma digits_then_end (g1 s : pystr) (r : pystr * pystr) :
  after_group1 g1 s = Some r
  ↔ ∃ g2 ending, r = (g1, g2) ∧ s = g2 ++ ending ∧ g2 ≠ []
                 ∧ forallb is_decimal g2 = true ∧ htm_end ending = true.
Proof.
  unfold after_group1. rewrite plus_Some. split.
  - intros (a & b & -> & Ha & Hcls & Hk & _). simpl in Hk.
    destruct (htm_end b) eqn:Hb; [|done]. injection Hk as <-. by exists a, b.
  - intros (g2 & ending & -> & -> & Hg & Hcls & He). exists g2, ending.
    split; [done|]. split; [done|]. split; [done|]. simpl. rewrite He.
    split; [done|]. intros a' b' E Hcls' Hlen.
    destruct (htm_end b') eqn:Hb'; [|done].
    apply htm_end_unique in E as [-> _]; [lia | done | done].
Qed.

Lemma digits_then_end_None (g1 s : pystr) :
  after_group1 g1 s = None
  ↔ ∀ g2 ending, s = g2 ++ ending -> g2 ≠ [] -> forallb is_decimal g2 = true ->
                 htm_end ending = false.
Proof.
  unfold after_group1. rewrite plus_None. split.
  - intros H g2 ending E Hg Hcls. specialize (H g2 ending E Hg Hcls). simpl in H.
    by destruct (htm_end ending).
  - intros H a b E Ha Hcls. simpl. by rewrite (H a b E Ha Hcls).
Qed.

(** X13: the two groups that line 138 takes from a link target are the
    only ones that fit the pattern with the first group as long as it can
    be. *)
Theorem match_href_gives_the_groups_of_the_pattern (href g1 g2 : pystr) :
  match_href href = Some (g1, g2) ↔ href_groups href g1 g2.
Proof.
  unfold match_href, href_groups. rewrite plus_Some. split.
  - intros (a & b & -> & Ha & Hcls & Hk & Hmax). simpl in Hk.
    apply digits_then_end in Hk as (g & ending & [= -> ->] & -> & Hg & Hdec & He).
    exists ending. do 6 (split; [done|]).
    intros c rest -> . destruct rest as [|c' rest]; [by left|]. right.
    destruct (code_char c) eqn:Hc; [|done].
    assert (after_group1 (a ++ [c]) ((c' :: rest) ++ ending) = None) as Hn.
    { apply (Hmax (a ++ [c]) ((c' :: rest) ++ ending)).
      - by rewrite <- !app_assoc.
      - rewrite forallb_app, Hcls. simpl. by rewrite Hc.
      - rewrite length_app. simpl. lia. }
    rewrite digits_then_end_None in Hn.
    simpl in Hdec. apply andb_true_iff in Hdec as [_ Hdec].
    specialize (Hn (c' :: rest) ending eq_refl (cons_not_nil _ _) Hdec). congruence.
  - intros (ending & -> & He & Hg1 & Hcls1 & Hg2 & Hdec & Hlong).
    exists g1, (g2 ++ ending). do 3 (split; [done|]). split.
    + simpl. apply digits_then_end. by exists g2, ending.
    + intros a' b' E Hcls' Hlen. simpl. apply digits_then_end_None.
      intros x e' -> Hx Hdx. destruct (htm_end e') eqn:He'; [|done].
      rewrite !app_assoc in E. apply htm_end_unique in E as [E _]; [|done|done].
      assert (∃ y, y ≠ [] ∧ a' = g1 ++ y ∧ g2 = y ++ x) as (y & Hy & -> & ->).
      { clear -E Hlen. revert a' E Hlen. induction g1 as [|c g1 IH]; intros a' E Hlen.
        - exists a'. split; [destruct a'; [simpl in Hlen; lia | done] | done].
        - destruct a' as [|c' a']; [simpl in Hlen; lia|].
          simpl in E. injection E as <- E. simpl in Hlen.
          destruct (IH a' E) as (y & ? & -> & ->); [lia|]. by exists y. }
      destruct y as [|c y]; [done|].
      rewrite forallb_app in Hcls'. apply andb_true_iff in Hcls' as [_ Hcy].
      simpl in Hcy. apply andb_true_iff in Hcy as [Hc _].
      destruct (Hlong c (y ++ x) eq_refl) as [Hnil|Hnc]; [|congruence].
      apply app_eq_nil in Hnil as [_ ->]. done.
Qed.

(** X14: line 138 matches nothing exactly when the link target cannot be
    cut into a first group, a second group and the ending at all. *)
Theorem match_href_fails_only_without_groups (href : pystr) :
  match_href href = None ↔
  ∀ g1 g2 ending,
    href = g1 ++ g2 ++ ending -> g1 ≠ [] -> forallb code_char g1 = true ->
    g2 ≠ [] -> forallb is_decimal g2 = true -> htm_end ending = false.
Proof.
  unfold match_href. rewrite plus_None. split.
  - intros H g1 g2 ending E Hg1 Hc1 Hg2 Hd2.
    specialize (H g1 (g2 ++ ending) E Hg1 Hc1). simpl in H.
    rewrite digits_then_end_None in H. by apply (H g2 ending).
  - intros H a b E Ha Hcls. simpl. apply digits_then_end_None.
    intros g2 ending -> Hg2 Hd2. by apply (H a g2 ending).
Qed.

End Pattern.

(** ** The index: chapter numbers and file names *)

Section Numerals.

Lemma c_isdigit_cases c :
  c_isdigit c = true ->
  c = 48 ∨ c = 49 ∨ c = 50 ∨ c = 51 ∨ c = 52 ∨ c = 53 ∨ c = 54 ∨ c = 55 ∨ c = 56 ∨ c = 57.
Proof. unfold c_isdigit. rewrite andb_true_iff, !N.leb_le. lia. Qed.

Ltac digit_cases c H :=
  apply c_isdigit_cases in H;
  destruct H as [->|[->|[->|[->|[->|[->|[->|[->|[->| ->]]]]]]]]].

Lemma u_string_of_uint_of_digits s :
  forallb c_isdigit s = true -> u (NilEmpty.string_of_uint (uint_of_digits s)) = s.
Proof.
  induction s as [|c s IH]; [done|]. cbn [forallb]. rewrite andb_true_iff.
  intros [Hc Hs]. specialize (IH Hs). unfold u in *.
  digit_cases c Hc; cbn; by rewrite IH.
Qed.

Lemma of_uint_acc_value s : ∀ acc,
  forallb c_isdigit s = true ->
  Z.pos (Pos.of_uint_acc (uint_of_digits s) acc)
  = fold_left (fun a d => (10 * a + Z.of_N (d - 48))%Z) s (Z.pos acc).
Proof.
  induction s as [|c s IH]; intros acc; [done|]. cbn [forallb]. rewrite andb_true_iff.
  intros [Hc Hs].
  digit_cases c Hc; cbn [uint_of_digits N.eqb Pos.eqb Pos.of_uint_acc fold_left];
    rewrite (IH _ Hs); f_equal; lia.
Qed.

Lemma of_uint_value s :
  forallb c_isdigit s = true ->
  Z.of_N (N.of_uint (uint_of_digits s)) = value_of s.
Proof.
  unfold value_of, N.of_uint.
  induction s as [|c s IH]; [done|]. cbn [forallb]. rewrite andb_true_iff.
  intros [Hc Hs].
  digit_cases c Hc; cbn [uint_of_digits N.eqb Pos.eqb Pos.of_uint fold_left];
    first [ exact (IH Hs) | cbn [Z.of_N]; rewrite (of_uint_acc_value _ _ Hs); f_equal ].
Qed.

Lemma string_of_unorm s :
  forallb c_isdigit s = true ->
  u (NilEmpty.string_of_uint (Decimal.unorm (uint_of_digits s)))
  = match without_leading_zeros s with [] => u "0" | t => t end.
Proof.
  induction s as [|c s IH]; [done|]. cbn [forallb]. rewrite andb_true_iff.
  intros [Hc Hs].
  pose proof (u_string_of_uint_of_digits s Hs) as Hstr.
  digit_cases c Hc; cbn [uint_of_digits without_leading_zeros N.eqb Pos.eqb];
    first [ exact (IH Hs) | unfold u in *; cbn; by rewrite Hstr ].
Qed.

Lemma without_leading_zeros_length s :
  (length (without_leading_zeros s) <= length s)%nat.
Proof.
  induction s as [|c s IH]; simpl; [done|]. destruct (c =? 48); simpl; lia.
Qed.

Lemma pad_without_leading_zeros s :
  s ≠ [] -> forallb c_isdigit s = true ->
  let t := match without_leading_zeros s with [] => u "0" | t => t end in
  List.repeat 48 (length s - length t) ++ t = s.
Proof.
  induction s as [|c s IH]; [done|]. intros _. cbn [forallb]. rewrite andb_true_iff.
  intros [Hc Hs]. cbn [without_leading_zeros].
  destruct (N.eqb_spec c 48) as [->|Hne].
  - destruct s as [|c' s]; [done|].
    specialize (IH (cons_not_nil _ _) Hs). cbv zeta in *.
    pose proof (without_leading_zeros_length (c' :: s)) as Hlen.
    destruct (without_leading_zeros (c' :: s)) as [|x t] eqn:E.
    + change (length (u "0")) with 1%nat in *.
      change (length (48 :: c' :: s)) with (S (length (c' :: s))).
      rewrite Nat.sub_succ_l by (simpl; lia).
      simpl. f_equal. exact IH.
    + change (length (48 :: c' :: s)) with (S (length (c' :: s))).
      rewrite Nat.sub_succ_l by exact Hlen.
      simpl. f_equal. exact IH.
  - cbv zeta. by rewrite Nat.sub_diag.
Qed.

(** Formatting the number that digits spell, to the width of the digits,
    gives the digits back. *)
Lemma zero_padded_value s :
  s ≠ [] -> forallb c_isdigit s = true ->
  zero_padded (length s) (Z.to_N (value_of s)) = s.
Proof.
  intros Hne Hs. unfold zero_padded, Walker.decimal.
  rewrite <- (of_uint_value s Hs), N2Z.id, DecimalN.Unsigned.to_of.
  rewrite (string_of_unorm s Hs). by apply pad_without_leading_zeros.
Qed.

Lemma mapM_to_ascii_digits s :
  forallb c_isdigit s = true -> mapM to_ascii s = Some s.
Proof.
  induction s as [|c s IH]; [done|]. cbn [forallb]. rewrite andb_true_iff.
  intros [Hc Hs]. cbn [mapM]. rewrite (IH Hs).
  digit_cases c Hc; reflexivity.
Qed.

Lemma digit_run_digits s : forallb c_isdigit s = true -> digit_run s = (s, []).
Proof.
  induction s as [|c s IH]; [done|]. cbn [forallb]. rewrite andb_true_iff.
  intros [Hc Hs]. cbn [digit_run]. by rewrite Hc, (IH Hs).
Qed.

Lemma underscores_ok_digits s b :
  forallb c_isdigit s = true ->
  underscores_ok b s = match s with [] => b | _ => true end.
Proof.
  revert b. induction s as [|c s IH]; intros b; [done|]. cbn [forallb].
  rewrite andb_true_iff. intros [Hc Hs]. cbn [underscores_ok].
  assert ((c =? underscore) = false) as -> by (digit_cases c Hc; reflexivity).
  rewrite (IH _ Hs). by destruct s.
Qed.

Lemma digits_of_digits s : forallb c_isdigit s = true -> digits_of s = s.
Proof.
  unfold digits_of. induction s as [|c s IH]; [done|]. cbn [forallb List.filter].
  rewrite andb_true_iff. intros [-> Hs]. by rewrite (IH Hs).
Qed.

(** [int] on a string of ASCII digits that is not empty. *)
Lemma int_ascii_digits s :
  s ≠ [] -> forallb c_isdigit s = true ->
  int s = if bool_decide (length s <= int_max_str_digits)%nat
          then Some (value_of s) else None.
Proof.
  intros Hne Hs. unfold int. rewrite (mapM_to_ascii_digits s Hs).
  destruct s as [|c s]; [done|]. cbn [forallb] in Hs.
  pose proof Hs as Hs'. apply andb_true_iff in Hs' as [Hc Hs'].
  assert (skip_spaces (c :: s) = c :: s) as ->
    by (digit_cases c Hc; reflexivity).
  assert (∀ A (x y z : A),
            match c :: s with 43 :: _ => x | 45 :: _ => y | _ => z end = z) as Hsign
    by (intros; digit_cases c Hc; reflexivity).
  assert ((let '(negative, t) :=
             match c :: s with
             | 43 :: t' => (false, t')
             | 45 :: t' => (true, t')
             | _ => (false, c :: s)
             end in
           let '(r, rest) := digit_run t in
           if underscores_ok false r && bool_decide (skip_spaces rest = [])
              && bool_decide (length (digits_of r) <= int_max_str_digits)%nat
           then Some (if negative then (- value_of (digits_of r))%Z
                      else value_of (digits_of r))
           else None)
          = (let '(r, rest) := digit_run (c :: s) in
             if underscores_ok false r && bool_decide (skip_spaces rest = [])
                && bool_decide (length (digits_of r) <= int_max_str_digits)%nat
             then Some (value_of (digits_of r)) else None)) as ->
    by (digit_cases c Hc; reflexivity).
  rewrite (digit_run_digits (c :: s)) by done.
  rewrite (underscores_ok_digits (c :: s)) by done.
  rewrite (digits_of_digits (c :: s)) by done. done.
Qed.

Lemma uint_of_digits_string d :
  uint_of_digits (u (NilEmpty.string_of_uint d)) = d.
Proof. induction d; [done|..]; unfold u in *; cbn; by rewrite IHd. Qed.

Lemma string_of_uint_digits d :
  forallb c_isdigit (u (NilEmpty.string_of_uint d)) = true.
Proof. induction d; [done|..]; unfold u in *; cbn; exact IHd. Qed.

Lemma decimal_digits n : forallb c_isdigit (Walker.decimal n) = true.
Proof. apply string_of_uint_digits. Qed.

Lemma decimal_not_empty n : Walker.decimal n ≠ [].
Proof.
  unfold Walker.decimal. destruct n as [|p]; [done|]. simpl.
  pose proof (DecimalPos.Unsigned.to_uint_nonnil p) as H.
  by destruct (Pos.to_uint p).
Qed.

Lemma value_of_decimal n : value_of (Walker.decimal n) = Z.of_N n.
Proof.
  rewrite <- (of_uint_value _ (decimal_digits n)). unfold Walker.decimal.
  by rewrite uint_of_digits_string, DecimalN.Unsigned.of_to.
Qed.

Lemma value_of_zeros k s : value_of (List.repeat 48 k ++ s) = value_of s.
Proof. unfold value_of. induction k as [|k IH]; [done|]. exact IH. Qed.

Lemma zero_padded_digits p n : forallb c_isdigit (zero_padded p n) = true.
Proof.
  unfold zero_padded. rewrite forallb_app, decimal_digits, andb_true_r.
  by induction (p - length (Walker.decimal n))%nat.
Qed.

Lemma zero_padded_not_empty p n : zero_padded p n ≠ [].
Proof.
  unfold zero_padded. intros H. apply app_eq_nil in H as [_ H].
  by apply decimal_not_empty in H.
Qed.

Lemma value_of_zero_padded p n : value_of (zero_padded p n) = Z.of_N n.
Proof. unfold zero_padded. by rewrite value_of_zeros, value_of_decimal. Qed.

Lemma zero_padded_inj p n m : zero_padded p n = zero_padded p m -> n = m.
Proof.
  intros H. apply (f_equal value_of) in H. rewrite !value_of_zero_padded in H. lia.
Qed.

Lemma decimal_inj n m : Walker.decimal n = Walker.decimal m -> n = m.
Proof.
  intros H. apply (f_equal value_of) in H. rewrite !value_of_decimal in H. lia.
Qed.

(** X15: [int] reads back what [f"{n:0{padding}d}"] writes, as long as the
    numeral is within the digit limit of [int]. *)
Theorem int_reads_back_a_zero_padded_number (padding : nat) (n : N) :
  (length (zero_padded padding n) <= int_max_str_digits)%nat ->
  int (zero_padded padding n) = Some (Z.of_N n).
Proof.
  intros Hlen.
  rewrite int_ascii_digits
    by (apply zero_padded_not_empty || apply zero_padded_digits).
  by rewrite bool_decide_eq_true_2, value_of_zero_padded.
Qed.

Lemma path_join_cons a c b :
  path_join a (c :: b)
  = if c =? 47 then c :: b
    else match last a with
         | None | Some 47 => a ++ c :: b
         | Some _ => a ++ u "/" ++ c :: b
         end.
Proof.
  destruct (N.eqb_spec c 47) as [->|H]; [done|].
  unfold path_join.
  destruct c as [|p]; [done|].
  do 6 (destruct p as [p|p|]; try reflexivity); by destruct H.
Qed.

Lemma path_join_inj a c b b' :
  path_join a (c :: b) = path_join a (c :: b') -> b = b'.
Proof.
  rewrite !path_join_cons. destruct (c =? 47); [by intros [= ->]|].
  destruct (last a) as [x|].
  - destruct (x =? 47) eqn:Hx.
    + apply N.eqb_eq in Hx as ->. intros H. apply app_inv_head in H. by injection H.
    + assert (∀ y : pystr,
                match x with 47 => a ++ y | _ => a ++ u "/" ++ y end = a ++ u "/" ++ y)
        as Hm.
      { intros y. destruct x as [|p]; [done|].
        do 6 (destruct p as [p|p|]; try reflexivity); done. }
      rewrite !Hm. intros H. apply app_inv_head in H. by injection H.
  - intros H. apply app_inv_head in H. by injection H.
Qed.

(** X16: two chapter numbers of a book never share a chapter file, nor a
    JSON file. *)
Theorem chapter_numbers_have_files_of_their_own
        (base_dir output_dir book_name base_code : pystr) (padding : nat) (n m : N) :
  (chapter_filepath base_dir base_code padding n
   = chapter_filepath base_dir base_code padding m -> n = m)
  ∧ (output_json_path output_dir book_name n
     = output_json_path output_dir book_name m -> n = m).
Proof.
  split.
  - unfold chapter_filepath. intros H. apply (zero_padded_inj padding).
    destruct base_code as [|c code].
    + pose proof (zero_padded_not_empty padding n) as Hn.
      pose proof (zero_padded_not_empty padding m) as Hm.
      pose proof (zero_padded_digits padding n) as Dn.
      pose proof (zero_padded_digits padding m) as Dm.
      destruct (zero_padded padding n) as [|x xs]; [done|].
      destruct (zero_padded padding m) as [|y ys]; [done|].
      cbn [app] in H. rewrite !path_join_cons in H.
      cbn [forallb] in Dn, Dm. apply andb_true_iff in Dn as [Dx _], Dm as [Dy _].
      assert ((x =? 47) = false) as Hx by (apply N.eqb_neq; apply c_isdigit_cases in Dx; lia).
      assert ((y =? 47) = false) as Hy by (apply N.eqb_neq; apply c_isdigit_cases in Dy; lia).
      rewrite Hx, Hy in H.
      assert (x :: xs ++ u ".htm" = y :: ys ++ u ".htm") as H'.
      { destruct (last base_dir) as [z|].
        - destruct (z =? 47) eqn:Hz.
          + apply N.eqb_eq in Hz as ->. by apply app_inv_head in H.
          + assert (∀ w : pystr,
                      match z with 47 => base_dir ++ w | _ => base_dir ++ u "/" ++ w end
                      = base_dir ++ u "/" ++ w) as Hmz.
            { intros w. destruct z as [|q]; [done|].
              do 6 (destruct q as [q|q|]; try reflexivity); done. }
            rewrite !Hmz in H. apply app_inv_head in H. by apply app_inv_head in H.
        - by apply app_inv_head in H. }
      change (x :: xs ++ u ".htm") with ((x :: xs) ++ u ".htm") in H'.
      change (y :: ys ++ u ".htm") with ((y :: ys) ++ u ".htm") in H'.
      by apply app_inv_tail in H'.
    + cbn [app] in H. apply path_join_inj in H.
      apply app_inv_head in H. by apply app_inv_tail in H.
  - unfold output_json_path. intros H. apply decimal_inj.
    pose proof (decimal_not_empty n) as Hn. pose proof (decimal_not_empty m) as Hm.
    pose proof (decimal_digits n) as Dn. pose proof (decimal_digits m) as Dm.
    destruct (Walker.decimal n) as [|x xs]; [done|].
    destruct (Walker.decimal m) as [|y ys]; [done|].
    cbn [app] in H. rewrite !path_join_cons in H.
    cbn [forallb] in Dn, Dm. apply andb_true_iff in Dn as [Dx _], Dm as [Dy _].
    assert ((x =? 47) = false) as Hx by (apply N.eqb_neq; apply c_isdigit_cases in Dx; lia).
    assert ((y =? 47) = false) as Hy by (apply N.eqb_neq; apply c_isdigit_cases in Dy; lia).
    rewrite Hx, Hy in H.
    assert (x :: xs ++ u ".json" = y :: ys ++ u ".json") as H'.
    { destruct (last (book_dir_path output_dir book_name)) as [z|].
      - destruct (z =? 47) eqn:Hz.
        + apply N.eqb_eq in Hz as ->. by apply app_inv_head in H.
        + assert (∀ w : pystr,
                    match z with
                    | 47 => book_dir_path output_dir book_name ++ w
                    | _ => book_dir_path output_dir book_name ++ u "/" ++ w
                    end = book_dir_path output_dir book_name ++ u "/" ++ w) as Hmz.
          { intros w. destruct z as [|q]; [done|].
            do 6 (destruct q as [q|q|]; try reflexivity); done. }
          rewrite !Hmz in H. apply app_inv_head in H. by apply app_inv_head in H.
      - by apply app_inv_head in H. }
    change (x :: xs ++ u ".json") with ((x :: xs) ++ u ".json") in H'.
    change (y :: ys ++ u ".json") with ((y :: ys) ++ u ".json") in H'.
    by apply app_inv_tail in H'.
Qed.

(** ** Decimal digits of other scripts *)

Lemma is_decimal_enum c : is_decimal c = true -> In c decimal_characters.
Proof.
  unfold is_decimal, todecimal.
  destruct (List.find _ decimal_zeros) as [z|] eqn:E; [|done]. intros _.
  apply find_some in E as [Hz Hc]. apply andb_true_iff in Hc as [H1 H2].
  apply N.leb_le in H1. apply N.ltb_lt in H2.
  unfold decimal_characters. apply in_flat_map. exists z. split; [done|].
  replace c with (z + (c - z)) by lia.
  apply in_map.
  assert (c - z = 0 ∨ c - z = 1 ∨ c - z = 2 ∨ c - z = 3 ∨ c - z = 4 ∨ c - z = 5
          ∨ c - z = 6 ∨ c - z = 7 ∨ c - z = 8 ∨ c - z = 9) as Hd by lia.
  repeat (destruct Hd as [->|Hd]; [simpl; auto 12|]). rewrite Hd. simpl; auto 12.
Qed.

Lemma decimal_characters_read :
  forallb (fun c => match to_ascii c with
                    | Some a => (a =? ascii_digit c) && c_isdigit a
                    | None => false
                    end) decimal_characters = true.
Proof. vm_compute. reflexivity. Qed.

Lemma to_ascii_decimal c :
  is_decimal c = true ->
  to_ascii c = Some (ascii_digit c) ∧ c_isdigit (ascii_digit c) = true.
Proof.
  intros H. apply is_decimal_enum in H.
  pose proof decimal_characters_read as Hall. rewrite forallb_forall in Hall.
  specialize (Hall c H). destruct (to_ascii c) as [a|]; [|done].
  apply andb_true_iff in Hall as [Ha Hd]. apply N.eqb_eq in Ha. by subst a.
Qed.

Lemma ascii_digit_digit c : c_isdigit c = true -> ascii_digit c = c.
Proof. intros H. digit_cases c H; reflexivity. Qed.

Lemma map_ascii_digit_digits s :
  forallb c_isdigit s = true -> List.map ascii_digit s = s.
Proof.
  induction s as [|c s IH]; [done|]. cbn [forallb List.map].
  rewrite andb_true_iff. intros [Hc Hs]. by rewrite (ascii_digit_digit c Hc), (IH Hs).
Qed.

Lemma mapM_to_ascii_decimal s :
  forallb is_decimal s = true ->
  mapM to_ascii s = Some (List.map ascii_digit s)
  ∧ forallb c_isdigit (List.map ascii_digit s) = true.
Proof.
  induction s as [|c s IH]; [done|]. cbn [forallb List.map mapM].
  rewrite andb_true_iff. intros [Hc Hs].
  destruct (IH Hs) as [-> ->]. destruct (to_ascii_decimal c Hc) as [-> ->]. done.
Qed.

(** [int] reads a string as it reads its ASCII form. *)
Lemma int_ascii_form s t :
  mapM to_ascii s = Some t -> mapM to_ascii t = Some t -> int s = int t.
Proof. intros Hs Ht. unfold int. by rewrite Hs, Ht. Qed.

Lemma value_of_not_negative s : (0 <= value_of s)%Z.
Proof.
  unfold value_of.
  assert (∀ acc, (0 <= acc)%Z ->
                 (0 <= fold_left (fun a d => 10 * a + Z.of_N (d - 48)) s acc)%Z) as H.
  { induction s as [|c s IH]; intros acc Hacc; simpl; [done|]. apply IH. lia. }
  by apply H.
Qed.

(** [int] on a string of decimal digits of any script that is not empty. *)
Lemma int_decimal_digits s :
  s ≠ [] -> forallb is_decimal s = true ->
  int s = if bool_decide (length s <= int_max_str_digits)%nat
          then Some (value_of (List.map ascii_digit s)) else None.
Proof.
  intros Hne Hs. destruct (mapM_to_ascii_decimal s Hs) as [Hm Hd].
  rewrite (int_ascii_form s _ Hm (mapM_to_ascii_digits _ Hd)).
  rewrite int_ascii_digits; [by rewrite length_map | by destruct s | done].
Qed.

End Numerals.

(** ** The index: books and the run *)

Section Books.
Variable raises : operation -> bool.
Variable BeautifulSoup : pystr -> option node.
Variable fs : filesystem.
Variable path_exists : pystr -> bool.
Variable stdout : pystr -> bool.
Variables base_dir output_dir : pystr.

Lemma match_href_parts href g1 g2 :
  match_href href = Some (g1, g2) ->
  g1 ≠ [] ∧ forallb code_char g1 = true ∧ g2 ≠ [] ∧ forallb is_decimal g2 = true
  ∧ ∃ ending, href = g1 ++ g2 ++ ending ∧ htm_end ending = true.
Proof.
  unfold match_href. rewrite plus_Some. intros (a & b & -> & Ha & Hcls & Hk & _).
  apply digits_then_end in Hk as (g & ending & [= <- <-] & -> & Hg & Hdec & Hend).
  repeat split; try done. by exists ending.
Qed.

(** What a link with a target that fits the pattern is read as. *)
Lemma read_link_matched link href g1 g2 :
  get (u "href") link = Some (AStr href) ->
  match_href href = Some (g1, g2) ->
  read_link link
  = if oo_or_nn (get (u "class") link)
       && negb (bool_decide (get_text_strip link = []))
    then if bool_decide (length g2 <= int_max_str_digits)%nat
         then Book (get_text_strip link) (upper g1) (length g2)
                   (Z.to_N (value_of (List.map ascii_digit g2)))
         else Raises
    else NotABook.
Proof.
  intros Hhref Hmatch. unfold read_link. rewrite Hhref, Hmatch.
  destruct (match_href_parts _ _ _ Hmatch) as (Hg1 & _ & Hg2 & Hdec & ending & -> & _).
  rewrite (int_decimal_digits g2 Hg2 Hdec).
  destruct (oo_or_nn (get (u "class") link)); [|done].
  destruct (bool_decide (get_text_strip link = [])); [done|]. simpl.
  rewrite bool_decide_eq_false_2 by (by destruct g1).
  by case_bool_decide.
Qed.

(** X17: the first chapter file the loop opens for a book is named by the
    target of its link: the book code in upper case, the digits of the
    chapter number as ASCII digits, and the ending as [.htm].  With ASCII
    digits in the target, the digits are the target's own. *)
Theorem first_chapter_file_is_the_link_target
        (link : node) (href g1 g2 book_name base_code : pystr)
        (padding : nat) (start_chapter : N) :
  get (u "href") link = Some (AStr href) ->
  match_href href = Some (g1, g2) ->
  read_link link = Book book_name base_code padding start_chapter ->
  chapter_filepath base_dir base_code padding start_chapter
  = path_join base_dir (upper g1 ++ List.map ascii_digit g2 ++ u ".htm")
  ∧ (forallb c_isdigit g2 = true -> List.map ascii_digit g2 = g2).
Proof.
  intros Hhref Hmatch. rewrite (read_link_matched _ _ _ _ Hhref Hmatch).
  destruct (match_href_parts _ _ _ Hmatch) as (_ & _ & Hg2 & Hdec & _).
  destruct (mapM_to_ascii_decimal g2 Hdec) as [_ Hd].
  destruct (_ && _); [|done]. case_bool_decide; [|done]. intros [= _ <- <- <-].
  split; [|apply map_ascii_digit_digits].
  unfold chapter_filepath. rewrite <- (length_map ascii_digit g2).
  rewrite zero_padded_value; [done | by destruct g2 | done].
Qed.

Lemma book_loop_counts fuel links : ∀ b c tr b' c' tr',
  book_loop raises BeautifulSoup fs stdout base_dir output_dir fuel links b c tr
  = Some (RunFinished b' c' tr') ->
  ∃ new, tr' = tr ++ new ∧ c' = (c + length (written new))%nat
         ∧ (b <= b')%nat ∧ (b' + c <= b + c')%nat.
Proof.
  induction links as [|link links IH]; intros b c tr b' c' tr'; cbn [book_loop].
  - intros [= <- <- <-]. exists []. rewrite List.app_nil_r. simpl.
    split; [done|]. lia.
  - destruct (read_link link) as [| |name code padding start]; [apply IH | done |].
    destruct (negb (stdout (processing_book_message name))); [done|].
    destruct (chapter_loop _ _ _ _ _ _ _ _ _ _ _ _) as [[n tr1]|] eqn:E; [|done].
    apply loop_counts in E as (new1 & -> & ->). simpl.
    case_bool_decide as Hn.
    + destruct (negb (stdout (finished_book_message name _))); [done|].
      intros H. apply IH in H as (new & -> & -> & Hb & Hc).
      exists (new1 ++ new). rewrite written_app, length_app, <- app_assoc.
      split; [done|]. lia.
    + intros H. apply IH in H as (new & -> & -> & Hb & Hc).
      exists (new1 ++ new). rewrite written_app, length_app, <- app_assoc.
      split; [done|]. lia.
Qed.

(** X18: when a run ends well, the total it reports is the number of JSON
    files it wrote, and no more books are counted than files were written. *)
Theorem run_total_is_the_number_of_files_written
        (fuel books chapters : nat) (trace : list event) :
  process_and_save_books raises BeautifulSoup fs path_exists stdout base_dir output_dir
                         fuel
  = Some (RunFinished books chapters trace) ->
  chapters = length (written trace) ∧ (books <= chapters)%nat.
Proof.
  unfold process_and_save_books.
  destruct (negb (path_exists _)); [done|].
  destruct (makedirs fs output_dir); [|done|done].
  destruct (open_read fs _) as [| |h]; [done | done |].
  destruct (BeautifulSoup h) as [soup|]; [|done].
  destruct (find _ soup) as [container|]; [|done].
  intros H. apply book_loop_counts in H as (new & -> & -> & Hb & Hc).
  rewrite written_app. simpl. lia.
Qed.

(** The standard output takes the two messages about every book of [links]. *)
Lemma book_loop_finishes fuel links : ∀ b c tr r,
  (∀ link, link ∈ links -> read_link link ≠ Raises) ->
  (∀ link book_name base_code padding start_chapter n,
      link ∈ links ->
      read_link link = Book book_name base_code padding start_chapter ->
      stdout (processing_book_message book_name) = true
      ∧ stdout (finished_book_message book_name n) = true) ->
  book_loop raises BeautifulSoup fs stdout base_dir output_dir fuel links b c tr
  = Some r ->
  ∃ b' c' tr', r = RunFinished b' c' tr'.
Proof.
  induction links as [|link links IH]; intros b c tr r Hok Hout; cbn [book_loop].
  - intros [= <-]. by eexists _, _, _.
  - pose proof (Hok link (list_elem_of_here _ _)) as Hl.
    pose proof (λ name code padding start n,
                 Hout link name code padding start n (list_elem_of_here _ _)) as Ho.
    assert (∀ l, l ∈ links -> read_link l ≠ Raises) as Hok'
      by (intros l Hin; apply Hok; by apply list_elem_of_further).
    assert (∀ l name code padding start n,
               l ∈ links -> read_link l = Book name code padding start ->
               stdout (processing_book_message name) = true
               ∧ stdout (finished_book_message name n) = true) as Hout'
      by (intros l name code padding start n Hin; apply Hout;
          by apply list_elem_of_further).
    destruct (read_link link) as [| |name code padding start]; [by apply IH | done |].
    rewrite (proj1 (Ho name code padding start O eq_refl)). cbn [negb].
    destruct (chapter_loop _ _ _ _ _ _ _ _ _ _ _ _) as [[n tr1]|]; [|done].
    rewrite (proj2 (Ho name code padding start n eq_refl)). cbn [negb].
    case_bool_decide; by apply IH.
Qed.

(** X19: no failure inside a book makes the run fail: once the index is
    read and its book list found, no link of it has a target that is not a
    string or a chapter number beyond the limit of [int], and the standard
    output takes the two messages about every book, a run that ends returns
    [True], whatever reading, directory making and writing do for the
    chapters. *)
Theorem run_survives_the_failures_of_books
        (fuel : nat) (index_html : pystr) (index_soup : node)
        (book_list_container : element) (r : run_result) :
  path_exists (path_join base_dir (u "index.htm")) = true ->
  makedirs fs output_dir = Made ->
  open_read fs (path_join base_dir (u "index.htm")) = Contents index_html ->
  BeautifulSoup index_html = Some index_soup ->
  find (matches (u "div") (u "bookList")) index_soup = Some book_list_container ->
  (∀ link, link ∈ find_all_links (el book_list_container) -> read_link link ≠ Raises) ->
  (∀ link book_name base_code padding start_chapter n,
      link ∈ find_all_links (el book_list_container) ->
      read_link link = Book book_name base_code padding start_chapter ->
      stdout (processing_book_message book_name) = true
      ∧ stdout (finished_book_message book_name n) = true) ->
  process_and_save_books raises BeautifulSoup fs path_exists stdout base_dir output_dir
                         fuel = Some r ->
  ∃ books chapters trace, r = RunFinished books chapters trace.
Proof.
  intros Hex Hmk Hopen Hparse Hfind Hlinks Hout. unfold process_and_save_books.
  rewrite Hex, Hmk, Hopen, Hparse, Hfind. simpl.
  by apply book_loop_finishes.
Qed.

End Books.
(** ** The mapping: which text a number holds *)

Lemma last_recorded_split k ms t :
  last_recorded k ms = Some t ↔
  ∃ pre m post,
    ms = pre ++ m :: post
    ∧ int (fst m) = Some k ∧ normalize (snd m) = t ∧ t ≠ []
    ∧ ∀ m', m' ∈ post -> int (fst m') = Some k -> normalize (snd m') = [].
Proof.
  split.
  - induction ms as [|a ms IH]; [done|].
    rewrite last_recorded_cons. destruct (last_recorded k ms) as [t'|] eqn:E.
    + intros [= ->]. destruct (IH eq_refl) as (pre & m & post & -> & H).
      by exists (a :: pre), m, post.
    + unfold recordable. do 2 case_bool_decide; try done. simpl. intros [= <-].
      exists [], a, ms. repeat split; try done. by apply last_recorded_None.
  - intros (pre & m & post & -> & Hk & <- & Hne & Hpost).
    change (pre ++ m :: post) with (pre ++ [m] ++ post).
    rewrite !last_recorded_app.
    rewrite (proj2 (last_recorded_None k post) Hpost).
    destruct m as [lab parts]. rewrite (last_recorded_one k lab parts Hk).
    by rewrite bool_decide_eq_false_2.
Qed.

(** X20: the text a returned mapping holds under a number is the normalized
    text of the last marker labelled with that number whose text is not
    empty: later markers of the same number with an empty text do not touch
    it, and nothing else is held under that number. *)
Theorem a_number_holds_its_last_text_that_is_not_empty
        (raises : operation -> bool)
        (soup : node) (d : gmap Z pystr) (k : Z) (t : pystr) :
  extract_from_soup raises soup = Some d ->
  d !! k = Some t ↔
  ∃ pre m post,
    markers soup = pre ++ m :: post
    ∧ int (fst m) = Some k ∧ normalize (snd m) = t ∧ t ≠ []
    ∧ ∀ m', m' ∈ post -> int (fst m') = Some k -> normalize (snd m') = [].
Proof.
  intros E. rewrite (extract_lookup raises soup d k E). apply last_recorded_split.
Qed.
(** ** Markers inside the footnote or the copyright div *)

Section Zones.

Lemma find_all_passes p order v chain :
  In (v, chain) (find_all p order) -> p v = true.
Proof.
  induction order as [|e order IH]; simpl; [done|].
  destruct (p e) eqn:E; simpl; [|done].
  by intros [[= <- <-]|H]; [|apply IH].
Qed.

Lemma children_from_split {A} (f : nat -> node -> list A) cs :
  ∀ i pre (x : A) chain,
    children_from f i cs = pre ++ x :: chain ->
    ∃ j c pre' chain' after,
      cs !! j = Some c ∧ f (i + j)%nat c = pre' ++ x :: chain'
      ∧ chain = chain' ++ after.
Proof.
  induction cs as [|c cs IH]; intros i pre x chain; cbn [children_from].
  - by destruct pre.
  - intros H. apply app_eq_app in H as [l [[H1 H2]|[H1 H2]]].
    + destruct l as [|y l].
      * rewrite List.app_nil_r in H1. simpl in H2. symmetry in H2.
        apply (IH (S i) [] x chain) in H2
          as (j & c' & pre' & chain' & after & Hj & Hf & ->).
        exists (S j), c', pre', chain', after.
        by rewrite Nat.add_succ_r.
      * injection H2 as <- ->.
        exists O, c, pre, l, (children_from f (S i) cs).
        by rewrite Nat.add_0_r.
    + apply (IH (S i) l x chain) in H2
        as (j & c' & pre' & chain' & after & Hj & Hf & ->).
      exists (S j), c', pre', chain', after.
      by rewrite Nat.add_succ_r.
Qed.

(** What follows a tag with children in document order is its first child. *)
Lemma elements_first_child n :
  ∀ p ups pre v chain name attrs c cs,
    elements p ups n = pre ++ v :: chain ->
    el v = Tag name attrs (c :: cs) ->
    ∃ rest, chain = Element (path v ++ [O]) c (el v :: parents v) :: rest.
Proof.
  induction n as [k s|name0 attrs0 cs0 IH] using node_induction;
    intros p ups pre v chain name attrs c cs.
  - simpl. destruct pre as [|e pre].
    + by intros [= <- <-].
    + intros [= _ H]. by destruct pre.
  - cbn [elements]. destruct pre as [|e pre].
    + intros [= <- <-]. cbn [el]. intros [= -> -> ->].
      cbn [children_from path parents el]. destruct c; cbn [elements app]; by eexists.
    + intros [= _ H] Hv.
      apply children_from_split in H
        as (j & cj & pre' & chain' & after & Hj & Hf & ->).
      rewrite Forall_forall in IH.
      destruct (IH cj (list_elem_of_lookup_2 _ _ _ Hj) _ _ _ _ _ _ _ _ _ Hf Hv)
        as [rest ->].
      by eexists.
Qed.

Lemma get_text_strip_no_children name attrs : get_text_strip (Tag name attrs []) = [].
Proof. reflexivity. Qed.

(** X21: in a document whose tags have distinct attribute keys, a verse
    marker with a label that lies inside the footnote div or the copyright
    div collects nothing: its walk breaks at its first step. *)
Theorem marker_inside_a_zone_collects_nothing
        (soup : node) (mc : element) (i : nat) (v z : element)
        (chain : list element) :
  distinct_keys soup = true ->
  main_content soup = Some mc ->
  verse_tags soup mc !! i = Some (v, chain) ->
  get_text_strip (el v) ≠ [] ->
  z ∈ document_order soup mc ->
  footnote_div soup mc = Some (el z) ∨ copyright_div soup mc = Some (el z) ->
  inside z v = true ->
  markers soup !! i = Some (get_text_strip (el v), []).
Proof.
  intros Hd Hmc Hi Hlab Hz Hzone Hin.
  unfold markers. rewrite Hmc, (outcomes_lookup _ _ _ _ _ _ Hi). do 2 f_equal.
  apply list_elem_of_In in Hz.
  pose proof (node_eqb_refl (el z) (distinct_keys_document_order _ _ _ Hd Hz)) as Hrefl.
  apply list_elem_of_lookup_2, list_elem_of_In in Hi.
  pose proof (find_all_passes _ _ _ _ Hi) as Hpass.
  apply in_find_all in Hi as [pre Horder].
  assert (In v (document_order soup mc)) as Hv
    by (rewrite Horder; apply in_app_iff; right; by left).
  destruct (el v) as [k s|name attrs [|c cs]] eqn:Ev.
  - unfold in_main, matches, has_name in Hpass. rewrite Ev in Hpass.
    by rewrite andb_false_r in Hpass.
  - by destruct Hlab.
  - destruct (elements_first_child _ _ _ _ _ _ _ _ _ _ Horder Ev) as [rest ->].
    cbn [walk]. unfold breaks, is_in_excluded_section. cbn [parents].
    apply bool_decide_eq_true in Hin.
    assert (In (el z) (el v :: parents v)) as Hup.
    { destruct (elements_ancestor _ _ _ _ _ Hv Hz Hin) as [->|H]; [by left | by right]. }
    assert (∀ x, x = Some (el z) -> existsb (eq_some x) (el v :: parents v) = true)
      as Hex.
    { intros x ->. apply existsb_exists. by exists (el z). }
    destruct Hzone as [Hf|Hc].
    + by rewrite (Hex _ Hf), !orb_true_r.
    + by rewrite (Hex _ Hc), !orb_true_r.
Qed.

End Zones.
(** ** The run: links that are no books, and links that raise *)

Section Links.
Variable raises : operation -> bool.
Variable BeautifulSoup : pystr -> option node.
Variable fs : filesystem.
Variable path_exists : pystr -> bool.
Variable stdout : pystr -> bool.
Variables base_dir output_dir : pystr.

#[local] Abbreviation books :=
  (book_loop raises BeautifulSoup fs stdout base_dir output_dir).
#[local] Abbreviation run :=
  (process_and_save_books raises BeautifulSoup fs path_exists stdout base_dir output_dir).

(** The loop over two lists of links is the loop over the second after the
    loop over the first, unless that one fails. *)
Lemma book_loop_app fuel links1 links2 : ∀ b c tr,
  books fuel (links1 ++ links2) b c tr
  = match books fuel links1 b c tr with
    | Some (RunFinished b' c' tr') => books fuel links2 b' c' tr'
    | other => other
    end.
Proof.
  induction links1 as [|link links1 IH]; intros b c tr; [done|].
  cbn [app book_loop].
  destruct (read_link link) as [| |name code padding start]; [apply IH | done |].
  destruct (negb (stdout (processing_book_message name))); [done|].
  destruct (chapter_loop _ _ _ _ _ _ _ _ _ _ _ _) as [[n tr1]|]; [|done].
  case_bool_decide; [|apply IH].
  destruct (negb (stdout (finished_book_message name n))); [done | apply IH].
Qed.

Lemma book_loop_fails fuel links : ∀ b c tr why tr',
  books fuel links b c tr = Some (RunFailed why tr') -> why = IndexProcessingError.
Proof.
  induction links as [|link links IH]; intros b c tr why tr'; cbn [book_loop]; [done|].
  destruct (read_link link) as [| |name code padding start];
    [apply IH | by intros [= <- _] |].
  destruct (negb (stdout (processing_book_message name))); [by intros [= <- _]|].
  destruct (chapter_loop _ _ _ _ _ _ _ _ _ _ _ _) as [[n tr1]|]; [|done].
  case_bool_decide; [|apply IH].
  destruct (negb (stdout (finished_book_message name n)));
    [by intros [= <- _] | apply IH].
Qed.

Lemma book_loop_no_books fuel links : ∀ b c tr,
  (∀ link, link ∈ links -> read_link link = NotABook) ->
  books fuel links b c tr = Some (RunFinished b c tr).
Proof.
  induction links as [|link links IH]; intros b c tr Hno; [done|].
  cbn [book_loop]. rewrite (Hno link) by apply list_elem_of_here.
  apply IH. intros l Hl. apply Hno. by apply list_elem_of_further.
Qed.

(** X22: an exception on a link of the book list makes the run return
    [False], and leaves written what the books before that link wrote. *)
Theorem exception_on_a_link_fails_the_run_after_the_books_before
        (fuel : nat) (index_html : pystr) (index_soup : node)
        (book_list_container : element) (before after : list node) (link : node)
        (processed saved : nat) (trace : list event) :
  path_exists (path_join base_dir (u "index.htm")) = true ->
  makedirs fs output_dir = Made ->
  open_read fs (path_join base_dir (u "index.htm")) = Contents index_html ->
  BeautifulSoup index_html = Some index_soup ->
  find (matches (u "div") (u "bookList")) index_soup = Some book_list_container ->
  find_all_links (el book_list_container) = before ++ link :: after ->
  books fuel before O O [MadeDir output_dir] = Some (RunFinished processed saved trace) ->
  read_link link = Raises ->
  run fuel = Some (RunFailed IndexProcessingError trace)
  ∧ length (written trace) = saved.
Proof.
  intros Hex Hmk Hopen Hparse Hfind Hlinks Hbefore Hraise.
  unfold process_and_save_books.
  rewrite Hex, Hmk, Hopen, Hparse, Hfind, Hlinks. simpl.
  rewrite book_loop_app, Hbefore. cbn [book_loop]. rewrite Hraise.
  split; [done|].
  apply book_loop_counts in Hbefore as (new & -> & -> & _).
  by rewrite written_app.
Qed.

(** X23: an index none of whose links is a book gives [True] with nothing
    saved: the output directory is made and that is all. *)
Theorem run_without_books_saves_nothing
        (fuel : nat) (index_html : pystr) (index_soup : node)
        (book_list_container : element) :
  path_exists (path_join base_dir (u "index.htm")) = true ->
  makedirs fs output_dir = Made ->
  open_read fs (path_join base_dir (u "index.htm")) = Contents index_html ->
  BeautifulSoup index_html = Some index_soup ->
  find (matches (u "div") (u "bookList")) index_soup = Some book_list_container ->
  (∀ link, link ∈ find_all_links (el book_list_container) -> read_link link = NotABook) ->
  run fuel = Some (RunFinished O O [MadeDir output_dir]).
Proof.
  intros Hex Hmk Hopen Hparse Hfind Hlinks. unfold process_and_save_books.
  rewrite Hex, Hmk, Hopen, Hparse, Hfind. simpl.
  by apply book_loop_no_books.
Qed.

(** X24: a run that returns [False] for another reason than an exception
    has not got to any book: at most the output directory is made, and no
    file is written. *)
Theorem run_failed_before_the_books_writes_nothing
        (fuel : nat) (why : failure) (trace : list event) :
  run fuel = Some (RunFailed why trace) ->
  why ≠ IndexProcessingError ->
  (trace = [] ∨ trace = [MadeDir output_dir]) ∧ written trace = [].
Proof.
  unfold process_and_save_books.
  destruct (negb (path_exists _)); [intros [= <- <-] _; by split; [left|]|].
  destruct (makedirs fs output_dir);
    [|intros [= <- <-] _; by split; [left|] | done].
  destruct (open_read fs _) as [| |h]; [by intros [= <- <-] | by intros [= <- <-] |].
  destruct (BeautifulSoup h) as [soup|]; [|by intros [= <- <-]].
  destruct (find _ soup) as [container|]; [|intros [= <- <-] _; by split; [right|]].
  intros H Hwhy. by apply book_loop_fails in H.
Qed.

Lemma upper_char_upper_char c : upper_char (upper_char c) = upper_char c.
Proof.
  unfold upper_char.
  destruct ((97 <=? c) && (c <=? 122)) eqn:E.
  - apply andb_true_iff in E as [E1 E2]. apply N.leb_le in E1, E2.
    assert ((97 <=? c - 32) && (c - 32 <=? 122) = false) as ->
      by (apply andb_false_iff; left; apply N.leb_gt; lia).
    assert ((c - 32 =? 305) = false) as -> by (apply N.eqb_neq; lia).
    assert ((c - 32 =? 383) = false) as -> by (apply N.eqb_neq; lia).
    done.
  - destruct (c =? 305) eqn:E1; [done|].
    destruct (c =? 383) eqn:E2; [done|].
    by rewrite E, E1, E2.
Qed.

(** X25: what the loop takes from a link as a book: the link has a class
    with [oo] or [nn], a text that is not empty, which is the name, and a
    target that fits the pattern; the code is the first group in upper case,
    is not empty and is left as it is by [upper]; the padding is the length of
    the second group, at least one and within the digit limit of [int]; and
    the start chapter is the number its digits spell, never a negative one. *)
Theorem book_of_a_link_is_well_formed
        (link : node) (book_name base_code : pystr) (padding : nat) (start_chapter : N) :
  read_link link = Book book_name base_code padding start_chapter ->
  oo_or_nn (get (u "class") link) = true
  ∧ book_name = get_text_strip link ∧ book_name ≠ []
  ∧ base_code ≠ [] ∧ upper base_code = base_code
  ∧ (1 <= padding <= int_max_str_digits)%nat
  ∧ ∃ href g1 g2,
      get (u "href") link = Some (AStr href) ∧ match_href href = Some (g1, g2)
      ∧ base_code = upper g1 ∧ padding = length g2
      ∧ int g2 = Some (Z.of_N start_chapter)
      ∧ Z.of_N start_chapter = value_of (List.map ascii_digit g2).
Proof.
  intros H.
  assert (∃ href g1 g2, get (u "href") link = Some (AStr href)
                        ∧ match_href href = Some (g1, g2)) as (href & g1 & g2 & Hhref & Hm).
  { unfold read_link in H.
    destruct (oo_or_nn _); [|done].
    destruct (get (u "href") link) as [[href|l]|] eqn:Hhref; [| |done].
    - destruct (_ || _); [done|].
      destruct (match_href href) as [[g1 g2]|] eqn:Hm; [|done].
      exists href, g1, g2. by split.
    - by destruct (_ || _). }
  rewrite (read_link_matched _ _ _ _ Hhref Hm) in H.
  destruct (match_href_parts _ _ _ Hm) as (Hg1 & _ & Hg2 & Hdec & _).
  destruct (oo_or_nn _); [|done].
  destruct (bool_decide (get_text_strip link = [])) eqn:Hname; [done|].
  apply bool_decide_eq_false in Hname. simpl in H.
  case_bool_decide as Hlen; [|done]. injection H as <- <- <- <-.
  pose proof (value_of_not_negative (List.map ascii_digit g2)) as Hpos.
  split; [done|]. split; [done|]. split; [done|].
  split; [by destruct g1|].
  split; [unfold upper; rewrite List.map_map; apply List.map_ext;
          intros c; apply upper_char_upper_char|].
  split; [destruct g2; [done | simpl in *; lia]|].
  exists href, g1, g2. split; [done|]. split; [done|]. split; [done|]. split; [done|].
  rewrite (int_decimal_digits g2 Hg2 Hdec), bool_decide_eq_true_2 by done.
  rewrite Z2N.id by done. done.
Qed.

(** X26: lines 131-144 raise on a link exactly when it is a link of class
    [oo] or [nn] with a text whose target is not a string, or fits the
    pattern with more digits than [int] reads. *)
Theorem link_raises_only_beyond_the_digit_limit (link : node) :
  read_link link = Raises ↔
  oo_or_nn (get (u "class") link) = true ∧ get_text_strip link ≠ []
  ∧ ((∃ l, get (u "href") link = Some (AList l) ∧ l ≠ [])
     ∨ ∃ href g1 g2,
         get (u "href") link = Some (AStr href) ∧ match_href href = Some (g1, g2)
         ∧ (int_max_str_digits < length g2)%nat).
Proof.
  split.
  - intros H. pose proof H as H'. unfold read_link in H'.
    destruct (oo_or_nn _) eqn:Hc; [|done].
    destruct (get (u "href") link) as [[href|l]|] eqn:Hhref; [| |done].
    + destruct (match_href href) as [[g1 g2]|] eqn:Hm;
        [|by destruct (_ || _)].
      clear H'. rewrite (read_link_matched _ _ _ _ Hhref Hm), Hc in H.
      destruct (bool_decide (get_text_strip link = [])) eqn:Hname; [done|].
      apply bool_decide_eq_false in Hname. simpl in H.
      case_bool_decide as Hlen; [done|].
      split; [done|]. split; [done|]. right. exists href, g1, g2.
      split; [done|]. split; [done|]. lia.
    + destruct (bool_decide (get_text_strip link = [])) eqn:Hname; [done|].
      apply bool_decide_eq_false in Hname. simpl in H'. clear H.
      case_bool_decide as Hl; [done|].
      split; [done|]. split; [done|]. left. by exists l.
  - intros (Hc & Hname & [(l & Hhref & Hl)|(href & g1 & g2 & Hhref & Hm & Hlen)]).
    + unfold read_link. rewrite Hc, Hhref.
      by rewrite !bool_decide_eq_false_2.
    + rewrite (read_link_matched _ _ _ _ Hhref Hm), Hc.
      rewrite (bool_decide_eq_false_2 _ Hname). simpl.
      rewrite bool_decide_eq_false_2; [done | lia].
Qed.

End Links.
(** ** The run ends *)

Section Ends.
Variable raises : operation -> bool.
Variable BeautifulSoup : pystr -> option node.
Variable fs : filesystem.
Variable path_exists : pystr -> bool.
Variable stdout : pystr -> bool.
Variables base_dir output_dir : pystr.

#[local] Abbreviation books :=
  (book_loop raises BeautifulSoup fs stdout base_dir output_dir).
#[local] Abbreviation run :=
  (process_and_save_books raises BeautifulSoup fs path_exists stdout base_dir output_dir).

Lemma loop_ends_with_more book_name base_code padding (n : nat) :
  ∀ c count trace,
    ¬ readable fs base_dir base_code padding (c + N.of_nat n) ->
    ∃ r, ∀ more,
      chapter_loop raises BeautifulSoup fs base_dir output_dir book_name base_code
                   padding (S n + more) c count trace = Some r.
Proof.
  intros c count trace H.
  destruct (loop_ends raises BeautifulSoup fs base_dir output_dir book_name
                      base_code padding n c count trace H) as [r Hr].
  exists r. intros more.
  by apply (loop_more_fuel raises BeautifulSoup fs base_dir output_dir book_name
                           base_code padding (S n) c count trace r more).
Qed.

Lemma book_loop_ends links :
  (∀ link book_name base_code padding start_chapter,
      link ∈ links ->
      read_link link = Book book_name base_code padding start_chapter ->
      ∃ n, ¬ readable fs base_dir base_code padding (start_chapter + N.of_nat n)) ->
  ∀ b c tr, ∃ fuel r, ∀ more, books (fuel + more)%nat links b c tr = Some r.
Proof.
  induction links as [|link links IH]; intros Hends b c tr.
  - exists O. eexists. by intros more.
  - assert (∀ b c tr, ∃ fuel r, ∀ more, books (fuel + more)%nat links b c tr = Some r)
      as IH'.
    { apply IH. intros l name code padding start Hl. apply Hends.
      by apply list_elem_of_further. }
    destruct (read_link link) as [| |name code padding start] eqn:El.
    + destruct (IH' b c tr) as (fuel & r & Hr). exists fuel, r. intros more.
      cbn [book_loop]. rewrite El. apply Hr.
    + exists O. eexists. intros more. cbn [book_loop]. by rewrite El.
    + destruct (negb (stdout (processing_book_message name))) eqn:Eout.
      { exists O. eexists. intros more. cbn [book_loop]. by rewrite El, Eout. }
      destruct (Hends link name code padding start (list_elem_of_here _ _) El) as [n Hn].
      destruct (loop_ends_with_more name code padding n start O tr Hn) as [[k tr1] Hk].
      destruct (bool_decide (0 < k)%nat) eqn:Epos.
      * destruct (negb (stdout (finished_book_message name k))) eqn:Efin.
        { exists (S n). eexists. intros more. cbn [book_loop].
          rewrite El, Eout. change (S (n + more)) with (S n + more)%nat.
          by rewrite Hk, Epos, Efin. }
        destruct (IH' (S b) (c + k)%nat tr1) as (fuel & r & Hr).
        exists (S n + fuel)%nat, r. intros more. cbn [book_loop]. rewrite El, Eout.
        replace (S n + fuel + more)%nat with (S n + (fuel + more))%nat by lia.
        rewrite Hk, Epos, Efin.
        replace (S n + (fuel + more))%nat with (fuel + (S n + more))%nat by lia.
        apply Hr.
      * destruct (IH' b c tr1) as (fuel & r & Hr).
        exists (S n + fuel)%nat, r. intros more. cbn [book_loop]. rewrite El, Eout.
        replace (S n + fuel + more)%nat with (S n + (fuel + more))%nat by lia.
        rewrite Hk, Epos.
        replace (S n + (fuel + more))%nat with (fuel + (S n + more))%nat by lia.
        apply Hr.
Qed.

(** X27: the run ends: when every book of the index has a chapter file
    after its first one that cannot be read, some number of iterations per
    book is enough for the run to return, and more change nothing. *)
Theorem run_ends_when_every_book_ends
        (index_html : pystr) (index_soup : node) (book_list_container : element) :
  open_read fs (path_join base_dir (u "index.htm")) = Contents index_html ->
  BeautifulSoup index_html = Some index_soup ->
  find (matches (u "div") (u "bookList")) index_soup = Some book_list_container ->
  (∀ link book_name base_code padding start_chapter,
      link ∈ find_all_links (el book_list_container) ->
      read_link link = Book book_name base_code padding start_chapter ->
      ∃ n, ¬ readable fs base_dir base_code padding (start_chapter + N.of_nat n)) ->
  ∃ fuel r, ∀ more, run (fuel + more)%nat = Some r.
Proof.
  intros Hopen Hparse Hfind Hends. unfold process_and_save_books.
  destruct (negb (path_exists _)); [by exists O; eexists|].
  destruct (makedirs fs output_dir); [|by exists O; eexists..].
  rewrite Hopen, Hparse, Hfind. by apply book_loop_ends.
Qed.

End Ends.

(** ** The further properties at the samples *)

(** X2 at the sample book: its second chapter cannot be read, so two rounds
    are enough from the first. *)
Lemma two_rounds_end_at_three_chapters :
  ∃ r, chapter_loop Samples.too_deep Samples.parse_chapter1 Samples.three_chapters
                    (u "WEBBible") (u "WEBBibleJSON") (u "Genesis") (u "GEN") 2
                    2 1 0 [] = Some r.
Proof.
  apply (chapter_loop_ends_at_first_unreadable
           Samples.too_deep Samples.parse_chapter1 Samples.three_chapters
           (u "WEBBible") (u "WEBBibleJSON") (u "Genesis") (u "GEN") 2
           1 1 0 []).
  intros [file_content H]. vm_compute in H. discriminate.
Defined.

(** X3 at the book of two chapters. *)
Lemma count_at_two_chapters :
  2%nat = length (written [MadeDir (u "WEBBibleJSON/Genesis");
                           WroteJson (u "WEBBibleJSON/Genesis/1.json") MoreSamples.verses1;
                           WroteJson (u "WEBBibleJSON/Genesis/2.json") MoreSamples.verses1]).
Proof.
  apply (book_count_is_the_number_of_files_written
           Samples.too_deep Samples.parse_chapter1 MoreSamples.two_chapters
           (u "WEBBible") (u "WEBBibleJSON") (u "Genesis") (u "GEN") 2
           3 1).
  vm_compute; reflexivity.
Defined.

(** X4 at the sample book: the file of its first chapter is written, as that
    chapter is reached. *)
Lemma first_chapter_written_at_three_chapters :
  (u "WEBBibleJSON/Genesis/1.json", MoreSamples.verses1)
    ∈ written MoreSamples.three_chapters_events
  ↔ (u "WEBBibleJSON/Genesis/1.json", MoreSamples.verses1) ∈ written []
    ∨ saved_from Samples.too_deep Samples.parse_chapter1 Samples.three_chapters
                 (u "WEBBible") (u "WEBBibleJSON") (u "Genesis") (u "GEN") 2
                 1 (u "WEBBibleJSON/Genesis/1.json") MoreSamples.verses1.
Proof.
  apply (chapter_loop_writes_exactly_the_reachable_chapters
           Samples.too_deep Samples.parse_chapter1 Samples.three_chapters
           (u "WEBBible") (u "WEBBibleJSON") (u "Genesis") (u "GEN") 2
           3 1 0 1 [] MoreSamples.three_chapters_events);
    vm_compute; reflexivity.
Defined.

(** X5 at the book whose directory cannot be made. *)
Lemma nothing_written_at_no_directory :
  O = O
  ∧ written [ErrorCreatingBookDirectory (u "WEBBibleJSON/Genesis")] = written [].
Proof.
  apply (chapter_loop_writes_nothing_without_directory
           Samples.too_deep Samples.parse_chapter1 MoreSamples.no_directory
           (u "WEBBible") (u "WEBBibleJSON") (u "Genesis") (u "GEN") 2
           5 1 [] [ErrorCreatingBookDirectory (u "WEBBibleJSON/Genesis")] O).
  - vm_compute. discriminate.
  - vm_compute; reflexivity.
Defined.

(** X6 at the book of two chapters. *)
Lemma two_chapters_saved_whole :
  process_book Samples.too_deep Samples.parse_chapter1 MoreSamples.two_chapters
               (u "WEBBible") (u "WEBBibleJSON") (u "Genesis") (u "GEN") 2 3 1
  = Some (2%nat,
          (if bool_decide (2%nat = O) then []
           else [MadeDir (book_dir_path (u "WEBBibleJSON") (u "Genesis"))])
          ++ List.map (fun i => WroteJson
                                  (output_json_path (u "WEBBibleJSON") (u "Genesis")
                                                    (1 + N.of_nat i))
                                  MoreSamples.verses1)
                      (seq 0 2)).
Proof.
  apply (book_of_n_chapters_is_saved_whole
           Samples.too_deep Samples.parse_chapter1 MoreSamples.two_chapters
           (u "WEBBible") (u "WEBBibleJSON") (u "Genesis") (u "GEN") 2
           2 1 (fun _ => Samples.chapter1_html) (fun _ => MoreSamples.verses1)).
  - reflexivity.
  - intros [|[|i]] Hi; [vm_compute; done | vm_compute; done | lia].
  - vm_compute; reflexivity.
Defined.

(** X7 at the sample book. *)
Lemma directory_first_at_three_chapters :
  dir_before_json (book_dir_path (u "WEBBibleJSON") (u "Genesis"))
                  MoreSamples.three_chapters_events.
Proof.
  apply (book_directory_is_made_before_any_file
           Samples.too_deep Samples.parse_chapter1 Samples.three_chapters
           (u "WEBBible") (u "WEBBibleJSON") (u "Genesis") (u "GEN") 2
           3 1 1).
  vm_compute; reflexivity.
Defined.

(** X8 at the book whose chapter holds no verse. *)
Lemma no_directory_at_no_verses :
  O = O
  ∧ (@nil event = []
     ∨ ∃ n, [] = [ErrorProcessingChapterFile
                    (chapter_filepath (u "WEBBible") (u "GEN") 2 n)]).
Proof.
  apply (book_without_verses_makes_no_directory
           Samples.too_deep Samples.parse_chapter1 MoreSamples.no_verses
           (u "WEBBible") (u "WEBBibleJSON") (u "Genesis") (u "GEN") 2
           5 1 O []).
  - intros n file_content H. cbn [open_read MoreSamples.no_verses] in H.
    destruct (str_eqb _ _); [|discriminate].
    injection H as <-. vm_compute; reflexivity.
  - vm_compute; reflexivity.
Defined.

(** X9 at the sample chapter. *)
Lemma text_of_verse_two_is_not_empty : u "The earth" ≠ [].
Proof.
  apply (returned_texts_are_not_empty Samples.too_deep Samples.chapter1 MoreSamples.verses1 2%Z);
    vm_compute; reflexivity.
Defined.

(** X10 at the sample chapter. *)
Lemma text_of_verse_one_is_fixed :
  normalize [u "In the beginning"] = u "In the beginning".
Proof.
  apply (returned_texts_are_fixed_by_normalize
           Samples.too_deep Samples.chapter1 MoreSamples.verses1 1%Z);
    vm_compute; reflexivity.
Defined.

(** X11 at the sample chapter: the first element the walk of its first
    marker goes over is not inside its footnote div. *)
Lemma first_visited_is_outside_the_footnote :
  inside MoreSamples.chapter1_footnote MoreSamples.chapter1_first_visited = false.
Proof.
  apply (walk_stays_out_of_the_zones
           Samples.chapter1 MoreSamples.chapter1_main
           (u "1") MoreSamples.chapter1_walk).
  - vm_compute; reflexivity.
  - vm_compute; reflexivity.
  - apply list_elem_of_In. vm_compute. left; reflexivity.
  - apply list_elem_of_In. vm_compute. left; reflexivity.
  - apply list_elem_of_In. vm_compute.
    repeat first [left; reflexivity | right].
  - left. vm_compute; reflexivity.
Defined.

(** X12 at the sample chapter: the content of its first marker ends before
    the second. *)
Lemma first_marker_ends_before_the_second :
  ∃ between,
    snd (MoreSamples.chapter1_tag 0)
    = between ++ fst (MoreSamples.chapter1_tag 1) :: snd (MoreSamples.chapter1_tag 1)
    ∧ markers Samples.chapter1 !! 0%nat
      = Some (get_text_strip (el (fst (MoreSamples.chapter1_tag 0))),
              walk (Some (el (fst (MoreSamples.chapter1_tag 1))))
                   (footnote_div Samples.chapter1 MoreSamples.chapter1_main)
                   (copyright_div Samples.chapter1 MoreSamples.chapter1_main)
                   between).
Proof.
  apply (content_ends_before_the_next_marker
           Samples.chapter1 MoreSamples.chapter1_main 0);
    vm_compute; reflexivity.
Defined.

(** X15 for chapter 5 written in two digits. *)
Lemma int_reads_back_05 : int (zero_padded 2 5) = Some 5%Z.
Proof.
  apply (int_reads_back_a_zero_padded_number 2 5).
  apply Nat.leb_le. vm_compute; reflexivity.
Defined.

(** X17 at the sample link. *)
Lemma first_file_of_genesis :
  chapter_filepath (u "WEBBible") (u "GEN") 2 1
  = path_join (u "WEBBible")
              (upper (u "GEN") ++ List.map ascii_digit (u "01") ++ u ".htm")
  ∧ (forallb c_isdigit (u "01") = true -> List.map ascii_digit (u "01") = u "01").
Proof.
  apply (first_chapter_file_is_the_link_target
           (u "WEBBible") MoreSamples.genesis_link (u "GEN01.htm")
           (u "GEN") (u "01") (u "Genesis"));
    vm_compute; reflexivity.
Defined.

(** X18 at the sample site. *)
Lemma total_at_site :
  2%nat = length (written MoreSamples.site_events) ∧ (1 <= 2)%nat.
Proof.
  apply (run_total_is_the_number_of_files_written
           Samples.too_deep MoreSamples.parse_site MoreSamples.site
           MoreSamples.site_exists MoreSamples.ascii_terminal
           (u "WEBBible") (u "WEBBibleJSON") 5).
  vm_compute; reflexivity.
Defined.

(** X19 at the sample site. *)
Lemma run_at_site_finishes :
  ∃ books chapters trace,
    RunFinished 1 2 MoreSamples.site_events = RunFinished books chapters trace.
Proof.
  apply (run_survives_the_failures_of_books
           Samples.too_deep MoreSamples.parse_site MoreSamples.site
           MoreSamples.site_exists MoreSamples.ascii_terminal
           (u "WEBBible") (u "WEBBibleJSON") 5
           MoreSamples.index_html MoreSamples.index_soup MoreSamples.book_list).
  - vm_compute; reflexivity.
  - reflexivity.
  - vm_compute; reflexivity.
  - vm_compute; reflexivity.
  - vm_compute; reflexivity.
  - intros link Hin.
    assert (find_all_links (el MoreSamples.book_list) = [MoreSamples.genesis_link])
      as E by (vm_compute; reflexivity).
    rewrite E in Hin. apply list_elem_of_singleton in Hin as ->.
    vm_compute. discriminate.
  - intros link book_name base_code padding start_chapter n Hin.
    assert (find_all_links (el MoreSamples.book_list) = [MoreSamples.genesis_link])
      as E by (vm_compute; reflexivity).
    rewrite E in Hin. apply list_elem_of_singleton in Hin as ->.
    assert (read_link MoreSamples.genesis_link = Book (u "Genesis") (u "GEN") 2 1)
      as -> by (vm_compute; reflexivity).
    intros [= <- <- <- <-]. split; [vm_compute; reflexivity|].
    unfold MoreSamples.ascii_terminal, finished_book_message.
    rewrite !forallb_app. apply andb_true_iff. split; [vm_compute; reflexivity|].
    apply andb_true_iff. split; [vm_compute; reflexivity|].
    apply andb_true_iff. split; [vm_compute; reflexivity|].
    apply andb_true_iff. split; [|vm_compute; reflexivity].
    apply forallb_forall. intros c Hc.
    pose proof (proj1 (forallb_forall _ _) (decimal_digits (N.of_nat n)) c Hc) as Hd.
    unfold c_isdigit in Hd. apply N.ltb_lt. apply andb_true_iff in Hd as [_ Hd].
    apply N.leb_le in Hd. lia.
  - vm_compute; reflexivity.
Defined.

(** On a terminal that cannot write the name of a book, the run fails at the
    message of line 146, before any chapter of the book is read. *)
Example unprintable_book_name_fails_the_run :
  process_and_save_books
    Samples.too_deep (MoreSamples.parse_with [MoreSamples.genesis_link_es])
    MoreSamples.site MoreSamples.site_exists MoreSamples.ascii_terminal
    (u "WEBBible") (u "WEBBibleJSON") 5
  = Some (RunFailed IndexProcessingError [MadeDir (u "WEBBibleJSON")]).
Proof. vm_compute. reflexivity. Qed.

(** X20 at the sample chapter. *)
Lemma verse_two_is_its_last_text :
  MoreSamples.verses1 !! 2%Z = Some (u "The earth") ↔
  ∃ pre m post,
    markers Samples.chapter1 = pre ++ m :: post
    ∧ int (fst m) = Some 2%Z ∧ normalize (snd m) = u "The earth" ∧ u "The earth" ≠ []
    ∧ ∀ m', m' ∈ post -> int (fst m') = Some 2%Z -> normalize (snd m') = [].
Proof.
  apply (a_number_holds_its_last_text_that_is_not_empty
           Samples.too_deep Samples.chapter1 MoreSamples.verses1 2%Z (u "The earth")).
  vm_compute; reflexivity.
Defined.

(** X21 at the chapter with a marker in its footnote: the marker labelled 2
    collects nothing. *)
Lemma marker_in_the_note_collects_nothing :
  markers MoreSamples.marked_note !! 1%nat
  = Some (get_text_strip (el (fst (MoreSamples.marked_note_tag 1))), []).
Proof.
  apply (marker_inside_a_zone_collects_nothing
           MoreSamples.marked_note MoreSamples.marked_note_main 1
           (fst (MoreSamples.marked_note_tag 1)) MoreSamples.marked_note_footnote
           (snd (MoreSamples.marked_note_tag 1))).
  - vm_compute; reflexivity.
  - vm_compute; reflexivity.
  - vm_compute; reflexivity.
  - vm_compute. discriminate.
  - apply list_elem_of_In. vm_compute.
    repeat first [left; reflexivity | right].
  - left. vm_compute; reflexivity.
  - vm_compute; reflexivity.
Defined.

(** X22 at the sample site with a second link of too many digits: the run
    fails after the two chapters of Genesis are written. *)
Lemma run_fails_after_genesis :
  process_and_save_books
    Samples.too_deep
    (MoreSamples.parse_with [MoreSamples.genesis_link; MoreSamples.endless_link])
    MoreSamples.site MoreSamples.site_exists MoreSamples.ascii_terminal
    (u "WEBBible") (u "WEBBibleJSON") 5
  = Some (RunFailed IndexProcessingError MoreSamples.site_events)
  ∧ length (written MoreSamples.site_events) = 2%nat.
Proof.
  apply (exception_on_a_link_fails_the_run_after_the_books_before
           Samples.too_deep
           (MoreSamples.parse_with [MoreSamples.genesis_link; MoreSamples.endless_link])
           MoreSamples.site MoreSamples.site_exists MoreSamples.ascii_terminal
           (u "WEBBible") (u "WEBBibleJSON") 5
           MoreSamples.index_html
           (MoreSamples.index_of [MoreSamples.genesis_link; MoreSamples.endless_link])
           (MoreSamples.book_list_of [MoreSamples.genesis_link; MoreSamples.endless_link])
           [MoreSamples.genesis_link] [] MoreSamples.endless_link 1 2);
    vm_compute; reflexivity.
Defined.

(** X23 at the sample site with a link without a class for its index. *)
Lemma run_over_a_plain_link :
  process_and_save_books
    Samples.too_deep
    (MoreSamples.parse_with [MoreSamples.plain_link])
    MoreSamples.site MoreSamples.site_exists MoreSamples.ascii_terminal
    (u "WEBBible") (u "WEBBibleJSON") 5
  = Some (RunFinished O O [MadeDir (u "WEBBibleJSON")]).
Proof.
  apply (run_without_books_saves_nothing
           Samples.too_deep
           (MoreSamples.parse_with [MoreSamples.plain_link])
           MoreSamples.site MoreSamples.site_exists MoreSamples.ascii_terminal
           (u "WEBBible") (u "WEBBibleJSON") 5
           MoreSamples.index_html (MoreSamples.index_of [MoreSamples.plain_link])
           (MoreSamples.book_list_of [MoreSamples.plain_link])).
  - vm_compute; reflexivity.
  - reflexivity.
  - vm_compute; reflexivity.
  - vm_compute; reflexivity.
  - vm_compute; reflexivity.
  - intros link Hin.
    assert (find_all_links (el (MoreSamples.book_list_of [MoreSamples.plain_link]))
            = [MoreSamples.plain_link]) as E by (vm_compute; reflexivity).
    rewrite E in Hin. apply list_elem_of_singleton in Hin as ->.
    vm_compute; reflexivity.
Defined.

(** X24 where there is no index file. *)
Lemma run_without_index_writes_nothing :
  (@nil event = [] ∨ [] = [MadeDir (u "WEBBibleJSON")]) ∧ written [] = [].
Proof.
  apply (run_failed_before_the_books_writes_nothing
           Samples.too_deep MoreSamples.parse_site MoreSamples.site (fun _ => false)
           MoreSamples.ascii_terminal
           (u "WEBBible") (u "WEBBibleJSON") 5 IndexFileNotFound []).
  - vm_compute; reflexivity.
  - discriminate.
Defined.

(** X25 at the sample link. *)
Lemma genesis_is_well_formed :
  oo_or_nn (get (u "class") MoreSamples.genesis_link) = true
  ∧ u "Genesis" = get_text_strip MoreSamples.genesis_link ∧ u "Genesis" ≠ []
  ∧ u "GEN" ≠ [] ∧ upper (u "GEN") = u "GEN"
  ∧ (1 <= 2 <= int_max_str_digits)%nat
  ∧ ∃ href g1 g2,
      get (u "href") MoreSamples.genesis_link = Some (AStr href)
      ∧ match_href href = Some (g1, g2)
      ∧ u "GEN" = upper g1 ∧ 2%nat = length g2
      ∧ int g2 = Some (Z.of_N 1)
      ∧ Z.of_N 1 = value_of (List.map ascii_digit g2).
Proof.
  apply (book_of_a_link_is_well_formed MoreSamples.genesis_link).
  vm_compute; reflexivity.
Defined.

(** X27 at the sample site: the third chapter file of Genesis is absent. *)
Lemma run_at_site_ends :
  ∃ fuel r, ∀ more,
    process_and_save_books Samples.too_deep MoreSamples.parse_site MoreSamples.site
                           MoreSamples.site_exists MoreSamples.ascii_terminal
                           (u "WEBBible") (u "WEBBibleJSON") (fuel + more)%nat
    = Some r.
Proof.
  apply (run_ends_when_every_book_ends
           Samples.too_deep MoreSamples.parse_site MoreSamples.site
           MoreSamples.site_exists MoreSamples.ascii_terminal
           (u "WEBBible") (u "WEBBibleJSON")
           MoreSamples.index_html MoreSamples.index_soup MoreSamples.book_list).
  - vm_compute; reflexivity.
  - vm_compute; reflexivity.
  - vm_compute; reflexivity.
  - intros link book_name base_code padding start_chapter Hin.
    assert (find_all_links (el MoreSamples.book_list) = [MoreSamples.genesis_link])
      as E by (vm_compute; reflexivity).
    rewrite E in Hin. apply list_elem_of_singleton in Hin as ->.
    assert (read_link MoreSamples.genesis_link = Book (u "Genesis") (u "GEN") 2 1)
      as -> by (vm_compute; reflexivity).
    intros [= <- <- <- <-]. exists 2%nat.
    intros [file_content H]. vm_compute in H. discriminate.
Defined.
